(** * Balance lookup pipeline: TTL cache, keyed coalescing lock, metrics,
      upstream client and the lookup orchestrator.

    A shallow embedding of
      - pkg/cache/cache.go            (module [cache])
      - pkg/mutex/mutex.go            (module [mutex])
      - pkg/metrics/metrics.go        (module [metrics])
      - internal/services/health.go   ([SolanaClient], module [solana])
      - internal/services/balance.go  (module [services])
      - internal/models errors        (module [apperrors])
      - internal/handlers/balance.go  (module [handlers])
    together with the few pieces of the Go runtime they rest on (module
    [gort]): int64 arithmetic, monotonic clock readings, [sync.Mutex],
    channels that are only ever closed, and wrapped errors. *)

From Stdlib Require Import ZArith Lia Floats.
From stdpp Require Import base option list gmap strings pretty.

Local Open Scope Z_scope.

(* ===================================================================== *)
(** ** Go runtime pieces *)
(* ===================================================================== *)

Module gort.

(** How a call ends.  [Fatal] is the runtime's unrecoverable "fatal error"
    (it cannot be caught by [recover]); [Panic] is an ordinary panic;
    [Blocked] is a goroutine that cannot proceed in the current state. *)
Inductive outcome (A : Type) : Type :=
  | Ok (a : A)
  | Panic (msg : string)
  | Fatal (msg : string)
  | Blocked.
Arguments Ok {A} a.
Arguments Panic {A} msg.
Arguments Fatal {A} msg.
Arguments Blocked {A}.

#[export] Instance outcome_ret : MRet outcome := fun A a => Ok a.

#[export] Instance outcome_bind : MBind outcome := fun A B f x =>
  match x with
  | Ok a => f a
  | Panic m => Panic m
  | Fatal m => Fatal m
  | Blocked => Blocked
  end.

(** *** int64 *)

Definition minInt64 : Z := - 2 ^ 63.
Definition maxInt64 : Z := 2 ^ 63 - 1.

(** Two's-complement wrap-around of a mathematical integer into int64. *)
Definition wrap64 (z : Z) : Z := (z + 2 ^ 63) mod 2 ^ 64 - 2 ^ 63.

Definition is_int64 (z : Z) : Prop := minInt64 <= z <= maxInt64.

(** [atomic.AddInt64(&x, d)]: the new value, wrapping. *)
Definition AddInt64 (x d : Z) : Z := wrap64 (x + d).

(** *** time.Time and time.Duration

    A [Duration] is an int64 count of nanoseconds.  Every [Time] in this
    code base comes from [time.Now()], so it carries a monotonic clock
    reading, and [Sub]/[Since] on two such values subtract the readings
    (saturating at the int64 range, as [time.subMono] does).  A [Time] is
    modelled by that reading, in nanoseconds. *)

Definition Duration := Z.
Definition Time := Z.

Definition Nanosecond : Duration := 1.
Definition Microsecond : Duration := 1000 * Nanosecond.
Definition Millisecond : Duration := 1000 * Microsecond.
Definition Second : Duration := 1000 * Millisecond.
Definition maxDuration : Duration := maxInt64.
Definition minDuration : Duration := minInt64.

(** [t.Sub(u)] *)
Definition Sub (t u : Time) : Duration :=
  if maxInt64 <? t - u then maxDuration
  else if t - u <? minInt64 then minDuration
  else t - u.

(** [time.Since(t)], evaluated when the clock reads [now]. *)
Definition Since (now t : Time) : Duration := Sub now t.

(** The readings the runtime hands out: non-negative int64 values. *)
Definition clock_reading (t : Time) : Prop := 0 <= t <= maxInt64.

(** *** sync.Mutex, allocated on a heap

    The registry of per-key locks hands out pointers to mutexes, and a
    caller keeps its pointer while the registry may drop the entry; the
    mutexes therefore live in a store indexed by addresses, and an entry
    holds an address.  A cell is [true] while the mutex is locked. *)

Abbreviation heap := (list bool) (only parsing).
Abbreviation ptr := nat (only parsing).

(** [&sync.Mutex{}] *)
Definition new_Mutex (h : heap) : ptr * heap := (length h, h ++ [false]).

(** [m.TryLock()] *)
Definition TryLock (m : ptr) (h : heap) : bool * heap :=
  match h !! m with
  | Some false => (true, <[m := true]> h)
  | _ => (false, h)
  end.

(** [m.Lock()]: succeeds at once on a free mutex, blocks on a held one. *)
Definition Lock (m : ptr) (h : heap) : outcome heap :=
  match h !! m with
  | Some false => Ok (<[m := true]> h)
  | _ => Blocked
  end.

(** [m.Unlock()]: unlocking a mutex that is not locked is the runtime's
    "fatal error: sync: unlock of unlocked mutex". *)
Definition Unlock (m : ptr) (h : heap) : outcome heap :=
  match h !! m with
  | Some true => Ok (<[m := false]> h)
  | _ => Fatal "sync: unlock of unlocked mutex"
  end.

(** *** time.Ticker

    [time.NewTicker(d)] panics for a non-positive interval. *)
Definition NewTicker (d : Duration) : outcome unit :=
  if 0 <? d then Ok tt else Panic "non-positive interval for NewTicker".

(** *** nil pointers

    The message of the run-time panic raised by a read through a nil
    pointer. *)
Definition nil_dereference : string :=
  "runtime error: invalid memory address or nil pointer dereference".

(** *** A channel of [struct{}] that is only ever closed *)

Record chan := { closed : bool }.

Definition make_chan : chan := {| closed := false |}.

(** [close(ch)]: closing a closed channel panics. *)
Definition close (ch : chan) : outcome chan :=
  if closed ch then Panic "close of closed channel"
  else Ok {| closed := true |}.

(** *** error values

    [errors.New]/an opaque upstream error, and the [*fmt.wrapError] that
    [fmt.Errorf] builds for a [%w] verb: the formatted message next to
    the wrapped error. *)

Inductive error : Type :=
  | errorString (s : string)
  | wrapError (msg : string) (err : error).

(** [e.Error()] *)
Definition Error (e : error) : string :=
  match e with
  | errorString s => s
  | wrapError msg _ => msg
  end.

(** [errors.Unwrap(e)] *)
Definition Unwrap (e : error) : option error :=
  match e with
  | errorString _ => None
  | wrapError _ err => Some err
  end.

(** [fmt.Errorf(prefix + "%w", e)]: a nil operand is not an error, so the
    verb prints as a bad verb and nothing is wrapped. *)
Definition Errorf_w (prefix : string) (e : option error) : error :=
  match e with
  | Some e => wrapError (prefix +:+ Error e) e
  | None => errorString (prefix +:+ "%!w(<nil>)")
  end.

(** *** float64

    [float64(v)] for a uint64 [v]: the two 32-bit halves convert exactly,
    scaling the high half by 2^32 is exact, and the final addition rounds
    the exact value of [v] once, to nearest even. *)

Definition float64 := float.

Definition float64_of_uint64 (v : Z) : float64 :=
  let hi := of_uint63 (Uint63.of_Z (v / 2 ^ 32)) in
  let lo := of_uint63 (Uint63.of_Z (v mod 2 ^ 32)) in
  (hi * 4294967296 + lo)%float.

End gort.

Import gort.

(* ===================================================================== *)
(** ** pkg/cache *)
(* ===================================================================== *)

Module cache.

Record CacheEntry := {
  Balance : float64;
  Timestamp : Time;
}.

Record Cache := {
  data : gmap string CacheEntry;
  ttl : Duration;
  stopCh : chan;
}.

(** [New(ttl)].  The call returns the cache; the [cleanup] goroutine it
    starts runs on its own, see [cleanup_start], [cleanup_tick] and
    [cleanup_returns] below. *)
Definition New (ttl : Duration) : Cache :=
  {| data := ∅; ttl := ttl; stopCh := make_chan |}.

(** [c.Get(key)], called when the clock reads [now]. *)
Definition Get (c : Cache) (now : Time) (key : string) : float64 * bool :=
  match data c !! key with
  | None => (0%float, false)
  | Some entry =>
      if ttl c <? Since now (Timestamp entry) then (0%float, false)
      else (Balance entry, true)
  end.

(** [c.Set(key, balance)] *)
Definition Set_ (c : Cache) (now : Time) (key : string) (balance : float64) : Cache :=
  {| data := <[key := {| Balance := balance; Timestamp := now |}]> (data c);
     ttl := ttl c; stopCh := stopCh c |}.

(** [c.Delete(key)] *)
Definition Delete (c : Cache) (key : string) : Cache :=
  {| data := delete key (data c); ttl := ttl c; stopCh := stopCh c |}.

(** [c.Clear()] *)
Definition Clear (c : Cache) : Cache :=
  {| data := ∅; ttl := ttl c; stopCh := stopCh c |}.

(** [c.Size()] *)
Definition Size (c : Cache) : nat := size (data c).

(** [c.removeExpired()]: the loop deletes every entry whose age exceeds
    the TTL; each decision looks at that entry alone, so the outcome does
    not depend on the order in which the map is ranged over. *)
Definition removeExpired (c : Cache) (now : Time) : Cache :=
  {| data := filter (fun kv => ¬ (ttl c < Sub now (Timestamp kv.2))) (data c);
     ttl := ttl c; stopCh := stopCh c |}.

(** *** The [cleanup] goroutine

    [c.cleanup()] creates its ticker and then loops over a [select] with
    two cases, the ticker's channel and [stopCh].

    The start of the goroutine: [time.NewTicker(c.ttl)].  A panic here is
    in a goroutine of its own, so it ends the program after [New] has
    returned. *)
Definition cleanup_start (c : Cache) : outcome unit := NewTicker (ttl c).

(** One turn of the loop in which the [select] takes the ticker case,
    when the clock reads [now]; the loop is reached only when
    [cleanup_start] did not panic.  The [select] can take this case whenever
    a tick is pending, also after [stopCh] has been closed: both cases
    are ready then and the runtime picks one of them, and a sweep that
    waits for [c.mutex] has already been picked.  So a sweep can still
    run after [Stop] has returned. *)
Definition cleanup_tick (c : Cache) (now : Time) : Cache := removeExpired c now.

(** The [select] can take the stop case, on which the goroutine returns,
    once [stopCh] is closed and not before. *)
Definition cleanup_returns (c : Cache) : bool := closed (stopCh c).

(** [c.Stop()] *)
Definition Stop (c : Cache) : outcome Cache :=
  ch ← close (stopCh c);
  Ok {| data := data c; ttl := ttl c; stopCh := ch |}.

(** Every stored timestamp is a clock reading. *)
Definition stamped (c : Cache) : Prop :=
  forall k e, data c !! k = Some e -> clock_reading (Timestamp e).

End cache.

(* ===================================================================== *)
(** ** pkg/mutex *)
(* ===================================================================== *)

Module mutex.

Record mutexEntry := {
  mutex_ : ptr;
  lastAccess : Time;
}.

Record RequestMutex := {
  mutexes : gmap string mutexEntry;
  cleanupTTL : Duration;
  stopCh : chan;
  stopped : bool;
}.

Definition with_mutexes (rm : RequestMutex) (m : gmap string mutexEntry) : RequestMutex :=
  {| mutexes := m; cleanupTTL := cleanupTTL rm;
     stopCh := stopCh rm; stopped := stopped rm |}.

(** [New(cleanupTTL)] *)
Definition New (cleanupTTL : Duration) : RequestMutex :=
  {| mutexes := ∅; cleanupTTL := cleanupTTL; stopCh := make_chan; stopped := false |}.

(** [entry.lastAccess = time.Now()] on the entry stored under [address]. *)
Definition touch (rm : RequestMutex) (now : Time) (address : string) (entry : mutexEntry)
    : RequestMutex :=
  with_mutexes rm (<[address := {| mutex_ := mutex_ entry; lastAccess := now |}]> (mutexes rm)).

(** [rm.GetMutex(address)]: the read-locked lookup, then the write-locked
    re-check and creation.  The call is taken as one atomic step, so the
    re-check sees the map the first lookup saw. *)
Definition GetMutex (rm : RequestMutex) (now : Time) (address : string) (h : heap)
    : ptr * RequestMutex * heap :=
  match mutexes rm !! address with
  | Some entry => (mutex_ entry, touch rm now address entry, h)
  | None =>
      match mutexes rm !! address with
      | Some entry => (mutex_ entry, touch rm now address entry, h)
      | None =>
          let '(m, h') := new_Mutex h in
          let newEntry := {| mutex_ := m; lastAccess := now |} in
          (m, with_mutexes rm (<[address := newEntry]> (mutexes rm)), h')
      end
  end.

(** [rm.Lock(address)] *)
Definition Lock (rm : RequestMutex) (now : Time) (address : string) (h : heap)
    : outcome (RequestMutex * heap) :=
  let '(m, rm', h') := GetMutex rm now address h in
  h'' ← gort.Lock m h';
  Ok (rm', h'').

(** [rm.Unlock(address)] *)
Definition Unlock (rm : RequestMutex) (address : string) (h : heap) : outcome heap :=
  match mutexes rm !! address with
  | Some entry => gort.Unlock (mutex_ entry) h
  | None => Ok h
  end.

(** [rm.Size()] *)
Definition Size (rm : RequestMutex) : nat := size (mutexes rm).

(** The test of the [removeUnused] loop body on one entry: idle for
    longer than [cleanupTTL], and [TryLock] succeeds. *)
Definition unused (rm : RequestMutex) (now : Time) (h : heap) (entry : mutexEntry) : bool :=
  if cleanupTTL rm <? Sub now (lastAccess entry)
  then (TryLock (mutex_ entry) h).1
  else false.

(** [rm.removeUnused()]: an entry that passes the test is unlocked again
    at once and deleted, which leaves the heap as it was; the decision for
    one entry does not depend on the others. *)
Definition removeUnused (rm : RequestMutex) (now : Time) (h : heap) : RequestMutex :=
  with_mutexes rm (filter (fun kv => unused rm now h kv.2 = false) (mutexes rm)).

(** *** The [cleanup] goroutine

    [rm.cleanup()] has the shape of the cache's: it creates its ticker
    and loops over a [select] on the ticker's channel and [stopCh].

    The start of the goroutine: [time.NewTicker(rm.cleanupTTL)]. *)
Definition cleanup_start (rm : RequestMutex) : outcome unit := NewTicker (cleanupTTL rm).

(** One turn of the loop in which the [select] takes the ticker case;
    the loop is reached only when [cleanup_start] did not panic.  As in
    the cache, the [select] can take this case after [stopCh] has been
    closed, so a sweep can still run after [Stop] has returned. *)
Definition cleanup_tick (rm : RequestMutex) (now : Time) (h : heap) : RequestMutex :=
  removeUnused rm now h.

(** The [select] can take the stop case once [stopCh] is closed. *)
Definition cleanup_returns (rm : RequestMutex) : bool := closed (stopCh rm).

(** [rm.Stop()] *)
Definition Stop (rm : RequestMutex) : outcome RequestMutex :=
  if negb (stopped rm) then
    ch ← close (stopCh rm);
    Ok {| mutexes := mutexes rm; cleanupTTL := cleanupTTL rm;
          stopCh := ch; stopped := true |}
  else Ok rm.

(** A registry is well formed over a heap when every entry points into
    the heap and no two keys share a mutex. *)
Definition registry_wf (rm : RequestMutex) (h : heap) : Prop :=
  (forall k e, mutexes rm !! k = Some e -> (mutex_ e < length h)%nat) /\
  (forall k k' e e', mutexes rm !! k = Some e -> mutexes rm !! k' = Some e' ->
     mutex_ e = mutex_ e' -> k = k').

End mutex.

(* ===================================================================== *)
(** ** pkg/metrics *)
(* ===================================================================== *)

Module metrics.

Record Metrics := {
  TotalRequests : Z;
  SuccessfulRequests : Z;
  FailedRequests : Z;
  AverageResponseTime : Duration;
  MinResponseTime : Duration;
  MaxResponseTime : Duration;
  CacheHits : Z;
  CacheMisses : Z;
  RPCCalls : Z;
  RPCFailures : Z;
  AverageRPCTime : Duration;
  ActiveRequests : Z;
  MutexWaits : Z;
  totalResponseTime : Duration;
  totalRPCTime : Duration;
}.

Record MetricsCollector := {
  metrics_ : Metrics;
  startTime : Time;
}.

(** The zero value of [Metrics]. *)
Definition zero : Metrics :=
  {| TotalRequests := 0; SuccessfulRequests := 0; FailedRequests := 0;
     AverageResponseTime := 0; MinResponseTime := 0; MaxResponseTime := 0;
     CacheHits := 0; CacheMisses := 0; RPCCalls := 0; RPCFailures := 0;
     AverageRPCTime := 0; ActiveRequests := 0; MutexWaits := 0;
     totalResponseTime := 0; totalRPCTime := 0 |}.

(** Field updates. *)
Definition set_TotalRequests (v : Z) (m : Metrics) : Metrics :=
  {| TotalRequests := v; SuccessfulRequests := SuccessfulRequests m;
     FailedRequests := FailedRequests m; AverageResponseTime := AverageResponseTime m;
     MinResponseTime := MinResponseTime m; MaxResponseTime := MaxResponseTime m;
     CacheHits := CacheHits m; CacheMisses := CacheMisses m; RPCCalls := RPCCalls m;
     RPCFailures := RPCFailures m; AverageRPCTime := AverageRPCTime m;
     ActiveRequests := ActiveRequests m; MutexWaits := MutexWaits m;
     totalResponseTime := totalResponseTime m; totalRPCTime := totalRPCTime m |}.
Definition set_SuccessfulRequests (v : Z) (m : Metrics) : Metrics :=
  {| TotalRequests := TotalRequests m; SuccessfulRequests := v;
     FailedRequests := FailedRequests m; AverageResponseTime := AverageResponseTime m;
     MinResponseTime := MinResponseTime m; MaxResponseTime := MaxResponseTime m;
     CacheHits := CacheHits m; CacheMisses := CacheMisses m; RPCCalls := RPCCalls m;
     RPCFailures := RPCFailures m; AverageRPCTime := AverageRPCTime m;
     ActiveRequests := ActiveRequests m; MutexWaits := MutexWaits m;
     totalResponseTime := totalResponseTime m; totalRPCTime := totalRPCTime m |}.
Definition set_FailedRequests (v : Z) (m : Metrics) : Metrics :=
  {| TotalRequests := TotalRequests m; SuccessfulRequests := SuccessfulRequests m;
     FailedRequests := v; AverageResponseTime := AverageResponseTime m;
     MinResponseTime := MinResponseTime m; MaxResponseTime := MaxResponseTime m;
     CacheHits := CacheHits m; CacheMisses := CacheMisses m; RPCCalls := RPCCalls m;
     RPCFailures := RPCFailures m; AverageRPCTime := AverageRPCTime m;
     ActiveRequests := ActiveRequests m; MutexWaits := MutexWaits m;
     totalResponseTime := totalResponseTime m; totalRPCTime := totalRPCTime m |}.
Definition set_CacheHits (v : Z) (m : Metrics) : Metrics :=
  {| TotalRequests := TotalRequests m; SuccessfulRequests := SuccessfulRequests m;
     FailedRequests := FailedRequests m; AverageResponseTime := AverageResponseTime m;
     MinResponseTime := MinResponseTime m; MaxResponseTime := MaxResponseTime m;
     CacheHits := v; CacheMisses := CacheMisses m; RPCCalls := RPCCalls m;
     RPCFailures := RPCFailures m; AverageRPCTime := AverageRPCTime m;
     ActiveRequests := ActiveRequests m; MutexWaits := MutexWaits m;
     totalResponseTime := totalResponseTime m; totalRPCTime := totalRPCTime m |}.
Definition set_CacheMisses (v : Z) (m : Metrics) : Metrics :=
  {| TotalRequests := TotalRequests m; SuccessfulRequests := SuccessfulRequests m;
     FailedRequests := FailedRequests m; AverageResponseTime := AverageResponseTime m;
     MinResponseTime := MinResponseTime m; MaxResponseTime := MaxResponseTime m;
     CacheHits := CacheHits m; CacheMisses := v; RPCCalls := RPCCalls m;
     RPCFailures := RPCFailures m; AverageRPCTime := AverageRPCTime m;
     ActiveRequests := ActiveRequests m; MutexWaits := MutexWaits m;
     totalResponseTime := totalResponseTime m; totalRPCTime := totalRPCTime m |}.
Definition set_RPCCalls (v : Z) (m : Metrics) : Metrics :=
  {| TotalRequests := TotalRequests m; SuccessfulRequests := SuccessfulRequests m;
     FailedRequests := FailedRequests m; AverageResponseTime := AverageResponseTime m;
     MinResponseTime := MinResponseTime m; MaxResponseTime := MaxResponseTime m;
     CacheHits := CacheHits m; CacheMisses := CacheMisses m; RPCCalls := v;
     RPCFailures := RPCFailures m; AverageRPCTime := AverageRPCTime m;
     ActiveRequests := ActiveRequests m; MutexWaits := MutexWaits m;
     totalResponseTime := totalResponseTime m; totalRPCTime := totalRPCTime m |}.
Definition set_RPCFailures (v : Z) (m : Metrics) : Metrics :=
  {| TotalRequests := TotalRequests m; SuccessfulRequests := SuccessfulRequests m;
     FailedRequests := FailedRequests m; AverageResponseTime := AverageResponseTime m;
     MinResponseTime := MinResponseTime m; MaxResponseTime := MaxResponseTime m;
     CacheHits := CacheHits m; CacheMisses := CacheMisses m; RPCCalls := RPCCalls m;
     RPCFailures := v; AverageRPCTime := AverageRPCTime m;
     ActiveRequests := ActiveRequests m; MutexWaits := MutexWaits m;
     totalResponseTime := totalResponseTime m; totalRPCTime := totalRPCTime m |}.
Definition set_ActiveRequests (v : Z) (m : Metrics) : Metrics :=
  {| TotalRequests := TotalRequests m; SuccessfulRequests := SuccessfulRequests m;
     FailedRequests := FailedRequests m; AverageResponseTime := AverageResponseTime m;
     MinResponseTime := MinResponseTime m; MaxResponseTime := MaxResponseTime m;
     CacheHits := CacheHits m; CacheMisses := CacheMisses m; RPCCalls := RPCCalls m;
     RPCFailures := RPCFailures m; AverageRPCTime := AverageRPCTime m;
     ActiveRequests := v; MutexWaits := MutexWaits m;
     totalResponseTime := totalResponseTime m; totalRPCTime := totalRPCTime m |}.
Definition set_MutexWaits (v : Z) (m : Metrics) : Metrics :=
  {| TotalRequests := TotalRequests m; SuccessfulRequests := SuccessfulRequests m;
     FailedRequests := FailedRequests m; AverageResponseTime := AverageResponseTime m;
     MinResponseTime := MinResponseTime m; MaxResponseTime := MaxResponseTime m;
     CacheHits := CacheHits m; CacheMisses := CacheMisses m; RPCCalls := RPCCalls m;
     RPCFailures := RPCFailures m; AverageRPCTime := AverageRPCTime m;
     ActiveRequests := ActiveRequests m; MutexWaits := v;
     totalResponseTime := totalResponseTime m; totalRPCTime := totalRPCTime m |}.

(** The fields written under [metrics.mutex] by [RecordRequestComplete]. *)
Definition set_response_times (total avg mn mx : Duration) (m : Metrics) : Metrics :=
  {| TotalRequests := TotalRequests m; SuccessfulRequests := SuccessfulRequests m;
     FailedRequests := FailedRequests m; AverageResponseTime := avg;
     MinResponseTime := mn; MaxResponseTime := mx;
     CacheHits := CacheHits m; CacheMisses := CacheMisses m; RPCCalls := RPCCalls m;
     RPCFailures := RPCFailures m; AverageRPCTime := AverageRPCTime m;
     ActiveRequests := ActiveRequests m; MutexWaits := MutexWaits m;
     totalResponseTime := total; totalRPCTime := totalRPCTime m |}.

(** The fields written under [metrics.mutex] by [RecordRPCCall]. *)
Definition set_rpc_times (total avg : Duration) (m : Metrics) : Metrics :=
  {| TotalRequests := TotalRequests m; SuccessfulRequests := SuccessfulRequests m;
     FailedRequests := FailedRequests m; AverageResponseTime := AverageResponseTime m;
     MinResponseTime := MinResponseTime m; MaxResponseTime := MaxResponseTime m;
     CacheHits := CacheHits m; CacheMisses := CacheMisses m; RPCCalls := RPCCalls m;
     RPCFailures := RPCFailures m; AverageRPCTime := avg;
     ActiveRequests := ActiveRequests m; MutexWaits := MutexWaits m;
     totalResponseTime := totalResponseTime m; totalRPCTime := total |}.

Definition on_metrics (f : Metrics -> Metrics) (mc : MetricsCollector) : MetricsCollector :=
  {| metrics_ := f (metrics_ mc); startTime := startTime mc |}.

(** [NewMetricsCollector()] *)
Definition NewMetricsCollector (now : Time) : MetricsCollector :=
  {| metrics_ := set_response_times 0 0 maxInt64 0 zero; startTime := now |}.

(** [mc.RecordRequest()] *)
Definition RecordRequest (mc : MetricsCollector) : MetricsCollector :=
  on_metrics (fun m =>
    let m := set_TotalRequests (AddInt64 (TotalRequests m) 1) m in
    set_ActiveRequests (AddInt64 (ActiveRequests m) 1) m) mc.

(** [mc.RecordRequestComplete(duration, success)]; the int64 division
    truncates toward zero. *)
Definition RecordRequestComplete (mc : MetricsCollector) (duration : Duration) (success : bool)
    : MetricsCollector :=
  on_metrics (fun m =>
    let m := set_ActiveRequests (AddInt64 (ActiveRequests m) (-1)) m in
    let m := if success
             then set_SuccessfulRequests (AddInt64 (SuccessfulRequests m) 1) m
             else set_FailedRequests (AddInt64 (FailedRequests m) 1) m in
    let total := wrap64 (totalResponseTime m + duration) in
    let mn := if duration <? MinResponseTime m then duration else MinResponseTime m in
    let mx := if MaxResponseTime m <? duration then duration else MaxResponseTime m in
    let totalRequests := TotalRequests m in
    let avg := if 0 <? totalRequests then Z.quot total totalRequests
               else AverageResponseTime m in
    set_response_times total avg mn mx m) mc.

(** [mc.RecordCacheHit()] *)
Definition RecordCacheHit (mc : MetricsCollector) : MetricsCollector :=
  on_metrics (fun m => set_CacheHits (AddInt64 (CacheHits m) 1) m) mc.

(** [mc.RecordCacheMiss()] *)
Definition RecordCacheMiss (mc : MetricsCollector) : MetricsCollector :=
  on_metrics (fun m => set_CacheMisses (AddInt64 (CacheMisses m) 1) m) mc.

(** [mc.RecordRPCCall(duration, success)] *)
Definition RecordRPCCall (mc : MetricsCollector) (duration : Duration) (success : bool)
    : MetricsCollector :=
  on_metrics (fun m =>
    let m := set_RPCCalls (AddInt64 (RPCCalls m) 1) m in
    let m := if negb success
             then set_RPCFailures (AddInt64 (RPCFailures m) 1) m
             else m in
    let total := wrap64 (totalRPCTime m + duration) in
    let totalRPCCalls := RPCCalls m in
    let avg := if 0 <? totalRPCCalls then Z.quot total totalRPCCalls
               else AverageRPCTime m in
    set_rpc_times total avg m) mc.

(** [mc.RecordMutexWait()] *)
Definition RecordMutexWait (mc : MetricsCollector) : MetricsCollector :=
  on_metrics (fun m => set_MutexWaits (AddInt64 (MutexWaits m) 1) m) mc.

(** [mc.GetMetrics()]: a copy of the exported fields; the two running
    sums are left at their zero value. *)
Definition GetMetrics (mc : MetricsCollector) : Metrics :=
  set_rpc_times 0 (AverageRPCTime (metrics_ mc))
    (set_response_times 0 (AverageResponseTime (metrics_ mc))
       (MinResponseTime (metrics_ mc)) (MaxResponseTime (metrics_ mc)) (metrics_ mc)).

(** [mc.GetUptime()] *)
Definition GetUptime (mc : MetricsCollector) (now : Time) : Duration :=
  Since now (startTime mc).

(** [mc.Reset()] *)
Definition Reset (mc : MetricsCollector) (now : Time) : MetricsCollector :=
  {| metrics_ := set_response_times 0 0 maxInt64 0 zero; startTime := now |}.

(** The recording operations, as a caller can invoke them. *)
Inductive recording : Type :=
  | OpRecordRequest
  | OpRecordRequestComplete (duration : Duration) (success : bool)
  | OpRecordCacheHit
  | OpRecordCacheMiss
  | OpRecordRPCCall (duration : Duration) (success : bool)
  | OpRecordMutexWait.

Definition record (op : recording) (mc : MetricsCollector) : MetricsCollector :=
  match op with
  | OpRecordRequest => RecordRequest mc
  | OpRecordRequestComplete d s => RecordRequestComplete mc d s
  | OpRecordCacheHit => RecordCacheHit mc
  | OpRecordCacheMiss => RecordCacheMiss mc
  | OpRecordRPCCall d s => RecordRPCCall mc d s
  | OpRecordMutexWait => RecordMutexWait mc
  end.

(** The seven monotonic counters of a collector, in the order
    TotalRequests, SuccessfulRequests, FailedRequests, CacheHits,
    CacheMisses, RPCCalls, RPCFailures. *)
Definition counters (mc : MetricsCollector) : list Z :=
  let m := metrics_ mc in
  [TotalRequests m; SuccessfulRequests m; FailedRequests m;
   CacheHits m; CacheMisses m; RPCCalls m; RPCFailures m].

(** A run of recording operations, in order. *)
Definition record_all (ops : list recording) (mc : MetricsCollector) : MetricsCollector :=
  foldl (fun mc op => record op mc) mc ops.

(** How many operations of a run satisfy [p]. *)
Definition tally (p : recording -> bool) (ops : list recording) : Z :=
  Z.of_nat (length (List.filter p ops)).

Definition is_request (op : recording) : bool :=
  match op with OpRecordRequest => true | _ => false end.
Definition is_complete (success : bool) (op : recording) : bool :=
  match op with OpRecordRequestComplete _ s => Bool.eqb s success | _ => false end.
Definition is_hit (op : recording) : bool :=
  match op with OpRecordCacheHit => true | _ => false end.
Definition is_miss (op : recording) : bool :=
  match op with OpRecordCacheMiss => true | _ => false end.
Definition is_rpc (op : recording) : bool :=
  match op with OpRecordRPCCall _ _ => true | _ => false end.
Definition is_rpc_failure (op : recording) : bool :=
  match op with OpRecordRPCCall _ s => negb s | _ => false end.
Definition is_wait (op : recording) : bool :=
  match op with OpRecordMutexWait => true | _ => false end.

End metrics.

(* ===================================================================== *)
(** ** internal/services: the upstream client ([SolanaClient]) *)
(* ===================================================================== *)

Module solana.

(** [config.RPCConfig]; [MaxRetries] and [ConnectionPoolSize] are Go
    [int]s (64 bits wide). *)
Record RPCConfig := {
  Endpoint : string;
  Timeout : Duration;
  APIKey : string;
  MaxRetries : Z;
  RetryDelay : Duration;
  ConnectionPoolSize : Z;
}.

(** What one call of [GetBalance] does to the outside world, in order:
    an RPC request issued under a context with the given timeout, or a
    [time.Sleep] of the given duration. *)
Inductive event : Type :=
  | Attempt (attempt : Z) (timeout : Duration)
  | Sleep (d : Duration).

Section client.

(** The two library calls [GetBalance] makes: [solana.PublicKeyFromBase58]
    and [rpc.Client.GetBalance].  The latter answers the [attempt]-th
    request of this call, under the given timeout, with a pointer to a
    result and an error: the pointer is given as the lamports in the
    [Value] of the result it points to, or [None] when it is nil.  The
    library can answer a nil result with a nil error. *)
Context {PublicKey : Type}.
Variable PublicKeyFromBase58 : string -> PublicKey * option error.
Variable rpc_GetBalance : Duration -> PublicKey -> Z -> option Z * option error.

Variable config : RPCConfig.

(** The retry loop of [GetBalance], entered with the loop variable at
    [attempt].  [fuel] bounds the number of iterations; [None] says the
    loop was still running when the fuel ran out.  The call ends by
    returning a value and an error, or by the panic of reading
    [balance.Value] through a nil [balance]; the trace is what it did
    until then. *)
Fixpoint retry (fuel : nat) (pubKey : PublicKey) (attempt : Z) (lastErr : option error)
    (trace : list event) : option (outcome (float64 * option error) * list event) :=
  if attempt <=? MaxRetries config then
    match fuel with
    | O => None
    | S fuel =>
        let '(balance, err) := rpc_GetBalance (Timeout config) pubKey attempt in
        let trace := trace ++ [Attempt attempt (Timeout config)] in
        match err with
        | None =>
            match balance with
            | Some Value =>
                let solBalance := (float64_of_uint64 Value / 1e9)%float in
                Some (Ok (solBalance, None), trace)
            | None => Some (Panic nil_dereference, trace)
            end
        | Some err =>
            let lastErr := Some err in
            let trace :=
              if attempt <? MaxRetries config
              then trace ++ [Sleep (wrap64 (RetryDelay config * wrap64 (attempt + 1)))]
              else trace in
            retry fuel pubKey (wrap64 (attempt + 1)) lastErr trace
        end
    end
  else
    Some (Ok (0%float,
              Some (Errorf_w ("failed to get balance from RPC after "
                                +:+ pretty (wrap64 (MaxRetries config + 1))
                                +:+ " attempts: ") lastErr)),
          trace).

(** [s.GetBalance(address)] *)
Definition GetBalance (fuel : nat) (address : string)
    : option (outcome (float64 * option error) * list event) :=
  match PublicKeyFromBase58 address with
  | (_, Some err) =>
      Some (Ok (0%float, Some (Errorf_w "invalid wallet address: " (Some err))), [])
  | (pubKey, None) => retry fuel pubKey 0 None []
  end.

End client.

(** The delays slept, in order. *)
Definition sleeps (trace : list event) : list Duration :=
  omap (fun ev => match ev with Sleep d => Some d | Attempt _ _ => None end) trace.

(** The requests issued, in order. *)
Definition attempts (trace : list event) : list (Z * Duration) :=
  omap (fun ev => match ev with Attempt a t => Some (a, t) | Sleep _ => None end) trace.

(** How a call ends, against the answer to its last request: with the
    lamports of that answer in SOL and a nil error when the answer
    carries a result and no error; with the panic of the nil dereference
    when it carries neither a result nor an error; with 0 and an error
    when it carries an error and [budget] requests were made. *)
Definition ends_with (r : outcome (float64 * option error)) (last : option Z * option error)
    (requests budget : Z) : Prop :=
  match r with
  | Ok (v, None) =>
      exists lamports, last = (Some lamports, None) /\
                       v = (float64_of_uint64 lamports / 1e9)%float
  | Ok (v, Some _) => v = 0%float /\ last.2 ≠ None /\ requests = budget
  | Panic msg => last = (None, None) /\ msg = nil_dereference
  | Fatal _ | Blocked => False
  end.

(** Delays grow exponentially when they form a geometric progression
    (delay k = base * ratio^k): of any three consecutive delays, the
    middle one squared is the product of its neighbours. *)
Definition exponential (ds : list Duration) : Prop :=
  forall i d0 d1 d2,
    ds !! i = Some d0 -> ds !! S i = Some d1 -> ds !! S (S i) = Some d2 ->
    d0 < d1 /\ d1 * d1 = d0 * d2.

Section batch_client.

(** [rpc.Client.GetMultipleAccounts]: its answer to the [n]-th batch
    request of a call, under the given timeout, as the [Value] slice of
    the result, one slot per key: the lamports of the account, or nil
    for an account that does not exist. *)
Context {PublicKey : Type}.
Variable PublicKeyFromBase58 : string -> PublicKey * option error.
Variable rpc_GetMultipleAccounts :
  Duration -> list PublicKey -> nat -> list (option Z) * option error.

Variable config : RPCConfig.

(** The first loop of [getBalancesBatch]: parse every address, stopping
    at the first that does not parse. *)
Fixpoint parse_all (addresses : list string) : error + list PublicKey :=
  match addresses with
  | [] => inr []
  | address :: rest =>
      match PublicKeyFromBase58 address with
      | (_, Some err) =>
          inl (Errorf_w ("invalid wallet address " +:+ address +:+ ": ") (Some err))
      | (pubKey, None) =>
          match parse_all rest with
          | inl e => inl e
          | inr pubKeys => inr (pubKey :: pubKeys)
          end
      end
  end.

(** The last loop of [getBalancesBatch], from index [i] on. *)
Fixpoint collect (i : nat) (addresses : list string) (value : list (option Z))
    (result : gmap string float64) : gmap string float64 :=
  match addresses with
  | [] => result
  | address :: rest =>
      let solBalance :=
        match value !! i with
        | Some (Some lamports) => (float64_of_uint64 lamports / 1e9)%float
        | _ => 0%float
        end in
      collect (S i) rest value (<[address := solBalance]> result)
  end.

(** [s.getBalancesBatch(addresses)], the [n]-th batch request of the
    call if it gets that far.  The map is [None] where the code returns
    a nil map; the trace lists the batch requests issued, each with its
    keys and its timeout. *)
Definition getBalancesBatch (n : nat) (addresses : list string)
    : option (gmap string float64) * option error * list (list PublicKey * Duration) :=
  match parse_all addresses with
  | inl err => (None, Some err, [])
  | inr pubKeys =>
      let '(value, err) := rpc_GetMultipleAccounts (Timeout config) pubKeys n in
      let trace := [(pubKeys, Timeout config)] in
      match err with
      | Some err => (None, Some (Errorf_w "failed to get balances from RPC: " (Some err)), trace)
      | None => (Some (collect 0 addresses value ∅), None, trace)
      end
  end.

(** The chunk loop of [GetBalances], entered with the loop variable at
    [i].  Lengths and indices of a slice are far below the [int] range,
    so they are natural numbers here.  [None] says the loop was still
    running when the fuel ran out. *)
Fixpoint chunk_loop (fuel : nat) (addresses : list string) (i : nat)
    (result : gmap string float64) (trace : list (list PublicKey * Duration))
    : option (option (gmap string float64) * option error * list (list PublicKey * Duration)) :=
  if decide (i < length addresses)%nat then
    match fuel with
    | O => None
    | S fuel =>
        let chunkSize := 100%nat in
        let end_ := if decide (length addresses < i + chunkSize)%nat
                    then length addresses else (i + chunkSize)%nat in
        let chunk := take (end_ - i) (drop i addresses) in
        match getBalancesBatch (length trace) chunk with
        | (_, Some err, requests) =>
            Some (None,
                  Some (Errorf_w ("failed to get balances for chunk starting at "
                                    +:+ pretty (Z.of_nat i) +:+ ": ") (Some err)),
                  trace ++ requests)
        | (chunkBalances, None, requests) =>
            chunk_loop fuel addresses (i + chunkSize)
              (default ∅ chunkBalances ∪ result) (trace ++ requests)
        end
    end
  else Some (Some result, None, trace).

(** [s.GetBalances(addresses)] *)
Definition GetBalances (fuel : nat) (addresses : list string)
    : option (option (gmap string float64) * option error * list (list PublicKey * Duration)) :=
  if decide (length addresses = 0%nat) then Some (Some ∅, None, [])
  else if decide (length addresses <= 100)%nat then Some (getBalancesBatch 0 addresses)
  else chunk_loop fuel addresses 0 ∅ [].

End batch_client.

(** The time slept in all. *)
Definition total_sleep (trace : list event) : Duration := foldr Z.add 0 (sleeps trace).

End solana.

(* ===================================================================== *)
(** ** internal/models *)
(* ===================================================================== *)

Module models.

Record WalletBalance := {
  Address : string;
  Balance : float64;
  Error : string;
}.

Record BalanceResponse := {
  Balances : list WalletBalance;
  Cached : bool;
}.

(** The zero value of [WalletBalance]. *)
Definition zero : WalletBalance := {| Address := ""; Balance := 0%float; Error := "" |}.

End models.

(* ===================================================================== *)
(** ** internal/services: the balance service *)
(* ===================================================================== *)

Module services.

Import models.

(** The service and everything its lookups share: the cache, the lock
    registry and the collector it owns, the heap the registry's mutexes
    live on, and the log of the addresses [rpcClient.GetBalance] has been
    called with. *)
Record world := {
  bs_cache : cache.Cache;
  bs_requestMutex : mutex.RequestMutex;
  bs_metrics : metrics.MetricsCollector;
  sync_heap : heap;
  rpc_calls : list string;
}.

Definition with_cache (w : world) (c : cache.Cache) : world :=
  {| bs_cache := c; bs_requestMutex := bs_requestMutex w; bs_metrics := bs_metrics w;
     sync_heap := sync_heap w; rpc_calls := rpc_calls w |}.
Definition with_requestMutex (w : world) (rm : mutex.RequestMutex) (h : heap) : world :=
  {| bs_cache := bs_cache w; bs_requestMutex := rm; bs_metrics := bs_metrics w;
     sync_heap := h; rpc_calls := rpc_calls w |}.
Definition with_metrics (w : world) (mc : metrics.MetricsCollector) : world :=
  {| bs_cache := bs_cache w; bs_requestMutex := bs_requestMutex w; bs_metrics := mc;
     sync_heap := sync_heap w; rpc_calls := rpc_calls w |}.
Definition with_heap (w : world) (h : heap) : world :=
  {| bs_cache := bs_cache w; bs_requestMutex := bs_requestMutex w;
     bs_metrics := bs_metrics w; sync_heap := h; rpc_calls := rpc_calls w |}.
Definition with_rpc_calls (w : world) (l : list string) : world :=
  {| bs_cache := bs_cache w; bs_requestMutex := bs_requestMutex w;
     bs_metrics := bs_metrics w; sync_heap := sync_heap w; rpc_calls := l |}.

(** [NewBalanceService(rpcClient, cfg)], with [cfg.Cache.TTL] and
    [cfg.Cache.CleanupInterval]. *)
Definition NewBalanceService (TTL CleanupInterval : Duration) (now : Time) : world :=
  {| bs_cache := cache.New TTL; bs_requestMutex := mutex.New CleanupInterval;
     bs_metrics := metrics.NewMetricsCollector now; sync_heap := []; rpc_calls := [] |}.

(** The two [cleanup] goroutines the constructor has started, at their
    start: each creates its ticker. *)
Definition cleanup_start (w : world) : outcome unit :=
  _ ← cache.cleanup_start (bs_cache w);
  mutex.cleanup_start (bs_requestMutex w).

(** [bs.Stop()] *)
Definition Stop (w : world) : outcome world :=
  c ← cache.Stop (bs_cache w);
  rm ← mutex.Stop (bs_requestMutex w);
  Ok (with_requestMutex (with_cache w c) rm (sync_heap w)).

(** [bs.ClearCache()] *)
Definition ClearCache (w : world) : world := with_cache w (cache.Clear (bs_cache w)).

(** Where one call of [getBalanceWithCache] stands.  The call can be
    suspended at two points: waiting in [addressMutex.Lock()] and waiting
    in [bs.rpcClient.GetBalance(address)].  Between them it only performs
    operations that each run under the lock of the structure they touch
    ([cache.Get], the collector's counters, [GetMutex], [cache.Set],
    [Unlock]); the stretch from one suspension point to the next is taken
    as one step. *)
Inductive lookup : Type :=
  | AtEntry
  | AtLock (addressMutex : ptr) (mutexStartTime : Time)
  | AtRPC (addressMutex : ptr) (rpcStartTime : Time) (call : nat)
  | Returned (walletBalance : WalletBalance) (cached : bool).

Section service.

(** [bs.rpcClient]: the answer of [GetBalance(address)] to the call that
    is the [n]-th the service makes. *)
Variable rpcClient : string -> nat -> float64 * option error.

(** From the entry of [getBalanceWithCache] to [addressMutex.Lock()]. *)
Definition enter (now : Time) (address : string) (w : world) : lookup * world :=
  match cache.Get (bs_cache w) now address with
  | (cachedBalance, true) =>
      let w := with_metrics w (metrics.RecordCacheHit (bs_metrics w)) in
      (Returned {| Address := address; Balance := cachedBalance; Error := "" |} true, w)
  | (_, false) =>
      let w := with_metrics w (metrics.RecordCacheMiss (bs_metrics w)) in
      let mutexStartTime := now in
      let '(addressMutex, rm, h) :=
        mutex.GetMutex (bs_requestMutex w) now address (sync_heap w) in
      (AtLock addressMutex mutexStartTime, with_requestMutex w rm h)
  end.

(** The deferred [addressMutex.Unlock()]. *)
Definition release (addressMutex : ptr) (w : world) : outcome world :=
  h ← gort.Unlock addressMutex (sync_heap w);
  Ok (with_heap w h).

(** From [addressMutex.Lock()] to the call of [rpcClient.GetBalance], or
    to the return on a hit of the second cache check. *)
Definition locked (now : Time) (address : string) (addressMutex : ptr)
    (mutexStartTime : Time) (w : world) : outcome (lookup * world) :=
  h ← gort.Lock addressMutex (sync_heap w);
  let w := with_heap w h in
  let w := if Millisecond <? Since now mutexStartTime
           then with_metrics w (metrics.RecordMutexWait (bs_metrics w))
           else w in
  match cache.Get (bs_cache w) now address with
  | (cachedBalance, true) =>
      let w := with_metrics w (metrics.RecordCacheHit (bs_metrics w)) in
      w ← release addressMutex w;
      Ok (Returned {| Address := address; Balance := cachedBalance; Error := "" |} true, w)
  | (_, false) =>
      let rpcStartTime := now in
      let call := length (rpc_calls w) in
      Ok (AtRPC addressMutex rpcStartTime call,
          with_rpc_calls w (rpc_calls w ++ [address]))
  end.

(** From the return of [rpcClient.GetBalance] to the end. *)
Definition fetched (now : Time) (address : string) (addressMutex : ptr)
    (rpcStartTime : Time) (call : nat) (w : world) : outcome (lookup * world) :=
  let '(balance, err) := rpcClient address call in
  let rpcDuration := Since now rpcStartTime in
  let w := with_metrics w
             (metrics.RecordRPCCall (bs_metrics w) rpcDuration (bool_decide (err = None))) in
  match err with
  | Some err =>
      w ← release addressMutex w;
      Ok (Returned {| Address := address; Balance := 0%float;
                      Error := "Failed to fetch balance: " +:+ gort.Error err |} false, w)
  | None =>
      let w := with_cache w (cache.Set_ (bs_cache w) now address balance) in
      w ← release addressMutex w;
      Ok (Returned {| Address := address; Balance := balance; Error := "" |} false, w)
  end.

(** One stretch of [getBalanceWithCache], run without giving way. *)
Definition advance (now : Time) (address : string) (st : lookup) (w : world)
    : outcome (lookup * world) :=
  match st with
  | AtEntry => Ok (enter now address w)
  | AtLock m t => locked now address m t w
  | AtRPC m t call => fetched now address m t call w
  | Returned _ _ => Ok (st, w)
  end.

(** [bs.getBalanceWithCache(address)] as one caller sees it: [waiting]
    and [calling] are what the rest of the program does to the shared
    state while the call waits for the lock and for the upstream; [t1],
    [t2] and [t3] are the clock readings of the three stretches. *)
Definition getBalanceWithCache (t1 t2 t3 : Time) (waiting calling : world -> world)
    (address : string) (w : world) : outcome (WalletBalance * bool * world) :=
  match enter t1 address w with
  | (AtLock m t, w) =>
      '(st, w) ← locked t2 address m t (waiting w);
      match st with
      | AtRPC m t call =>
          '(st, w) ← fetched t3 address m t call (calling w);
          match st with
          | Returned walletBalance cached => Ok (walletBalance, cached, w)
          | _ => Blocked
          end
      | Returned walletBalance cached => Ok (walletBalance, cached, w)
      | _ => Blocked
      end
  | (Returned walletBalance cached, w) => Ok (walletBalance, cached, w)
  | (_, _) => Blocked
  end.
(* The branches that answer [Blocked] stand for positions no stretch ends
   in: [enter] ends at the lock or returned, [locked] at the upstream call
   or returned, [fetched] returned. *)

(** [bs.GetBalance(address)] *)
Definition GetBalance (t1 t2 t3 : Time) (waiting calling : world -> world)
    (address : string) (w : world) : outcome (WalletBalance * option error * world) :=
  '(walletBalance, _, w) ← getBalanceWithCache t1 t2 t3 waiting calling address w;
  Ok (walletBalance, None, w).

(** *** The batch

    [GetBalances] starts one goroutine per address; each runs
    [getBalanceWithCache], stores the result at its index and clears
    [allCached] when the result was not served from the cache. *)
Record batch := {
  balances : list WalletBalance;
  allCached : bool;
  goroutines : list (string * lookup);
}.

(** What the scheduler lets happen next: goroutine [index] runs its next
    stretch, or one of the two cleanup loops serves a tick.  A loop that
    has created its ticker serves ticks until its [select] takes the stop
    case; since the [select] can still take the ticker case after [Stop]
    has closed the channel, a schedule may hold ticks at any point,
    before and after [Stop]. *)
Inductive event : Type :=
  | Run (index : nat) (now : Time)
  | CacheTick (now : Time)
  | MutexTick (now : Time).

(** The body of the goroutine after [getBalanceWithCache] returned. *)
Definition store (index : nat) (walletBalance : WalletBalance) (cached : bool) (b : batch)
    : batch :=
  {| balances := <[index := walletBalance]> (balances b);
     allCached := if negb cached then false else allCached b;
     goroutines := goroutines b |}.

Definition with_goroutine (index : nat) (addr : string) (st : lookup) (b : batch) : batch :=
  {| balances := balances b; allCached := allCached b;
     goroutines := <[index := (addr, st)]> (goroutines b) |}.

(** The goroutine after a stretch of its lookup: it stands at [st], and
    stores the result once the lookup has returned. *)
Definition settle (index : nat) (addr : string) (st : lookup) (b : batch) : batch :=
  match st with
  | Returned walletBalance cached =>
      store index walletBalance cached (with_goroutine index addr st b)
  | _ => with_goroutine index addr st b
  end.

(** One scheduling step.  A goroutine that has finished, or whose next
    stretch is blocked, leaves the state as it is. *)
Definition step (ev : event) (s : batch * world) : outcome (batch * world) :=
  let '(b, w) := s in
  match ev with
  | Run index now =>
      match goroutines b !! index with
      | None => Ok (b, w)
      | Some (_, Returned _ _) => Ok (b, w)
      | Some (addr, st) =>
          match advance now addr st w with
          | Ok (st', w') => Ok (settle index addr st' b, w')
          | Blocked => Ok (b, w)
          | Panic m => Panic m
          | Fatal m => Fatal m
          end
      end
  | CacheTick now => Ok (b, with_cache w (cache.cleanup_tick (bs_cache w) now))
  | MutexTick now =>
      Ok (b, with_requestMutex w
               (mutex.cleanup_tick (bs_requestMutex w) now (sync_heap w)) (sync_heap w))
  end.

Fixpoint run (sched : list event) (s : batch * world) : outcome (batch * world) :=
  match sched with
  | [] => Ok s
  | ev :: sched => s ← step ev s; run sched s
  end.

Definition returned (g : string * lookup) : bool :=
  match g.2 with Returned _ _ => true | _ => false end.

(** [bs.GetBalances(addresses)] under the schedule [sched]; [start] and
    [finish] are the clock readings at entry and when the request is
    recorded as complete.
    [Blocked] says [wg.Wait()] has not returned by the end of [sched]. *)
Definition GetBalances (start finish : Time) (sched : list event) (addresses : list string)
    (w : world) : outcome (BalanceResponse * option error * world) :=
  let startTime := start in
  let w := with_metrics w (metrics.RecordRequest (bs_metrics w)) in
  if bool_decide (length addresses = 0%nat) then
    let w := with_metrics w
               (metrics.RecordRequestComplete (bs_metrics w) (Since finish startTime) true) in
    Ok ({| Balances := []; Cached := false |}, None, w)
  else
    let b := {| balances := replicate (length addresses) models.zero;
                allCached := true;
                goroutines := (fun addr => (addr, AtEntry)) <$> addresses |} in
    '(b, w) ← run sched (b, w);
    if forallb returned (goroutines b) then
      let success := forallb (fun balance => bool_decide (Error balance = "")) (balances b) in
      let w := with_metrics w
                 (metrics.RecordRequestComplete (bs_metrics w) (Since finish startTime) success) in
      Ok ({| Balances := balances b; Cached := allCached b |}, None, w)
    else Blocked.

(** *** What a result element may hold

    A balance is the key's own when it was in the cache for that key
    when the batch started ([data0]), or when the upstream answered a
    call for that key with it. *)
Definition own_value (data0 : gmap string cache.CacheEntry) (address : string)
    (v : float64) : Prop :=
  (exists e, data0 !! address = Some e /\ cache.Balance e = v) \/
  (exists n, rpcClient address n = (v, None)).

(** An element is populated for [address] when it carries the address
    and either no error and the key's own balance, or the balance 0 and
    the error of a failed upstream call for that same key. *)
Definition populated (data0 : gmap string cache.CacheEntry) (address : string)
    (wb : WalletBalance) : Prop :=
  (Address wb = address /\ Error wb = "" /\ own_value data0 address (Balance wb)) \/
  (exists n v e, rpcClient address n = (v, Some e) /\
     wb = {| Address := address; Balance := 0%float;
             Error := "Failed to fetch balance: " +:+ gort.Error e |}).

(** No lock of the registry is held. *)
Definition quiescent (w : world) : Prop :=
  forall k e, mutex.mutexes (bs_requestMutex w) !! k = Some e ->
              sync_heap w !! mutex.mutex_ e = Some false.

(** The goroutines inside the upstream call hold their locks, and no
    two of them hold the same one. *)
Definition locks_held (gs : list (string * lookup)) (h : heap) : Prop :=
  (forall i a m t c, gs !! i = Some (a, AtRPC m t c) -> h !! m = Some true) /\
  (forall i j a a' m t t' c c', i ≠ j ->
     gs !! i = Some (a, AtRPC m t c) -> gs !! j = Some (a', AtRPC m t' c') -> False).

(** The invariant of a running batch over [addresses]. *)
Record batch_inv (data0 : gmap string cache.CacheEntry) (addresses : list string)
    (s : batch * world) : Prop := {
  inv_length : length (balances s.1) = length addresses;
  inv_addresses : fst <$> goroutines s.1 = addresses;
  inv_results : forall i a wb c,
    goroutines s.1 !! i = Some (a, Returned wb c) ->
    balances s.1 !! i = Some wb /\ populated data0 a wb;
  inv_cache : forall k e,
    cache.data (bs_cache s.2) !! k = Some e -> own_value data0 k (cache.Balance e);
  inv_locks : locks_held (goroutines s.1) (sync_heap s.2);
}.

(** The schedule that runs the goroutines one after the other. *)
Definition one_by_one (n : nat) (now : Time) : list event :=
  flat_map (fun index => [Run index now; Run index now; Run index now]) (seq 0 n).

(** *** Which goroutines have called the upstream

    A goroutine has called the upstream once it is inside the call or
    has returned a result that did not come from the cache. *)
Definition fetching (g : string * lookup) : bool :=
  match g.2 with
  | AtRPC _ _ _ | Returned _ false => true
  | _ => false
  end.

Definition from_cache (g : string * lookup) : bool :=
  match g.2 with
  | Returned _ false => false
  | _ => true
  end.

(** The mutex a goroutine has taken from the registry: it waits for it
    at [AtLock] and holds it at [AtRPC]. *)
Definition addressMutex_of (st : lookup) : option ptr :=
  match st with
  | AtLock m _ | AtRPC m _ _ => Some m
  | _ => None
  end.

(** The goroutines' mutexes are the registry's: the registry is well
    formed, and the mutex a goroutine has taken for its address is the
    one the registry tracks for that address. *)
Definition keyed (s : batch * world) : Prop :=
  mutex.registry_wf (bs_requestMutex s.2) (sync_heap s.2) /\
  forall i a st m,
    goroutines s.1 !! i = Some (a, st) -> addressMutex_of st = Some m ->
    mutex.mutex_ <$> (mutex.mutexes (bs_requestMutex s.2) !! a) = Some m.

(** An event that is a sweep: a tick served by one of the two cleanup
    loops. *)
Definition is_sweep (ev : event) : bool :=
  match ev with
  | Run _ _ => false
  | _ => true
  end.

(** An event that is not a sweep of the registry. *)
Definition no_sweep (ev : event) : bool :=
  match ev with
  | MutexTick _ => false
  | _ => true
  end.

(** The calls of a running batch over [addresses], started when the call
    log was [calls0]: the log has grown by the addresses of the
    goroutines that have called, in some order, and [allCached] is still
    set exactly when no goroutine returned an uncached result. *)
Definition calls_inv (calls0 addresses : list string) (s : batch * world) : Prop :=
  (goroutines s.1).*1 = addresses /\
  allCached s.1 = forallb from_cache (goroutines s.1) /\
  exists l, rpc_calls s.2 = calls0 ++ l /\
            l ≡ₚ (filter (fun g => fetching g = true) (goroutines s.1)).*1.

End service.

End services.

(* ===================================================================== *)
(** ** internal/models: application errors *)
(* ===================================================================== *)

Module apperrors.

(** [type ErrorCode string] *)
Definition ErrorCode := string.

Definition ErrorCodeMissingAPIKey : ErrorCode := "MISSING_API_KEY".
Definition ErrorCodeInvalidAPIKey : ErrorCode := "INVALID_API_KEY".
Definition ErrorCodeInactiveAPIKey : ErrorCode := "INACTIVE_API_KEY".
Definition ErrorCodeRateLimitExceeded : ErrorCode := "RATE_LIMIT_EXCEEDED".
Definition ErrorCodeInvalidRequest : ErrorCode := "INVALID_REQUEST".
Definition ErrorCodeInvalidWallet : ErrorCode := "INVALID_WALLET_ADDRESS".
Definition ErrorCodeEmptyWalletArray : ErrorCode := "EMPTY_WALLET_ARRAY".
Definition ErrorCodeMalformedJSON : ErrorCode := "MALFORMED_JSON".
Definition ErrorCodeRPCUnavailable : ErrorCode := "RPC_UNAVAILABLE".
Definition ErrorCodeRPCTimeout : ErrorCode := "RPC_TIMEOUT".
Definition ErrorCodeInvalidRPCResponse : ErrorCode := "INVALID_RPC_RESPONSE".
Definition ErrorCodeDatabaseError : ErrorCode := "DATABASE_ERROR".
Definition ErrorCodeCacheError : ErrorCode := "CACHE_ERROR".
Definition ErrorCodeInternalError : ErrorCode := "INTERNAL_ERROR".

(** The status codes of [net/http] the package uses. *)
Definition StatusOK : Z := 200.
Definition StatusBadRequest : Z := 400.
Definition StatusUnauthorized : Z := 401.
Definition StatusTooManyRequests : Z := 429.
Definition StatusInternalServerError : Z := 500.
Definition StatusBadGateway : Z := 502.

(** One [case] of a [switch] over a string: the value is one of the
    listed ones. *)
Definition case_of (e : ErrorCode) (values : list ErrorCode) : bool :=
  existsb (String.eqb e) values.

(** [e.HTTPStatusCode()] *)
Definition HTTPStatusCode (e : ErrorCode) : Z :=
  if case_of e [ErrorCodeMissingAPIKey; ErrorCodeInvalidAPIKey; ErrorCodeInactiveAPIKey]
  then StatusUnauthorized
  else if case_of e [ErrorCodeRateLimitExceeded]
  then StatusTooManyRequests
  else if case_of e [ErrorCodeInvalidRequest; ErrorCodeInvalidWallet;
                     ErrorCodeEmptyWalletArray; ErrorCodeMalformedJSON]
  then StatusBadRequest
  else if case_of e [ErrorCodeRPCUnavailable; ErrorCodeRPCTimeout;
                     ErrorCodeInvalidRPCResponse]
  then StatusBadGateway
  else if case_of e [ErrorCodeDatabaseError; ErrorCodeCacheError; ErrorCodeInternalError]
  then StatusInternalServerError
  else StatusInternalServerError.

Record ErrorDetail := {
  Code : ErrorCode;
  Message : string;
  Details : string;
}.

(** [AppError]; its [Context] map only feeds the log and is left out. *)
Record AppError := {
  appCode : ErrorCode;
  appMessage : string;
  appDetails : string;
  Cause : option error;
  StatusCode : Z;
}.

(** [NewAppError(code, message)] *)
Definition NewAppError (code : ErrorCode) (message : string) : AppError :=
  {| appCode := code; appMessage := message; appDetails := ""; Cause := None;
     StatusCode := HTTPStatusCode code |}.

(** [NewAppErrorWithCause(code, message, cause)] *)
Definition NewAppErrorWithCause (code : ErrorCode) (message : string) (cause : error)
    : AppError :=
  {| appCode := code; appMessage := message; appDetails := ""; Cause := Some cause;
     StatusCode := HTTPStatusCode code |}.

(** [NewAppErrorWithDetails(code, message, details)] *)
Definition NewAppErrorWithDetails (code : ErrorCode) (message details : string) : AppError :=
  {| appCode := code; appMessage := message; appDetails := details; Cause := None;
     StatusCode := HTTPStatusCode code |}.

(** [HandleError(c, err, logger)]: the status and the error detail of
    the response it sends with [c.JSON].  The timestamp and the
    correlation id of the response body, and the log line, are left
    out. *)
Definition HandleError (err : AppError + error) : Z * ErrorDetail :=
  let appErr :=
    match err with
    | inl appError => appError
    | inr err => NewAppErrorWithCause ErrorCodeInternalError "Internal server error" err
    end in
  (StatusCode appErr,
   {| Code := appCode appErr; Message := appMessage appErr; Details := appDetails appErr |}).

End apperrors.

(* ===================================================================== *)
(** ** internal/handlers: the balance endpoint *)
(* ===================================================================== *)

Module handlers.

Import models apperrors.

(** The base58 alphabet. *)
Definition validChars : string :=
  "123456789ABCDEFGHJKLMNPQRSTUVWXYZabcdefghijkmnopqrstuvwxyz".

(** [isValidSolanaAddress(address)].  A string is its bytes, and
    [len(address)] counts them.  The loop ranges over the runes of
    [address]; a rune is in [validChars] only when it is one of its
    (one-byte) characters, so the loop passes exactly when every byte
    of [address] is a character of [validChars]. *)
Definition isValidSolanaAddress (address : string) : bool :=
  if (String.length address <? 32)%nat || (44 <? String.length address)%nat then false
  else forallb (fun char => existsb (Ascii.eqb char) (String.list_ascii_of_string validChars))
         (String.list_ascii_of_string address).

(** What the handler writes: a status and a JSON body. *)
Inductive body : Type :=
  | ErrorBody (e : ErrorDetail)
  | BalanceBody (r : BalanceResponse).

Section handler.

Variable rpcClient : string -> nat -> float64 * option error.

(** [h.GetBalance(c)]: [bind] is what [c.ShouldBindJSON(&req)] gave, the
    text of its error or the [Wallets] of the request; [start], [finish]
    and [sched] are the clock readings and the schedule of the service's
    batch. *)
Definition GetBalance (bind : string + list string) (start finish : Time)
    (sched : list services.event) (w : services.world)
    : outcome (Z * body * services.world) :=
  match bind with
  | inl err =>
      let appErr := NewAppErrorWithDetails ErrorCodeMalformedJSON "Invalid JSON format" err in
      let '(status, e) := HandleError (inl appErr) in
      Ok (status, ErrorBody e, w)
  | inr Wallets =>
      if bool_decide (length Wallets = 0%nat) then
        let appErr := NewAppErrorWithDetails ErrorCodeEmptyWalletArray
                        "Wallets array cannot be empty"
                        "At least one wallet address must be provided" in
        let '(status, e) := HandleError (inl appErr) in
        Ok (status, ErrorBody e, w)
      else
        match list_find (fun wallet => isValidSolanaAddress wallet = false) Wallets with
        | Some (i, wallet) =>
            let appErr := NewAppErrorWithDetails ErrorCodeInvalidWallet
                            "Invalid wallet address format"
                            ("Wallet address: " +:+ wallet) in
            let '(status, e) := HandleError (inl appErr) in
            Ok (status, ErrorBody e, w)
        | None =>
            '(response, err, w) ← services.GetBalances rpcClient start finish sched Wallets w;
            match err with
            | Some err =>
                let appErr := NewAppErrorWithCause ErrorCodeInternalError
                                "Failed to fetch balances" err in
                let '(status, e) := HandleError (inl appErr) in
                Ok (status, ErrorBody e, w)
            | None => Ok (StatusOK, BalanceBody response, w)
            end
        end
  end.

End handler.

End handlers.

(* ===================================================================== *)
(** ** Concrete states used in the examples below *)
(* ===================================================================== *)

Module examples.

(** A cache with TTL 10 holding one entry for ["a"], stored at time 100. *)
Definition cache_a : cache.Cache :=
  cache.Set_ (cache.New 10) 100 "a" 1.5%float.

(** A registry in which ["a"] is tracked and its lock is free: the state
    after [Lock("a")] and [Unlock("a")] on a new registry. *)
Definition registry_a : mutex.RequestMutex :=
  (mutex.GetMutex (mutex.New 3) 0 "a" []).1.2.

(** A collector whose request counter has reached the int64 maximum:
    a new collector after [2^63 - 1] recorded requests. *)
Definition collector_full : metrics.MetricsCollector :=
  metrics.record_all (replicate (Z.to_nat maxInt64) metrics.OpRecordRequest)
    (metrics.NewMetricsCollector 0).

(** The default RPC configuration of [config.LoadConfig]: three retries,
    one second of retry delay, thirty seconds of timeout. *)
Definition rpc_config : solana.RPCConfig :=
  {| solana.Endpoint := "https://rpc.example"; solana.Timeout := 30 * Second;
     solana.APIKey := ""; solana.MaxRetries := 3; solana.RetryDelay := 1 * Second;
     solana.ConnectionPoolSize := 10 |}.

(** Every address parses; every request fails. *)
Definition parse_any (address : string) : string * option error := (address, None).
Definition rpc_down (timeout : Duration) (pubKey : string) (attempt : Z)
    : option Z * option error :=
  (None, Some (errorString "connection refused")).

(** An upstream that knows the balance of ["a"] and fails for every
    other address. *)
Definition upstream (address : string) (n : nat) : float64 * option error :=
  if bool_decide (address = "a") then (2.5%float, None)
  else (0%float, Some (errorString "rpc unavailable")).

(** A service whose cache holds a live entry for ["a"] and whose
    registry tracks ["a"], last accessed at time 0. *)
Definition world_hot : services.world :=
  {| services.bs_cache := cache_a; services.bs_requestMutex := registry_a;
     services.bs_metrics := metrics.NewMetricsCollector 0;
     services.sync_heap := [false]; services.rpc_calls := [] |}.

(** The same service after [bs.Stop()]: both stop channels are closed
    and the registry is flagged stopped. *)
Definition world_stopped : services.world :=
  {| services.bs_cache :=
       {| cache.data := cache.data cache_a; cache.ttl := cache.ttl cache_a;
          cache.stopCh := {| closed := true |} |};
     services.bs_requestMutex :=
       {| mutex.mutexes := mutex.mutexes registry_a;
          mutex.cleanupTTL := mutex.cleanupTTL registry_a;
          mutex.stopCh := {| closed := true |}; mutex.stopped := true |};
     services.bs_metrics := metrics.NewMetricsCollector 0;
     services.sync_heap := [false]; services.rpc_calls := [] |}.

(** A new service. *)
Definition world_new : services.world := services.NewBalanceService 10 60 0.

(** A well-formed address: 32 characters of the base58 alphabet. *)
Definition system_program : string := "11111111111111111111111111111111".

(** A batch with no goroutine. *)
Definition batch_idle : services.batch :=
  {| services.balances := []; services.allCached := true; services.goroutines := [] |}.

(** What happens while a caller that missed on ["a"] waits for the lock:
    another caller completes the fetch and stores the value. *)
Definition other_caller_fetches (w : services.world) : services.world :=
  services.with_cache w (cache.Set_ (services.bs_cache w) 1 "a" 2.5%float).

(** The first two requests fail, the third answers 3.5 SOL. *)
Definition rpc_flaky (timeout : Duration) (pubKey : string) (attempt : Z)
    : option Z * option error :=
  if attempt <? 2 then (None, Some (errorString "timeout")) else (Some 3500000000, None).

(** An upstream that answers every request with a nil result and a nil
    error. *)
Definition rpc_null (timeout : Duration) (pubKey : string) (attempt : Z)
    : option Z * option error :=
  (None, None).

(** No address parses. *)
Definition parse_none (address : string) : string * option error :=
  ("", Some (errorString "decode: invalid base58 digit")).

(** Every address parses but ["bad"]. *)
Definition parse_strict (address : string) : string * option error :=
  if bool_decide (address = "bad")
  then ("", Some (errorString "decode: invalid base58 digit"))
  else (address, None).

(** The first account holds 1.5 SOL, the second does not exist, and the
    answer has no further slot. *)
Definition rpc_accounts (timeout : Duration) (keys : list string) (n : nat)
    : list (option Z) * option error :=
  ([Some 1500000000; None], None).

End examples.

(* ===================================================================== *)
(** * Properties *)
(* ===================================================================== *)

(** ** Runtime facts *)

Lemma wrap64_id z : is_int64 z -> wrap64 z = z.
Proof.
  unfold is_int64, wrap64, minInt64, maxInt64. intros Hz.
  rewrite Z.mod_small by lia. lia.
Qed.

Lemma wrap64_range z : is_int64 (wrap64 z).
Proof.
  unfold is_int64, wrap64, minInt64, maxInt64.
  pose proof (Z.mod_pos_bound (z + 2 ^ 63) (2 ^ 64)) as Hb. lia.
Qed.

(** On clock readings [Sub] is plain subtraction: it never saturates. *)
Lemma Sub_clock t u : clock_reading t -> clock_reading u -> Sub t u = t - u.
Proof.
  unfold clock_reading, Sub, maxInt64, minInt64. intros Ht Hu.
  destruct (Z.ltb_spec (2 ^ 63 - 1) (t - u)); [lia |].
  destruct (Z.ltb_spec (t - u) (- 2 ^ 63)); [lia | reflexivity].
Qed.

(** [TryLock] followed by [Unlock] gives the heap back. *)
Lemma TryLock_Unlock m h h' :
  TryLock m h = (true, h') -> gort.Unlock m h' = Ok h.
Proof.
  unfold TryLock, gort.Unlock. destruct (h !! m) as [[|]|] eqn:Hm; intros [= <-].
  assert (m < length h)%nat by (eapply lookup_lt_Some; eauto).
  rewrite list_lookup_insert_eq by done.
  by rewrite list_insert_insert_eq, list_insert_id.
Qed.

Lemma Lock_Unlock m h h' :
  gort.Lock m h = Ok h' -> gort.Unlock m h' = Ok h.
Proof.
  unfold gort.Lock, gort.Unlock. destruct (h !! m) as [[|]|] eqn:Hm; intros [= <-].
  assert (m < length h)%nat by (eapply lookup_lt_Some; eauto).
  rewrite list_lookup_insert_eq by done.
  by rewrite list_insert_insert_eq, list_insert_id.
Qed.

(** ** The TTL cache *)

Section cache_properties.

Import cache.

Lemma Get_hit c now key v :
  Get c now key = (v, true) <->
  exists e, data c !! key = Some e /\ Balance e = v /\ Since now (Timestamp e) <= ttl c.
Proof.
  unfold Get. destruct (data c !! key) as [e|] eqn:He.
  - destruct (Z.ltb_spec (ttl c) (Since now (Timestamp e))); split.
    + intros [=].
    + intros (e' & [= <-] & _ & ?). lia.
    + intros [= <-]. eauto.
    + intros (e' & [= <-] & <- & _). reflexivity.
  - split; [intros [=] | intros (e' & [=] & _)].
Qed.

Lemma Get_miss c now key :
  (Get c now key).2 = false <->
  data c !! key = None \/
  exists e, data c !! key = Some e /\ ttl c < Since now (Timestamp e).
Proof.
  unfold Get. destruct (data c !! key) as [e|] eqn:He.
  - destruct (Z.ltb_spec (ttl c) (Since now (Timestamp e))); simpl; split.
    + intros _. right. eauto.
    + done.
    + intros [=].
    + intros [[=] | (e' & [= <-] & ?)]. lia.
  - simpl. split; eauto.
Qed.

Lemma Get_miss_zero c now key : (Get c now key).2 = false -> (Get c now key).1 = 0%float.
Proof.
  unfold Get. destruct (data c !! key) as [e|]; [|done].
  by destruct (ttl c <? Since now (Timestamp e)).
Qed.

Lemma removeExpired_lookup c now key :
  data (removeExpired c now) !! key =
  match data c !! key with
  | Some e => if ttl c <? Sub now (Timestamp e) then None else Some e
  | None => None
  end.
Proof.
  unfold removeExpired; simpl. rewrite map_lookup_filter.
  destruct (data c !! key) as [e|]; simpl; [|done].
  destruct (Z.ltb_spec (ttl c) (Sub now (Timestamp e))).
  - rewrite option_guard_False; [done | simpl; tauto].
  - rewrite option_guard_True; [done | simpl; lia].
Qed.

(** Every cache the operations can build is [stamped], as long as the
    clock hands [Set] a reading. *)
Lemma stamped_New d : stamped (New d).
Proof. intros k e. unfold New; simpl. by rewrite lookup_empty. Qed.

Lemma stamped_Set c now key balance :
  clock_reading now -> stamped c -> stamped (Set_ c now key balance).
Proof.
  intros Hnow Hc k e. unfold Set_; simpl.
  intros [[_ <-] | [_ Hk]]%lookup_insert_Some; [done | by eapply Hc].
Qed.

Lemma stamped_Delete c key : stamped c -> stamped (Delete c key).
Proof.
  intros Hc k e. unfold Delete; simpl.
  intros [_ Hk]%lookup_delete_Some. by eapply Hc.
Qed.

Lemma stamped_Clear c : stamped (Clear c).
Proof. intros k e. unfold Clear; simpl. by rewrite lookup_empty. Qed.

Lemma stamped_removeExpired c now : stamped c -> stamped (removeExpired c now).
Proof.
  intros Hc k e. rewrite removeExpired_lookup.
  destruct (data c !! k) as [e'|] eqn:He'; [|done].
  destruct (ttl c <? Sub now (Timestamp e')); [done |].
  intros [= <-]. by eapply Hc.
Qed.

(** C2. For every key and every time of reading, [Get] returns
    [(value, true)] exactly when an entry for the key is present and
    [now - insertedAt <= ttl]; it returns [found = false] (and the value
    0) when the key is absent or when [now - insertedAt > ttl]. *)
Theorem Get_found_iff_live (c : Cache) (now : Time) (key : string) :
  stamped c -> clock_reading now ->
  (forall v, Get c now key = (v, true) <->
     exists e, data c !! key = Some e /\ Balance e = v /\ now - Timestamp e <= ttl c) /\
  ((Get c now key).2 = false <->
     data c !! key = None \/
     exists e, data c !! key = Some e /\ now - Timestamp e > ttl c) /\
  ((Get c now key).2 = false -> (Get c now key).1 = 0%float).
Proof.
  intros Hst Hnow. split; [|split].
  - intros v. rewrite Get_hit. split; intros (e & He & Hv & Hage); exists e;
      (split; [done | split; [done |]]);
      unfold Since in *; rewrite Sub_clock in * by eauto; done.
  - rewrite Get_miss. split; (intros [Hn | (e & He & Hage)]; [by left | right; exists e]);
      (split; [done |]); unfold Since in *; rewrite Sub_clock in * by eauto; lia.
  - apply Get_miss_zero.
Qed.

(** C8. The read-time expiry check and the sweep's removal check are the
    same comparison: at every observation time, [Get] finds a key
    exactly when [removeExpired] run at that time keeps its entry, and
    for an entry that is present [Get] reports it expired exactly when
    its age exceeds the TTL, which is exactly when [removeExpired]
    deletes it. *)
Theorem Get_agrees_with_removeExpired (c : Cache) (now : Time) (key : string) :
  ((Get c now key).2 = true <-> is_Some (data (removeExpired c now) !! key)) /\
  (forall e, data c !! key = Some e ->
     ((Get c now key).2 = false <-> ttl c < Sub now (Timestamp e)) /\
     (ttl c < Sub now (Timestamp e) <-> data (removeExpired c now) !! key = None)).
Proof.
  rewrite removeExpired_lookup. unfold Get, Since.
  destruct (data c !! key) as [e|] eqn:He.
  - destruct (Z.ltb_spec (ttl c) (Sub now (Timestamp e))); simpl.
    + split; [split; [done | by intros [? [=]]] |].
      intros e' [= <-]. by rewrite <- Z.ltb_lt, (proj2 (Z.ltb_lt _ _)).
    + split; [split; eauto |].
      intros e' [= <-]. split; split; try done; lia.
  - simpl. split; [split; [done | by intros [? [=]]] | intros e' [=]].
Qed.

End cache_properties.

(** A cache whose single entry was stamped by the clock. *)
Lemma cache_a_stamped : cache.stamped examples.cache_a.
Proof.
  intros k e. unfold examples.cache_a, cache.Set_; simpl.
  intros [[_ <-] | [_ Hk]]%lookup_insert_Some; [|done].
  unfold clock_reading, maxInt64; simpl. lia.
Qed.

(** Witness of C2: the entry of ["a"], stored at 100 with TTL 10, is
    found at time 105. *)
Lemma Get_found_iff_live_witness :
  cache.Get examples.cache_a 105 "a" = (1.5%float, true).
Proof.
  apply (proj1 (Get_found_iff_live examples.cache_a 105 "a" cache_a_stamped
                  ltac:(unfold clock_reading, maxInt64; lia))).
  exists {| cache.Balance := 1.5%float; cache.Timestamp := 100 |}.
  split; [reflexivity | split; [reflexivity | simpl; lia]].
Defined.

(** ** The keyed coalescing lock *)

Section mutex_properties.

Import mutex.

Lemma GetMutex_untracked rm now address h :
  mutexes rm !! address = None ->
  GetMutex rm now address h =
    (length h,
     with_mutexes rm (<[address := {| mutex_ := length h; lastAccess := now |}]> (mutexes rm)),
     h ++ [false]).
Proof. intros Hn. unfold GetMutex. by rewrite Hn. Qed.

Lemma GetMutex_tracked rm now address h entry :
  mutexes rm !! address = Some entry ->
  GetMutex rm now address h = (mutex_ entry, touch rm now address entry, h).
Proof. intros Hs. unfold GetMutex. by rewrite Hs. Qed.

(** Whatever the registry held, [GetMutex] leaves the key tracked with
    its last access set to the time of the call. *)
Lemma GetMutex_lastAccess rm now address h :
  lastAccess <$> (mutexes (GetMutex rm now address h).1.2 !! address) = Some now.
Proof.
  destruct (mutexes rm !! address) as [entry|] eqn:He.
  - rewrite (GetMutex_tracked _ _ _ _ _ He). simpl. by rewrite lookup_insert_eq.
  - rewrite (GetMutex_untracked _ _ _ _ He). simpl. by rewrite lookup_insert_eq.
Qed.

(** C5, as the code has it. For every key that is not tracked by the
    registry, [Unlock] is a safe no-op: it returns normally and leaves
    the heap of mutexes as it was (it never writes the registry), and a
    later [Lock] of the same key creates a fresh entry, acquires its
    mutex, and can be released by [Unlock]. *)
Theorem Unlock_untracked_is_noop (rm : RequestMutex) (address : string) (h : heap)
    (now : Time) :
  mutexes rm !! address = None ->
  Unlock rm address h = Ok h /\
  exists rm', Lock rm now address h = Ok (rm', h ++ [true]) /\
    mutexes rm' !! address = Some {| mutex_ := length h; lastAccess := now |} /\
    Unlock rm' address (h ++ [true]) = Ok (h ++ [false]).
Proof.
  intros Hn. split.
  - unfold Unlock. by rewrite Hn.
  - unfold Lock. rewrite (GetMutex_untracked _ _ _ _ Hn).
    assert (Hfree : (h ++ [false]) !! length h = Some false)
      by (rewrite lookup_app_r, Nat.sub_diag by lia; done).
    assert (Hins : forall b, <[length h := b]> (h ++ [false]) = h ++ [b]).
    { intros b. rewrite insert_app_r_alt, Nat.sub_diag by lia. done. }
    eexists. split; [|split].
    + unfold gort.Lock. rewrite Hfree. simpl. by rewrite Hins.
    + simpl. by rewrite lookup_insert_eq.
    + unfold Unlock. simpl. rewrite lookup_insert_eq. simpl.
      unfold gort.Unlock. rewrite lookup_app_r, Nat.sub_diag by lia. simpl.
      by rewrite insert_app_r_alt, Nat.sub_diag by lia.
Qed.

(** Witness of C5: on a new registry, ["a"] is untracked. *)
Lemma Unlock_untracked_is_noop_witness :
  Unlock (New 3) "a" [] = Ok [] /\
  exists rm', Lock (New 3) 7 "a" [] = Ok (rm', [true]) /\
    mutexes rm' !! "a" = Some {| mutex_ := 0; lastAccess := 7 |} /\
    Unlock rm' "a" [true] = Ok [false].
Proof. apply (Unlock_untracked_is_noop (New 3) "a" [] 7). reflexivity. Defined.

(** Counterexample to C5 as stated: after [Lock("a")] and [Unlock("a")]
    the key is tracked and its lock is not held; one more [Unlock("a")]
    reaches [sync.Mutex.Unlock] on an unlocked mutex, a fatal error. *)
Lemma Unlock_tracked_unheld_is_fatal :
  Lock (New 3) 0 "a" [] = Ok (examples.registry_a, [true]) /\
  Unlock examples.registry_a "a" [true] = Ok [false] /\
  mutex_ <$> (mutexes examples.registry_a !! "a") = Some 0%nat /\
  [false] !! 0%nat = Some false /\
  Unlock examples.registry_a "a" [false] = Fatal "sync: unlock of unlocked mutex".
Proof. repeat split; reflexivity. Qed.

(** [RequestMutex.Stop] guards the close with its [stopped] flag: a
    second call returns normally and changes nothing. *)
Lemma mutex_Stop_idempotent rm rm' :
  Stop rm = Ok rm' -> Stop rm' = Ok rm'.
Proof.
  unfold Stop. destruct (stopped rm) eqn:Hs; simpl.
  - intros [= <-]. by rewrite Hs.
  - destruct (close (stopCh rm)); simpl; intros [= <-]. done.
Qed.

End mutex_properties.

(** ** The metrics collector *)

Section metrics_properties.

Import metrics.

(** An atomic increment below the int64 maximum does not wrap. *)
Lemma AddInt64_1_le x : x < maxInt64 -> x <= AddInt64 x 1.
Proof.
  intros Hx. unfold AddInt64.
  destruct (Z_le_gt_dec minInt64 x) as [Hlo | Hlo].
  - rewrite wrap64_id by (unfold is_int64; lia). lia.
  - pose proof (wrap64_range (x + 1)) as Hr. unfold is_int64 in Hr. lia.
Qed.

Lemma AddInt64_1_exact x : 0 <= x < maxInt64 -> AddInt64 x 1 = x + 1.
Proof.
  intros Hx. unfold AddInt64. apply wrap64_id.
  unfold is_int64, minInt64, maxInt64 in *. lia.
Qed.

(** [n] recorded requests on a collector whose request counter has room
    for them raise the counter by [n]. *)
Lemma RecordRequest_repeated (n : nat) : forall mc,
  0 <= TotalRequests (metrics_ mc) ->
  TotalRequests (metrics_ mc) + Z.of_nat n <= maxInt64 ->
  TotalRequests (metrics_ (record_all (replicate n OpRecordRequest) mc))
    = TotalRequests (metrics_ mc) + Z.of_nat n.
Proof.
  induction n as [|n IH]; intros mc Hlo Hhi.
  - simpl. lia.
  - change (record_all (replicate (S n) OpRecordRequest) mc)
      with (record_all (replicate n OpRecordRequest) (RecordRequest mc)).
    assert (TotalRequests (metrics_ (RecordRequest mc)) = TotalRequests (metrics_ mc) + 1)
      as Hstep by (simpl; apply AddInt64_1_exact; lia).
    rewrite IH; rewrite Hstep; lia.
Qed.

(** C9, as the code has it. Under every recording operation, and
    whatever the other counters hold, each of the seven counters that is
    below the int64 maximum (where the atomic increment wraps around) is
    non-decreasing: it stays as it is or grows.  [Reset] sets all seven
    to zero, from every state. *)
Theorem counters_monotone_below_max (op : recording) (mc : MetricsCollector) (now : Time) :
  Forall2 (fun c c' => c < maxInt64 -> c <= c') (counters mc) (counters (record op mc)) /\
  counters (Reset mc now) = [0; 0; 0; 0; 0; 0; 0].
Proof.
  split; [|reflexivity].
  unfold counters.
  destruct op as [ | d [|] | | | d [|] | ]; simpl;
    repeat (apply Forall2_cons; split);
    try apply Forall2_nil_2; try apply AddInt64_1_le; intros; apply Z.le_refl.
Qed.

(** C9 on a collector whose request counter is saturated: the theorem
    still speaks of the six other counters, and of [Reset]. *)
Lemma counters_monotone_below_max_witness :
  Forall2 (fun c c' => c < maxInt64 -> c <= c')
    (counters examples.collector_full)
    (counters (record OpRecordRequest examples.collector_full)) /\
  counters (Reset examples.collector_full 9) = [0; 0; 0; 0; 0; 0; 0].
Proof.
  apply (counters_monotone_below_max OpRecordRequest examples.collector_full 9).
Defined.

(** Counterexample to C9 as stated: after [2^63 - 1] recorded requests
    on a new collector the request counter is at the int64 maximum, and
    the next [RecordRequest] wraps it around to the int64 minimum. *)
Lemma RecordRequest_wraps_at_max :
  examples.collector_full
    = record_all (replicate (Z.to_nat maxInt64) OpRecordRequest) (NewMetricsCollector 0) /\
  TotalRequests (metrics_ examples.collector_full) = 9223372036854775807 /\
  TotalRequests (metrics_ (RecordRequest examples.collector_full)) = -9223372036854775808 /\
  TotalRequests (metrics_ (RecordRequest examples.collector_full))
    < TotalRequests (metrics_ examples.collector_full).
Proof.
  split; [reflexivity |].
  assert (TotalRequests (metrics_ examples.collector_full) = maxInt64) as Hfull.
  { unfold examples.collector_full.
    assert (0 <= maxInt64) as Hpos by (unfold maxInt64; lia).
    pose proof (Z2Nat.id maxInt64 Hpos) as Hn.
    generalize dependent (Z.to_nat maxInt64). intros n Hn.
    rewrite RecordRequest_repeated; simpl; lia. }
  assert (TotalRequests (metrics_ (RecordRequest examples.collector_full)) = minInt64)
    as Hwrap.
  { change (TotalRequests (metrics_ (RecordRequest examples.collector_full)))
      with (AddInt64 (TotalRequests (metrics_ examples.collector_full)) 1).
    rewrite Hfull. reflexivity. }
  rewrite Hwrap, Hfull. unfold minInt64, maxInt64. repeat split; lia.
Qed.

End metrics_properties.

(** ** The upstream client *)

Section solana_properties.

Import solana.

Section retry_budget.

Context {PublicKey : Type}.
Variable PublicKeyFromBase58 : string -> PublicKey * option error.
Variable rpc_GetBalance : Duration -> PublicKey -> Z -> option Z * option error.
Variable config : RPCConfig.
Variable pubKey : PublicKey.

(** The failure of each request. *)
Variable failure : Z -> error.

Hypothesis retries_fit : 0 <= MaxRetries config < maxInt64.
Hypothesis all_fail : forall k, 0 <= k <= MaxRetries config ->
  (rpc_GetBalance (Timeout config) pubKey k).2 = Some (failure k).

Local Abbreviation exhausted lastErr :=
  (Errorf_w ("failed to get balance from RPC after "
               +:+ pretty (wrap64 (MaxRetries config + 1)) +:+ " attempts: ") lastErr).

(** The loop entered at [attempt] with every remaining request failing:
    it issues the remaining requests, each under the configured timeout,
    sleeps [RetryDelay * (k + 1)] after request [k] unless it was the
    last, and ends with the value 0 and the last failure wrapped. *)
Lemma retry_exhausted (n : nat) : forall attempt lastErr trace,
  0 <= attempt ->
  attempt + Z.of_nat n = MaxRetries config + 1 ->
  exists trace',
    retry rpc_GetBalance config n pubKey attempt lastErr trace
      = Some (Ok (0%float,
                  Some (exhausted (match n with
                                   | O => lastErr
                                   | S _ => Some (failure (MaxRetries config))
                                   end))),
              trace') /\
    attempts trace' =
      attempts trace ++ ((fun k => (k, Timeout config)) <$> seqZ attempt (Z.of_nat n)) /\
    sleeps trace' =
      sleeps trace ++
      ((fun k => wrap64 (RetryDelay config * (k + 1))) <$> seqZ attempt (Z.of_nat n - 1)).
Proof.
  induction n as [|n IH]; intros attempt lastErr trace Hlo Hsum.
  - exists trace. cbn [retry]. destruct (Z.leb_spec attempt (MaxRetries config)); [lia |].
    rewrite !seqZ_nil by lia. by rewrite !app_nil_r.
  - cbn [retry]. destruct (Z.leb_spec attempt (MaxRetries config)); [|lia].
    pose proof (all_fail attempt ltac:(lia)) as Hfail.
    destruct (rpc_GetBalance (Timeout config) pubKey attempt) as [v err].
    simpl in Hfail. subst err.
    assert (wrap64 (attempt + 1) = attempt + 1) as Hw
      by (apply wrap64_id; unfold is_int64, minInt64, maxInt64 in *; lia).
    rewrite Hw.
    edestruct (IH (attempt + 1) (Some (failure attempt))) as (trace' & -> & Hatt & Hsl);
      [lia | lia |].
    exists trace'. split; [|split].
    + destruct n; [|done]. by assert (attempt = MaxRetries config) as -> by lia.
    + rewrite Hatt. rewrite (seqZ_cons attempt (Z.of_nat (S n))) by lia.
      replace (Z.pred (Z.of_nat (S n))) with (Z.of_nat n) by lia.
      unfold attempts at 1.
      destruct (attempt <? MaxRetries config); rewrite ?omap_app; simpl;
        rewrite ?app_nil_r, <- ?app_assoc; done.
    + rewrite Hsl. destruct (Z.ltb_spec attempt (MaxRetries config)).
      * rewrite (seqZ_cons attempt (Z.of_nat (S n) - 1)) by lia.
        replace (Z.pred (Z.of_nat (S n) - 1)) with (Z.of_nat n - 1) by lia.
        unfold sleeps at 1. rewrite !omap_app. simpl.
        rewrite app_nil_r, <- app_assoc. done.
      * rewrite !seqZ_nil by lia. unfold sleeps at 1. rewrite omap_app. simpl.
        by rewrite !app_nil_r.
Qed.

(** [GetBalance] on an address that parses, every request failing: with
    fuel for [MaxRetries + 1] iterations the call returns the value 0 and
    an error wrapping the failure of the last request, after exactly
    [MaxRetries + 1] requests, each under the configured timeout; the
    delay slept after request [k] is [RetryDelay * (k + 1)]. *)
Lemma GetBalance_exhausted address :
  PublicKeyFromBase58 address = (pubKey, None) ->
  exists err trace,
    GetBalance PublicKeyFromBase58 rpc_GetBalance config
      (S (Z.to_nat (MaxRetries config))) address = Some (Ok (0%float, Some err), trace) /\
    Unwrap err = Some (failure (MaxRetries config)) /\
    attempts trace = (fun k => (k, Timeout config)) <$> seqZ 0 (MaxRetries config + 1) /\
    sleeps trace =
      (fun k => wrap64 (RetryDelay config * (k + 1))) <$> seqZ 0 (MaxRetries config).
Proof.
  intros Hparse. unfold GetBalance. rewrite Hparse.
  destruct (retry_exhausted (S (Z.to_nat (MaxRetries config))) 0 None [])
    as (trace & -> & Hatt & Hsl); [lia | lia |].
  eexists _, trace. split; [reflexivity |]. split; [reflexivity |].
  rewrite Hatt, Hsl. simpl. split; do 2 f_equal; lia.
Qed.

End retry_budget.

(** C4 at the default configuration, every request failing: four
    requests are issued, each under the 30 s timeout, and the call ends
    with the value 0 and an error wrapping the last failure; the delays
    slept between the requests are 1 s, 2 s and 3 s, which grow linearly
    and not exponentially. *)
Theorem GetBalance_backoff_is_linear :
  exists err trace,
    GetBalance examples.parse_any examples.rpc_down examples.rpc_config 4 "wallet"
      = Some (Ok (0%float, Some err), trace) /\
    Unwrap err = Some (errorString "connection refused") /\
    attempts trace = [(0, 30 * Second); (1, 30 * Second); (2, 30 * Second); (3, 30 * Second)] /\
    sleeps trace = [1 * Second; 2 * Second; 3 * Second] /\
    ~ exponential (sleeps trace).
Proof.
  eexists _, _. split; [vm_compute; reflexivity |].
  split; [reflexivity |]. split; [reflexivity |]. split; [reflexivity |].
  intros Hexp. specialize (Hexp 0%nat _ _ _ eq_refl eq_refl eq_refl).
  vm_compute in Hexp. destruct Hexp as [_ [=]].
Qed.

End solana_properties.

(** ** The balance service *)

Section service_properties.

Import models services.

Variable rpcClient : string -> nat -> float64 * option error.

(** C6 on a new service: the first [Stop] returns normally; the second
    panics in [Cache.Stop], which closes its channel again, before
    [RequestMutex.Stop] is reached. *)
Theorem Stop_twice_panics (TTL CleanupInterval : Duration) (now : Time) :
  (exists w, Stop (NewBalanceService TTL CleanupInterval now) = Ok w /\
             closed (cache.stopCh (bs_cache w)) = true /\
             mutex.stopped (bs_requestMutex w) = true) /\
  (Stop (NewBalanceService TTL CleanupInterval now) ≫= Stop)
    = Panic "close of closed channel".
Proof. split; [eexists; split; [reflexivity | split; reflexivity] | reflexivity]. Qed.

(** C10. [GetBalances] on an empty list returns an empty result slice, a
    nil error and [Cached = false], whatever the schedule, and leaves the
    cache, the lock registry, the mutex heap and the log of upstream
    calls as they were. *)
Theorem GetBalances_empty (start finish : Time) (sched : list event) (w : world) :
  exists w',
    GetBalances rpcClient start finish sched [] w
      = Ok ({| Balances := []; Cached := false |}, None, w') /\
    bs_cache w' = bs_cache w /\
    bs_requestMutex w' = bs_requestMutex w /\
    sync_heap w' = sync_heap w /\
    rpc_calls w' = rpc_calls w.
Proof. eexists. split; [reflexivity |]. by repeat split. Qed.

(** *** The stretches of one lookup *)

Lemma enter_hit now address w v :
  cache.Get (bs_cache w) now address = (v, true) ->
  enter now address w =
    (Returned {| Address := address; Balance := v; Error := "" |} true,
     with_metrics w (metrics.RecordCacheHit (bs_metrics w))).
Proof. intros Hg. unfold enter. by rewrite Hg. Qed.

Lemma enter_miss now address w :
  (cache.Get (bs_cache w) now address).2 = false ->
  enter now address w =
    (let w1 := with_metrics w (metrics.RecordCacheMiss (bs_metrics w)) in
     let r := mutex.GetMutex (bs_requestMutex w) now address (sync_heap w) in
     (AtLock r.1.1 now, with_requestMutex w1 r.1.2 r.2)).
Proof.
  intros Hg. unfold enter.
  destruct (cache.Get (bs_cache w) now address) as [v [|]]; [done |]. simpl.
  by destruct (mutex.GetMutex _ _ _ _) as [[m rm] h].
Qed.

Lemma enter_cases now address w :
  (exists v, cache.Get (bs_cache w) now address = (v, true)) \/
  (cache.Get (bs_cache w) now address).2 = false.
Proof. destruct (cache.Get (bs_cache w) now address) as [v [|]]; eauto. Qed.

(** The first stretch never calls the upstream and never touches the
    cache. *)
Lemma enter_rpc_calls now address w :
  rpc_calls (enter now address w).2 = rpc_calls w /\
  bs_cache (enter now address w).2 = bs_cache w.
Proof.
  destruct (enter_cases now address w) as [[v Hv] | Hm].
  - by rewrite (enter_hit _ _ _ _ Hv).
  - by rewrite (enter_miss _ _ _ Hm).
Qed.

(** The first stretch ends at the lock exactly when the first cache
    check misses. *)
Lemma enter_AtLock now address w m t w1 :
  enter now address w = (AtLock m t, w1) ->
  (cache.Get (bs_cache w) now address).2 = false.
Proof.
  destruct (enter_cases now address w) as [[v Hv] | Hm]; [|done].
  by rewrite (enter_hit _ _ _ _ Hv).
Qed.

(** The second stretch on a free lock, second check hitting: the cached
    value is returned, and only the collector has changed. *)
Lemma locked_hit now address m t w v :
  sync_heap w !! m = Some false ->
  cache.Get (bs_cache w) now address = (v, true) ->
  exists w',
    locked now address m t w
      = Ok (Returned {| Address := address; Balance := v; Error := "" |} true, w') /\
    bs_cache w' = bs_cache w /\ bs_requestMutex w' = bs_requestMutex w /\
    sync_heap w' = sync_heap w /\ rpc_calls w' = rpc_calls w.
Proof.
  intros Hm Hg. unfold locked, gort.Lock. rewrite Hm. simpl.
  pose proof (lookup_lt_Some _ _ _ Hm) as Hlt.
  destruct (Millisecond <? Since now t); simpl; rewrite Hg;
    unfold release, gort.Unlock; simpl;
    rewrite list_lookup_insert_eq by done; simpl;
    rewrite list_insert_insert_eq, (list_insert_id _ _ _ Hm);
    eexists; (split; [reflexivity |]); by repeat split.
Qed.

(** The second stretch on a free lock, second check missing: the lock is
    kept and the upstream is called. *)
Lemma locked_miss now address m t w :
  sync_heap w !! m = Some false ->
  (cache.Get (bs_cache w) now address).2 = false ->
  exists w',
    locked now address m t w = Ok (AtRPC m now (length (rpc_calls w)), w') /\
    bs_cache w' = bs_cache w /\ bs_requestMutex w' = bs_requestMutex w /\
    sync_heap w' = <[m := true]> (sync_heap w) /\
    rpc_calls w' = rpc_calls w ++ [address].
Proof.
  intros Hm Hg. unfold locked, gort.Lock. rewrite Hm. simpl.
  destruct (Millisecond <? Since now t); simpl;
    (destruct (cache.Get (bs_cache w) now address) as [v [|]]; [done |]);
    eexists; (split; [reflexivity |]); by repeat split.
Qed.

Lemma locked_held now address m t w :
  sync_heap w !! m ≠ Some false -> locked now address m t w = Blocked.
Proof.
  intros Hm. unfold locked, gort.Lock.
  by destruct (sync_heap w !! m) as [[|]|].
Qed.

(** The second stretch calls the upstream exactly when the second cache
    check misses. *)
Lemma locked_rpc_calls now address m t w st w' :
  locked now address m t w = Ok (st, w') ->
  rpc_calls w' =
    rpc_calls w ++ (if (cache.Get (bs_cache w) now address).2 then [] else [address]).
Proof.
  destruct (decide (sync_heap w !! m = Some false)) as [Hm | Hm].
  - destruct (enter_cases now address w) as [[v Hv] | Hmiss].
    + destruct (locked_hit _ _ _ t _ _ Hm Hv) as (w2 & -> & _ & _ & _ & Hr).
      intros [= <- <-]. by rewrite Hv, app_nil_r.
    + destruct (locked_miss _ _ _ t _ Hm Hmiss) as (w2 & -> & _ & _ & _ & Hr).
      intros [= <- <-]. by rewrite Hmiss.
  - by rewrite (locked_held _ _ _ _ _ Hm).
Qed.

(** The third stretch makes no further call. *)
Lemma fetched_rpc_calls now address m t call w st w' :
  fetched rpcClient now address m t call w = Ok (st, w') -> rpc_calls w' = rpc_calls w.
Proof.
  unfold fetched, release. destruct (rpcClient address call) as [v [e|]]; simpl;
    destruct (gort.Unlock m (sync_heap w)); simpl; intros [= <- <-]; done.
Qed.

(** C1. After a first-check miss and the acquisition of the per-key lock
    the cache is checked again; when that second check finds a live
    entry, the call returns the cached value as a hit, releases the lock
    and does not call the upstream.  The first stretch never calls the
    upstream, the last makes no further call, and the locked stretch
    calls it exactly when the second check misses too. *)
Theorem second_check_hit_skips_upstream (t1 t2 t3 : Time) (waiting calling : world -> world)
    (address : string) (w w1 : world) (m : nat) (t : Time) (v : float64) :
  enter t1 address w = (AtLock m t, w1) ->
  sync_heap (waiting w1) !! m = Some false ->
  cache.Get (bs_cache (waiting w1)) t2 address = (v, true) ->
  (cache.Get (bs_cache w) t1 address).2 = false /\
  (exists w',
     getBalanceWithCache rpcClient t1 t2 t3 waiting calling address w
       = Ok ({| Address := address; Balance := v; Error := "" |}, true, w') /\
     rpc_calls w' = rpc_calls (waiting w1) /\
     sync_heap w' = sync_heap (waiting w1) /\
     bs_cache w' = bs_cache (waiting w1)) /\
  (forall now a w0, rpc_calls (enter now a w0).2 = rpc_calls w0) /\
  (forall now a m0 t0 w0 st w',
     locked now a m0 t0 w0 = Ok (st, w') ->
     rpc_calls w' =
       rpc_calls w0 ++ (if (cache.Get (bs_cache w0) now a).2 then [] else [a])) /\
  (forall now a m0 t0 call w0 st w',
     fetched rpcClient now a m0 t0 call w0 = Ok (st, w') -> rpc_calls w' = rpc_calls w0).
Proof.
  intros Henter Hfree Hhit. split; [by eapply enter_AtLock |]. split; [|split; [|split]].
  - unfold getBalanceWithCache. rewrite Henter.
    destruct (locked_hit _ _ _ t _ _ Hfree Hhit) as (w' & -> & Hc & _ & Hh & Hr).
    simpl. eauto.
  - intros. apply enter_rpc_calls.
  - intros. by eapply locked_rpc_calls.
  - intros. by eapply fetched_rpc_calls.
Qed.

End service_properties.

Section lookup_examples.

Import models services.

(** Witness of C1: on a new service a lookup of ["a"] misses; while it
    waits for the lock another caller stores the balance; the second
    check hits and the upstream is not called. *)
Lemma second_check_hit_skips_upstream_witness :
  exists w',
    getBalanceWithCache examples.upstream 0 2 3 examples.other_caller_fetches id "a"
      examples.world_new
      = Ok ({| Address := "a"; Balance := 2.5%float; Error := "" |}, true, w') /\
    rpc_calls w' = [].
Proof.
  pose proof (second_check_hit_skips_upstream examples.upstream 0 2 3
                examples.other_caller_fetches id "a" examples.world_new
                (enter 0 "a" examples.world_new).2 0%nat 0 2.5%float
                eq_refl eq_refl eq_refl) as (_ & (w' & Hrun & Hcalls & _) & _).
  exists w'. split; [exact Hrun |]. rewrite Hcalls. reflexivity.
Defined.

End lookup_examples.

Section lastAccess_properties.

Import models services.

Variable rpcClient : string -> nat -> float64 * option error.

Lemma fetched_requestMutex now address m t call w st w' :
  fetched rpcClient now address m t call w = Ok (st, w') ->
  bs_requestMutex w' = bs_requestMutex w.
Proof.
  unfold fetched, release. destruct (rpcClient address call) as [v [e|]]; simpl;
    destruct (gort.Unlock m (sync_heap w)); simpl; intros [= <- <-]; done.
Qed.

Lemma locked_requestMutex now address m t w st w' :
  locked now address m t w = Ok (st, w') -> bs_requestMutex w' = bs_requestMutex w.
Proof.
  destruct (decide (sync_heap w !! m = Some false)) as [Hm | Hm].
  - destruct (enter_cases now address w) as [[v Hv] | Hmiss].
    + destruct (locked_hit _ _ _ t _ _ Hm Hv) as (w2 & -> & _ & Hrm & _).
      by intros [= <- <-].
    + destruct (locked_miss _ _ _ t _ Hm Hmiss) as (w2 & -> & _ & Hrm & _).
      by intros [= <- <-].
  - by rewrite (locked_held _ _ _ _ _ Hm).
Qed.

(** C7, as the code has it. Every lookup whose first cache check misses
    refreshes the [lastAccess] stamp of the key's lock entry (creating
    the entry when the key is not tracked), through its call of
    [GetMutex]; the later stretches of the lookup leave the registry as
    it is.  A lookup served by the first cache check returns before
    [GetMutex] and leaves the registry untouched. *)
Theorem miss_path_refreshes_lastAccess (now : Time) (address : string) (w : world) :
  (cache.Get (bs_cache w) now address).2 = false ->
  mutex.lastAccess <$> (mutex.mutexes (bs_requestMutex (enter now address w).2) !! address)
    = Some now /\
  (forall t a m t0 w0 st w',
     locked t a m t0 w0 = Ok (st, w') -> bs_requestMutex w' = bs_requestMutex w0) /\
  (forall t a m t0 call w0 st w',
     fetched rpcClient t a m t0 call w0 = Ok (st, w') ->
     bs_requestMutex w' = bs_requestMutex w0) /\
  (forall t a w0 v,
     cache.Get (bs_cache w0) t a = (v, true) ->
     bs_requestMutex (enter t a w0).2 = bs_requestMutex w0).
Proof.
  intros Hmiss. split; [|split; [|split]].
  - rewrite (enter_miss _ _ _ Hmiss). simpl. apply GetMutex_lastAccess.
  - intros. by eapply locked_requestMutex.
  - intros. by eapply fetched_requestMutex.
  - intros t a w0 v Hv. by rewrite (enter_hit _ _ _ _ Hv).
Qed.

End lastAccess_properties.

Section lastAccess_examples.

Import models services.

(** Witness of C7: on a new service, a lookup of ["a"] at time 7 misses
    and stamps the lock entry of ["a"] with 7. *)
Lemma miss_path_refreshes_lastAccess_witness :
  mutex.lastAccess <$>
    (mutex.mutexes (bs_requestMutex (enter 7 "a" examples.world_new).2) !! "a") = Some 7.
Proof.
  apply (miss_path_refreshes_lastAccess examples.upstream 7 "a" examples.world_new).
  reflexivity.
Defined.

(** Counterexample to C7 as stated: ["a"] is cached (stored at 100, TTL
    10) and its lock entry was last accessed at 0.  A lookup at 105 is a
    successful cache hit, yet the entry's [lastAccess] is still 0, and
    the idle sweep (threshold 3) run right after the lookup evicts the
    entry of the key that was just used. *)
Lemma hit_leaves_lastAccess_stale :
  exists w',
    getBalanceWithCache examples.upstream 105 105 105 id id "a" examples.world_hot
      = Ok ({| Address := "a"; Balance := 1.5%float; Error := "" |}, true, w') /\
    mutex.lastAccess <$> (mutex.mutexes (bs_requestMutex w') !! "a") = Some 0 /\
    mutex.mutexes (mutex.removeUnused (bs_requestMutex w') 105 (sync_heap w')) !! "a" = None.
Proof. eexists. split; [reflexivity |]. split; reflexivity. Qed.

End lastAccess_examples.

(** ** The batch *)

Section batch_properties.

Import models services.

Variable rpcClient : string -> nat -> float64 * option error.

(** *** The three stretches, as the batch invariant needs them *)

Lemma GetMutex_heap rm now address h :
  let r := mutex.GetMutex rm now address h in
  (forall p b, h !! p = Some b -> r.2 !! p = Some b) /\
  ((forall k e, mutex.mutexes rm !! k = Some e -> h !! mutex.mutex_ e = Some false) ->
   (forall k e, mutex.mutexes r.1.2 !! k = Some e -> r.2 !! mutex.mutex_ e = Some false) /\
   r.2 !! r.1.1 = Some false).
Proof.
  destruct (mutex.mutexes rm !! address) as [entry|] eqn:He.
  - rewrite (GetMutex_tracked _ _ _ _ _ He). simpl. split; [done |].
    intros Hq. split; [|by eapply Hq].
    intros k e [[<- <-] | [_ Hk]]%lookup_insert_Some; simpl; by eapply Hq.
  - rewrite (GetMutex_untracked _ _ _ _ He). simpl. split.
    + intros p b Hp. by apply lookup_app_l_Some.
    + intros Hq.
      assert ((h ++ [false]) !! length h = Some false) as Hnew
        by (rewrite lookup_app_r, Nat.sub_diag by lia; done).
      split; [|done].
      intros k e [[<- <-] | [_ Hk]]%lookup_insert_Some; simpl; [done |].
      apply lookup_app_l_Some. by eapply Hq.
Qed.

Lemma enter_miss_spec now address w :
  (cache.Get (bs_cache w) now address).2 = false ->
  exists m w',
    enter now address w = (AtLock m now, w') /\
    bs_cache w' = bs_cache w /\
    (forall p b, sync_heap w !! p = Some b -> sync_heap w' !! p = Some b) /\
    (quiescent w -> quiescent w' /\ sync_heap w' !! m = Some false).
Proof.
  intros Hmiss. rewrite (enter_miss _ _ _ Hmiss).
  destruct (GetMutex_heap (bs_requestMutex w) now address (sync_heap w)) as [Hext Hq].
  eexists _, _. split; [reflexivity |]. simpl. split; [done |]. split; [done |].
  intros Hw. destruct (Hq Hw) as [Hq' Hm]. split; [|done].
  intros k e. simpl. apply Hq'.
Qed.

Lemma fetched_spec now address m t call w :
  sync_heap w !! m = Some true ->
  exists wb w',
    fetched rpcClient now address m t call w = Ok (Returned wb false, w') /\
    sync_heap w' = <[m := false]> (sync_heap w) /\
    bs_requestMutex w' = bs_requestMutex w /\
    ((exists v, rpcClient address call = (v, None) /\
        wb = {| Address := address; Balance := v; Error := "" |} /\
        bs_cache w' = cache.Set_ (bs_cache w) now address v) \/
     (exists v e, rpcClient address call = (v, Some e) /\
        wb = {| Address := address; Balance := 0%float;
                Error := "Failed to fetch balance: " +:+ gort.Error e |} /\
        bs_cache w' = bs_cache w)).
Proof.
  intros Hm. unfold fetched, release, gort.Unlock.
  destruct (rpcClient address call) as [v [e|]] eqn:Hrpc; simpl; rewrite Hm; simpl;
    eexists _, _; (split; [reflexivity |]); simpl; (split; [done |]); (split; [done |]).
  - right. eauto.
  - left. eauto.
Qed.

Lemma fetched_not_held now address m t call w :
  sync_heap w !! m ≠ Some true ->
  fetched rpcClient now address m t call w = Fatal "sync: unlock of unlocked mutex".
Proof.
  intros Hm. unfold fetched, release, gort.Unlock.
  destruct (rpcClient address call) as [v [e|]]; simpl;
    by destruct (sync_heap w !! m) as [[|]|].
Qed.

(** *** Scheduling steps *)


Lemma step_Run_idle index now b w :
  (goroutines b !! index = None \/
   exists addr wb c, goroutines b !! index = Some (addr, Returned wb c)) ->
  step rpcClient (Run index now) (b, w) = Ok (b, w).
Proof. simpl. intros [-> | (addr & wb & c & ->)]; done. Qed.

Lemma step_Run_advance index now b w addr st :
  goroutines b !! index = Some (addr, st) ->
  (forall wb c, st ≠ Returned wb c) ->
  step rpcClient (Run index now) (b, w) =
    match advance rpcClient now addr st w with
    | Ok (st', w') => Ok (settle index addr st' b, w')
    | Blocked => Ok (b, w)
    | Panic m => Panic m
    | Fatal m => Fatal m
    end.
Proof. simpl. intros -> Hst. destruct st; try done. by destruct (Hst walletBalance cached). Qed.

Lemma settle_goroutines index addr st b :
  goroutines (settle index addr st b) = <[index := (addr, st)]> (goroutines b).
Proof. by destruct st. Qed.

Lemma settle_balances index addr st b :
  balances (settle index addr st b) =
    match st with
    | Returned wb _ => <[index := wb]> (balances b)
    | _ => balances b
    end.
Proof. by destruct st. Qed.

(** *** The invariant *)

Lemma locks_held_leave gs h h' i a st st' :
  locks_held gs h ->
  gs !! i = Some (a, st) ->
  (forall m t c, st' ≠ AtRPC m t c) ->
  (forall j a' m t c, j ≠ i -> gs !! j = Some (a', AtRPC m t c) -> h' !! m = Some true) ->
  locks_held (<[i := (a, st')]> gs) h'.
Proof.
  intros [Hheld Hdist] Hi Hst Hkeep. split.
  - intros j a' m t c [(-> & [= <- Heq] & _) | [Hne Hj]]%list_lookup_insert_Some.
    + by destruct (Hst m t c).
    + by eapply Hkeep.
  - intros j k a1 a2 m t t' c c' Hjk
      [(-> & [= <- Heq] & _) | [Hne1 Hj]]%list_lookup_insert_Some
      [(-> & [= <- Heq'] & _) | [Hne2 Hk]]%list_lookup_insert_Some;
      try by destruct (Hst m t c).
    + by destruct (Hst m t' c').
    + by eapply (Hdist j k).
Qed.

Lemma locks_held_acquire gs h i a st m t c :
  locks_held gs h ->
  gs !! i = Some (a, st) ->
  h !! m = Some false ->
  locks_held (<[i := (a, AtRPC m t c)]> gs) (<[m := true]> h).
Proof.
  intros [Hheld Hdist] Hi Hm.
  pose proof (lookup_lt_Some _ _ _ Hm) as Hlt. split.
  - intros j a' m' t' c' [(-> & [= <- <- <- <-] & _) | [Hne Hj]]%list_lookup_insert_Some.
    + by apply list_lookup_insert_eq.
    + pose proof (Hheld _ _ _ _ _ Hj) as Hm'.
      rewrite list_lookup_insert_ne; [done | congruence].
  - intros j k a1 a2 m' t1 t2 c1 c2 Hjk
      [(-> & Heq1 & _) | [Hne1 Hj]]%list_lookup_insert_Some
      [(-> & Heq2 & _) | [Hne2 Hk]]%list_lookup_insert_Some; simplify_eq.
    + pose proof (Hheld _ _ _ _ _ Hk). congruence.
    + pose proof (Hheld _ _ _ _ _ Hj). congruence.
    + by eapply (Hdist j k).
Qed.

Section invariant.

Variable data0 : gmap string cache.CacheEntry.
Variable addresses : list string.

Local Abbreviation inv := (batch_inv rpcClient data0 addresses).

Lemma inv_settle b w i a st st' w' :
  inv (b, w) ->
  goroutines b !! i = Some (a, st) ->
  (forall wb c, st' = Returned wb c -> populated rpcClient data0 a wb) ->
  (forall k e, cache.data (bs_cache w') !! k = Some e ->
               own_value rpcClient data0 k (cache.Balance e)) ->
  locks_held (<[i := (a, st')]> (goroutines b)) (sync_heap w') ->
  inv (settle i a st' b, w').
Proof.
  intros [Hlen Haddr Hres Hcache Hlocks] Hi Hpop Hcache' Hlocks'. simpl in *.
  assert (i < length (balances b))%nat as Hlt.
  { rewrite Hlen, <- Haddr, length_fmap. by eapply lookup_lt_Some. }
  constructor; simpl.
  - rewrite settle_balances. destruct st'; by rewrite ?length_insert.
  - rewrite settle_goroutines, list_fmap_insert. simpl.
    rewrite list_insert_id; [done |]. by rewrite list_lookup_fmap, Hi.
  - intros j a' wb c. rewrite settle_goroutines, settle_balances.
    intros [(-> & [= <- ->] & _) | [Hne Hj]]%list_lookup_insert_Some.
    + split; [by apply list_lookup_insert_eq | by eapply Hpop].
    + destruct (Hres _ _ _ _ Hj) as [Hb Hp]. split; [|done].
      destruct st'; by rewrite ?list_lookup_insert_ne.
  - done.
  - by rewrite settle_goroutines.
Qed.

Lemma inv_step ev s : inv s -> exists s', step rpcClient ev s = Ok s' /\ inv s'.
Proof.
  destruct s as [b w]. intros Hinv.
  pose proof Hinv as [Hlen Haddr Hres Hcache Hlocks].
  pose proof Hlocks as [Hheld Hdist].
  simpl in Hlen, Haddr, Hres, Hcache, Hlocks, Hheld, Hdist.
  destruct ev as [i now | now | now].
  - destruct (goroutines b !! i) as [[a st]|] eqn:Hi;
      [| exists (b, w); split; [apply step_Run_idle; by left | done]].
    destruct st as [ | m t | m t call | wb c].
    + (* the first cache check *)
      rewrite (step_Run_advance _ _ _ _ _ _ Hi) by done. simpl.
      destruct (enter_cases now a w) as [[v Hv] | Hmiss].
      * rewrite (enter_hit _ _ _ _ Hv). eexists. split; [reflexivity |].
        apply (inv_settle _ _ _ _ _ _ _ Hinv Hi); simpl.
        -- intros wb c [= <- <-]. left. simpl. split; [done |]. split; [done |].
           apply Get_hit in Hv as (e & He & <- & _). by eapply Hcache.
        -- done.
        -- apply (locks_held_leave _ _ _ _ _ _ _ Hlocks Hi); [done | eauto].
      * destruct (enter_miss_spec _ _ _ Hmiss) as (m & w' & -> & Hc & Hext & _).
        eexists. split; [reflexivity |].
        apply (inv_settle _ _ _ _ _ _ _ Hinv Hi); simpl.
        -- done.
        -- by rewrite Hc.
        -- apply (locks_held_leave _ _ _ _ _ _ _ Hlocks Hi); [done | eauto].
    + (* the lock and the second cache check *)
      rewrite (step_Run_advance _ _ _ _ _ _ Hi) by done. simpl.
      destruct (decide (sync_heap w !! m = Some false)) as [Hm | Hm];
        [| rewrite (locked_held _ _ _ _ _ Hm); by exists (b, w)].
      destruct (enter_cases now a w) as [[v Hv] | Hmiss].
      * destruct (locked_hit _ _ _ t _ _ Hm Hv) as (w' & -> & Hc & _ & Hh & _).
        eexists. split; [reflexivity |].
        apply (inv_settle _ _ _ _ _ _ _ Hinv Hi); simpl.
        -- intros wb c [= <- <-]. left. simpl. split; [done |]. split; [done |].
           apply Get_hit in Hv as (e & He & <- & _). by eapply Hcache.
        -- by rewrite Hc.
        -- rewrite Hh. apply (locks_held_leave _ _ _ _ _ _ _ Hlocks Hi); [done | eauto].
      * destruct (locked_miss _ _ _ t _ Hm Hmiss) as (w' & -> & Hc & _ & Hh & _).
        eexists. split; [reflexivity |].
        apply (inv_settle _ _ _ _ _ _ _ Hinv Hi); simpl.
        -- done.
        -- by rewrite Hc.
        -- rewrite Hh. by apply (locks_held_acquire _ _ _ _ _ _ _ _ Hlocks Hi).
    + (* the answer of the upstream *)
      rewrite (step_Run_advance _ _ _ _ _ _ Hi) by done. simpl.
      pose proof (Hheld _ _ _ _ _ Hi) as Hm.
      destruct (fetched_spec now a m t call w Hm) as (wb & w' & -> & Hh & _ & Hcase).
      eexists. split; [reflexivity |].
      assert (locks_held (<[i := (a, Returned wb false)]> (goroutines b)) (sync_heap w'))
        as Hlocks'.
      { rewrite Hh. apply (locks_held_leave _ _ _ _ _ _ _ Hlocks Hi); [done |].
        intros j a' m' t' c' Hne Hj.
        rewrite list_lookup_insert_ne; [by eapply Hheld |].
        intros <-. by eapply (Hdist j i). }
      destruct Hcase as [(v & Hrpc & -> & Hc) | (v & e & Hrpc & -> & Hc)].
      * apply (inv_settle _ _ _ _ _ _ _ Hinv Hi); simpl.
        -- intros wb c [= <- <-]. left. simpl. split; [done |]. split; [done |].
           right. eauto.
        -- rewrite Hc. simpl.
           intros k e [[<- <-] | [_ Hk]]%lookup_insert_Some; simpl;
             [right; eauto | by eapply Hcache].
        -- done.
      * apply (inv_settle _ _ _ _ _ _ _ Hinv Hi); simpl.
        -- intros wb c [= <- <-]. right. eauto.
        -- by rewrite Hc.
        -- done.
    + exists (b, w). split; [apply step_Run_idle; right; eauto | done].
  - (* the cache sweep *)
    eexists. split; [reflexivity |].
    constructor; cbn [fst snd bs_cache with_cache sync_heap]; try done.
    unfold cache.cleanup_tick.
    intros k e. rewrite removeExpired_lookup.
    destruct (cache.data (bs_cache w) !! k) as [e'|] eqn:He'; [|done].
    destruct (cache.ttl (bs_cache w) <? Sub now (cache.Timestamp e')); [done |].
    intros [= <-]. by eapply Hcache.
  - (* the idle-lock sweep *)
    eexists. split; [reflexivity |]. by constructor.
Qed.

Lemma inv_run sched s : inv s -> exists s', run rpcClient sched s = Ok s' /\ inv s'.
Proof.
  revert s. induction sched as [|ev sched IH]; intros s Hinv; simpl; [eauto |].
  destruct (inv_step ev s Hinv) as (s1 & -> & Hinv1). simpl. by apply IH.
Qed.

End invariant.

(** *** Running the goroutines one after the other *)

Lemma quiescent_same w w' :
  bs_requestMutex w' = bs_requestMutex w -> sync_heap w' = sync_heap w ->
  quiescent w -> quiescent w'.
Proof. unfold quiescent. by intros -> ->. Qed.



Lemma fmap_entry_fst (l : list string) : ((fun addr => (addr, AtEntry)) <$> l).*1 = l.
Proof. induction l as [|a l IH]; simpl; [done | by f_equal]. Qed.


(** *** [GetBalances] *)

Lemma batch_inv_start addresses w mc :
  batch_inv rpcClient (cache.data (bs_cache w)) addresses
    ({| balances := replicate (length addresses) models.zero;
        allCached := true;
        goroutines := (fun addr => (addr, AtEntry)) <$> addresses |},
     with_metrics w mc).
Proof.
  constructor; simpl.
  - apply length_replicate.
  - apply fmap_entry_fst.
  - intros i a wb c. rewrite list_lookup_fmap.
    by destruct (addresses !! i).
  - intros k e He. left. eauto.
  - split.
    + intros i a m t c. rewrite list_lookup_fmap. by destruct (addresses !! i).
    + intros i j a a' m t t' c c' _. rewrite list_lookup_fmap.
      by destruct (addresses !! i).
Qed.


End batch_properties.

Section batch_examples.

Import models services.


(** The batch of the witness, run: the failure of ["b"] stays in its own
    element, and ["a"] is served from the upstream. *)
Example GetBalances_a_b :
  exists w',
    GetBalances examples.upstream 0 9 (one_by_one 2 0) ["a"; "b"] examples.world_new
      = Ok ({| Balances :=
                 [ {| Address := "a"; Balance := 2.5%float; Error := "" |};
                   {| Address := "b"; Balance := 0%float;
                      Error := "Failed to fetch balance: rpc unavailable" |} ];
               Cached := false |}, None, w') /\
    rpc_calls w' = ["a"; "b"].
Proof. eexists. split; reflexivity. Qed.

End batch_examples.

(* ===================================================================== *)
(** * Further properties of the code *)
(* ===================================================================== *)

(** ** The TTL cache: writes, deletes and the sweep *)

Section cache_operations.

Import cache.

(** [Sub] grows with its first argument, saturation included. *)
Lemma Sub_mono t t' u : t <= t' -> Sub t u <= Sub t' u.
Proof.
  unfold Sub, maxDuration, minDuration, maxInt64, minInt64. intros Hle.
  repeat match goal with |- context [?a <? ?b] => destruct (Z.ltb_spec a b) end; lia.
Qed.

(** X1. A value stored by [Set] at time [t] is returned by [Get] for as
    long as [now - t <= ttl], and is reported missing (with the value 0)
    from then on. *)
Theorem Set_then_Get (c : Cache) (t now : Time) (key : string) (v : float64) :
  clock_reading t -> clock_reading now ->
  Get (Set_ c t key v) now key = if ttl c <? now - t then (0%float, false) else (v, true).
Proof.
  intros Ht Hnow. unfold Get, Set_, Since; simpl.
  rewrite lookup_insert_eq. simpl. by rewrite Sub_clock.
Qed.

Lemma Set_then_Get_witness :
  Get (Set_ (New 10) 100 "a" 1.5%float) 105 "a" = (1.5%float, true) /\
  Get (Set_ (New 10) 100 "a" 1.5%float) 111 "a" = (0%float, false).
Proof.
  split.
  - apply (Set_then_Get (New 10) 100 105 "a" 1.5%float);
      unfold clock_reading, maxInt64; lia.
  - apply (Set_then_Get (New 10) 100 111 "a" 1.5%float);
      unfold clock_reading, maxInt64; lia.
Defined.

(** X2. [Set] and [Delete] act on their key alone: a read of any other
    key sees what it saw before, and after [Delete] the key itself is
    missing. *)
Theorem Set_Delete_touch_one_key (c : Cache) (t now : Time) (key key' : string)
    (v : float64) :
  key ≠ key' ->
  Get (Set_ c t key v) now key' = Get c now key' /\
  Get (Delete c key) now key' = Get c now key' /\
  Get (Delete c key) now key = (0%float, false).
Proof.
  intros Hne. unfold Get, Set_, Delete; simpl.
  by rewrite lookup_insert_ne, lookup_delete_ne, lookup_delete_eq.
Qed.

Lemma Set_Delete_touch_one_key_witness :
  Get (Set_ examples.cache_a 100 "b" 7%float) 105 "a" = Get examples.cache_a 105 "a" /\
  Get (Delete examples.cache_a "b") 105 "a" = Get examples.cache_a 105 "a" /\
  Get (Delete examples.cache_a "b") 105 "b" = (0%float, false).
Proof. by apply (Set_Delete_touch_one_key examples.cache_a 100 105 "b" "a" 7%float). Defined.

(** X3. [Set] overwrites: of two writes to a key only the later one
    remains, and the size grows by one for a new key and not at all for
    a key that is already stored, expired or not. *)
Theorem Set_overwrites (c : Cache) (t1 t2 : Time) (key : string) (v1 v2 : float64) :
  Set_ (Set_ c t1 key v1) t2 key v2 = Set_ c t2 key v2 /\
  Size (Set_ c t1 key v1) =
    match data c !! key with
    | Some _ => Size c
    | None => S (Size c)
    end.
Proof.
  unfold Set_, Size; simpl. split.
  - by rewrite insert_insert_eq.
  - destruct (data c !! key) as [e|] eqn:He.
    + rewrite <- (insert_delete_id (data c) key e He) at 2.
      rewrite <- (insert_delete_eq (data c)).
      by rewrite !map_size_insert_None by apply lookup_delete_eq.
    + by apply map_size_insert_None.
Qed.

(** X4. The sweep is invisible to readers: a read at the time of the
    sweep or later returns the same result whether or not
    [removeExpired] ran, and the sweep never grows the cache. *)
Theorem removeExpired_invisible (c : Cache) (now now' : Time) (key : string) :
  now <= now' ->
  Get (removeExpired c now) now' key = Get c now' key /\
  (Size (removeExpired c now) <= Size c)%nat.
Proof.
  intros Hle. split.
  - unfold Get. rewrite removeExpired_lookup. simpl.
    destruct (data c !! key) as [e|]; [|done].
    destruct (Z.ltb_spec (ttl c) (Sub now (Timestamp e))); [|done].
    unfold Since. pose proof (Sub_mono now now' (Timestamp e) Hle).
    destruct (Z.ltb_spec (ttl c) (Sub now' (Timestamp e))); [done | lia].
  - unfold Size, removeExpired; simpl. apply map_subseteq_size, map_filter_subseteq.
Qed.

Lemma removeExpired_invisible_witness :
  Get (removeExpired examples.cache_a 120) 125 "a" = Get examples.cache_a 125 "a" /\
  (Size (removeExpired examples.cache_a 120%Z) <= Size examples.cache_a)%nat.
Proof. apply (removeExpired_invisible examples.cache_a 120 125 "a"). lia. Defined.

End cache_operations.

(** ** The lock registry: one mutex per key *)

Section registry_operations.

Import mutex.

Lemma TryLock_true m h : (TryLock m h).1 = true <-> h !! m = Some false.
Proof. unfold TryLock. destruct (h !! m) as [[|]|]; simpl; split; congruence. Qed.

Lemma removeUnused_lookup rm now h k :
  mutexes (removeUnused rm now h) !! k =
  match mutexes rm !! k with
  | Some e => if unused rm now h e then None else Some e
  | None => None
  end.
Proof.
  unfold removeUnused; simpl. rewrite map_lookup_filter.
  destruct (mutexes rm !! k) as [e|]; simpl; [|done].
  destruct (unused rm now h e) eqn:Hu.
  - by rewrite option_guard_False.
  - by rewrite option_guard_True.
Qed.

Lemma GetMutex_entry rm now k h :
  mutexes (GetMutex rm now k h).1.2 !! k
    = Some {| mutex_ := (GetMutex rm now k h).1.1; lastAccess := now |}.
Proof.
  destruct (mutexes rm !! k) as [e|] eqn:Hk.
  - rewrite (GetMutex_tracked _ _ _ _ _ Hk). simpl. by rewrite lookup_insert_eq.
  - rewrite (GetMutex_untracked _ _ _ _ Hk). simpl. by rewrite lookup_insert_eq.
Qed.

(** X5. Callers of one key share one mutex: a second [GetMutex] for the
    key returns the pointer the first returned, allocates nothing and
    adds no entry; it only moves [lastAccess] to the time of the call. *)
Theorem GetMutex_coalesces (rm : RequestMutex) (t1 t2 : Time) (k : string) (h : heap) :
  let r1 := GetMutex rm t1 k h in
  let r2 := GetMutex r1.1.2 t2 k r1.2 in
  r2.1.1 = r1.1.1 /\ r2.2 = r1.2 /\ Size r2.1.2 = Size r1.1.2 /\
  mutexes r2.1.2 !! k = Some {| mutex_ := r1.1.1; lastAccess := t2 |}.
Proof.
  assert (exists e, mutexes (GetMutex rm t1 k h).1.2 !! k = Some e /\
                    mutex_ e = (GetMutex rm t1 k h).1.1) as (e & He & Hm).
  { destruct (mutexes rm !! k) as [e|] eqn:Hk.
    - rewrite (GetMutex_tracked _ _ _ _ _ Hk). simpl. rewrite lookup_insert_eq. eauto.
    - rewrite (GetMutex_untracked _ _ _ _ Hk). simpl. rewrite lookup_insert_eq. eauto. }
  simpl. rewrite (GetMutex_tracked _ _ _ _ _ He). simpl.
  rewrite lookup_insert_eq, Hm. repeat split; try done.
  unfold Size; simpl.
  rewrite <- (insert_delete_id _ k e He) at 2.
  rewrite <- (insert_delete_eq (mutexes _)).
  by rewrite !map_size_insert_None by apply lookup_delete_eq.
Qed.

Lemma GetMutex_wf rm now k h :
  registry_wf rm h ->
  registry_wf (GetMutex rm now k h).1.2 (GetMutex rm now k h).2.
Proof.
  intros [Hin Hinj]. destruct (mutexes rm !! k) as [e|] eqn:Hk.
  - rewrite (GetMutex_tracked _ _ _ _ _ Hk). unfold touch, with_mutexes. split; simpl.
    + intros k1 e1 [[<- <-] | [_ H1]]%lookup_insert_Some; simpl; eauto.
    + intros k1 k2 e1 e2 [[<- <-] | [Hn1 H1]]%lookup_insert_Some
        [[<- <-] | [Hn2 H2]]%lookup_insert_Some; simpl; eauto.
  - rewrite (GetMutex_untracked _ _ _ _ Hk). unfold with_mutexes. split; simpl.
    + intros k1 e1 [[<- <-] | [_ H1]]%lookup_insert_Some; simpl;
        rewrite length_app; simpl; [lia |]. specialize (Hin _ _ H1). lia.
    + intros k1 k2 e1 e2 [[<- <-] | [Hn1 H1]]%lookup_insert_Some
        [[<- <-] | [Hn2 H2]]%lookup_insert_Some; simpl; eauto.
      * intros Heq. specialize (Hin _ _ H2). lia.
      * intros Heq. specialize (Hin _ _ H1). lia.
Qed.

(** X6. Distinct keys never share a mutex: on a well-formed registry,
    [GetMutex] for two different keys returns two different pointers,
    whether the keys were tracked before or not, and leaves the registry
    well formed. *)
Theorem GetMutex_separates_keys (rm : RequestMutex) (t1 t2 : Time) (k k' : string)
    (h : heap) :
  registry_wf rm h -> k ≠ k' ->
  let r1 := GetMutex rm t1 k h in
  let r2 := GetMutex r1.1.2 t2 k' r1.2 in
  r1.1.1 ≠ r2.1.1 /\ registry_wf r2.1.2 r2.2.
Proof.
  intros Hwf Hne r1 r2. subst r1 r2.
  pose proof (GetMutex_wf rm t1 k h Hwf) as Hwf1.
  pose proof (GetMutex_wf _ t2 k' _ Hwf1) as Hwf2.
  split; [|done].
  set (r1 := GetMutex rm t1 k h) in *.
  set (r2 := GetMutex r1.1.2 t2 k' r1.2) in *.
  assert (exists e, mutexes r2.1.2 !! k = Some e /\ mutex_ e = r1.1.1) as (e & He & Hm).
  { assert (exists e, mutexes r1.1.2 !! k = Some e /\ mutex_ e = r1.1.1) as (e & He & Hm).
    { subst r1. destruct (mutexes rm !! k) as [e|] eqn:Hk.
      - rewrite (GetMutex_tracked _ _ _ _ _ Hk). simpl. rewrite lookup_insert_eq. eauto.
      - rewrite (GetMutex_untracked _ _ _ _ Hk). simpl. rewrite lookup_insert_eq. eauto. }
    exists e. split; [|done]. subst r2.
    destruct (mutexes r1.1.2 !! k') as [e'|] eqn:Hk'.
    - rewrite (GetMutex_tracked _ _ _ _ _ Hk'). simpl. by rewrite lookup_insert_ne.
    - rewrite (GetMutex_untracked _ _ _ _ Hk'). simpl. by rewrite lookup_insert_ne. }
  assert (exists e', mutexes r2.1.2 !! k' = Some e' /\ mutex_ e' = r2.1.1) as (e' & He' & Hm').
  { subst r2. destruct (mutexes r1.1.2 !! k') as [e'|] eqn:Hk'.
    - rewrite (GetMutex_tracked _ _ _ _ _ Hk'). simpl. rewrite lookup_insert_eq. eauto.
    - rewrite (GetMutex_untracked _ _ _ _ Hk'). simpl. rewrite lookup_insert_eq. eauto. }
  intros Heq. apply Hne. destruct Hwf2 as [_ Hinj].
  apply (Hinj k k' e e' He He'). congruence.
Qed.

Lemma registry_wf_New d : registry_wf (New d) [].
Proof. split; intros ? ?; unfold New; simpl; intros; by rewrite lookup_empty in *. Qed.

Lemma GetMutex_separates_keys_witness :
  (GetMutex (New 3) 0 "a" []).1.1 ≠
    (GetMutex (GetMutex (New 3) 0 "a" []).1.2 1 "b" (GetMutex (New 3) 0 "a" []).2).1.1 /\
  registry_wf
    (GetMutex (GetMutex (New 3) 0 "a" []).1.2 1 "b" (GetMutex (New 3) 0 "a" []).2).1.2
    (GetMutex (GetMutex (New 3) 0 "a" []).1.2 1 "b" (GetMutex (New 3) 0 "a" []).2).2.
Proof.
  apply (GetMutex_separates_keys (New 3) 0 1 "a" "b" [] (registry_wf_New 3)). done.
Defined.

(** X7. [Lock] is mutual exclusion per key: once [Lock] of a key has
    returned, a second [Lock] of the same key blocks; [Unlock] of the key
    then returns normally and gives back the heap [GetMutex] left, after
    which [Lock] of the key succeeds again. *)
Theorem Lock_excludes_until_Unlock (rm rm1 : RequestMutex) (t1 t2 : Time) (k : string)
    (h h1 : heap) :
  Lock rm t1 k h = Ok (rm1, h1) ->
  Lock rm1 t2 k h1 = Blocked /\
  Unlock rm1 k h1 = Ok (GetMutex rm t1 k h).2 /\
  exists rm2 h2, Lock rm1 t2 k (GetMutex rm t1 k h).2 = Ok (rm2, h2).
Proof.
  unfold Lock at 1.
  destruct (GetMutex rm t1 k h) as [[m rm'] h'] eqn:Hg.
  unfold gort.Lock. destruct (h' !! m) as [[|]|] eqn:Hm; simpl; try done.
  intros [= <- <-].
  pose proof (lookup_lt_Some _ _ _ Hm) as Hlt.
  assert (mutexes rm' !! k = Some {| mutex_ := m; lastAccess := t1 |}) as Hk.
  { pose proof (GetMutex_entry rm t1 k h) as He. by rewrite Hg in He. }
  split; [|split].
  - unfold Lock. rewrite (GetMutex_tracked _ _ _ _ _ Hk). simpl.
    unfold gort.Lock. by rewrite list_lookup_insert_eq.
  - unfold Unlock. rewrite Hk. simpl. unfold gort.Unlock.
    rewrite list_lookup_insert_eq by done.
    by rewrite list_insert_insert_eq, list_insert_id.
  - unfold Lock. rewrite (GetMutex_tracked _ _ _ _ _ Hk). simpl.
    unfold gort.Lock. rewrite Hm. simpl. eauto.
Qed.

Lemma Lock_excludes_until_Unlock_witness :
  Lock examples.registry_a 5 "a" [true] = Blocked /\
  Unlock examples.registry_a "a" [true] = Ok (GetMutex (New 3) 0 "a" []).2 /\
  exists rm2 h2, Lock examples.registry_a 5 "a" (GetMutex (New 3) 0 "a" []).2 = Ok (rm2, h2).
Proof.
  apply (Lock_excludes_until_Unlock (New 3) examples.registry_a 0 5 "a" [] [true]).
  reflexivity.
Defined.

(** X8. The idle sweep removes an entry exactly when it has been idle
    for longer than [cleanupTTL] and its mutex is free: an entry whose
    mutex is held, or that was accessed within [cleanupTTL], survives
    unchanged.  The sweep adds nothing and keeps the registry well
    formed. *)
Theorem removeUnused_spares_held_and_recent (rm : RequestMutex) (now : Time) (h : heap)
    (k : string) (e : mutexEntry) :
  mutexes rm !! k = Some e ->
  (mutexes (removeUnused rm now h) !! k = None <->
     cleanupTTL rm < Sub now (lastAccess e) /\ h !! mutex_ e = Some false) /\
  (mutexes (removeUnused rm now h) !! k ≠ None ->
     mutexes (removeUnused rm now h) !! k = Some e) /\
  (Size (removeUnused rm now h) <= Size rm)%nat /\
  (registry_wf rm h -> registry_wf (removeUnused rm now h) h).
Proof.
  intros Hk. rewrite removeUnused_lookup, Hk. unfold unused.
  split; [|split; [|split]].
  - destruct (Z.ltb_spec (cleanupTTL rm) (Sub now (lastAccess e))).
    + destruct ((TryLock (mutex_ e) h).1) eqn:Ht.
      * apply TryLock_true in Ht. by split.
      * split; [done |]. intros [_ Hf]. apply TryLock_true in Hf. congruence.
    + split; [done | lia].
  - by destruct (if cleanupTTL rm <? Sub now (lastAccess e)
                 then (TryLock (mutex_ e) h).1 else false).
  - unfold Size, removeUnused; simpl. apply map_subseteq_size, map_filter_subseteq.
  - intros [Hin Hinj]. split.
    + intros k1 e1 [H1 _]%map_lookup_filter_Some. eauto.
    + intros k1 k2 e1 e2 [H1 _]%map_lookup_filter_Some [H2 _]%map_lookup_filter_Some. eauto.
Qed.

Lemma removeUnused_spares_held_and_recent_witness :
  (mutexes (removeUnused examples.registry_a 105 [true]) !! "a" = None <->
     cleanupTTL examples.registry_a < Sub 105 0 /\ [true] !! 0%nat = Some false) /\
  (mutexes (removeUnused examples.registry_a 105 [true]) !! "a" ≠ None ->
     mutexes (removeUnused examples.registry_a 105 [true]) !! "a"
       = Some {| mutex_ := 0; lastAccess := 0 |}) /\
  (Size (removeUnused examples.registry_a 105%Z [true]) <= Size examples.registry_a)%nat /\
  (registry_wf examples.registry_a [true] ->
   registry_wf (removeUnused examples.registry_a 105 [true]) [true]).
Proof.
  apply (removeUnused_spares_held_and_recent examples.registry_a 105 [true] "a"
           {| mutex_ := 0; lastAccess := 0 |}).
  reflexivity.
Defined.

(** X9. [RequestMutex.Stop] is safe to repeat: on a registry whose
    [stopped] flag agrees with its channel (as [New] and [Stop] leave
    it), [Stop] returns normally with the flag set, the channel closed
    and the entries untouched, and a second [Stop] changes nothing.
    [Stop] lets the cleanup loop return but does not take back a tick
    the loop serves afterwards: such a sweep removes the entries it
    would have removed without [Stop]. *)
Theorem mutex_Stop_safe_to_repeat (rm : RequestMutex) :
  closed (stopCh rm) = stopped rm ->
  exists rm',
    Stop rm = Ok rm' /\ Stop rm' = Ok rm' /\
    stopped rm' = true /\ closed (stopCh rm') = true /\
    mutexes rm' = mutexes rm /\ cleanupTTL rm' = cleanupTTL rm /\
    cleanup_returns rm' = true /\
    forall now h, mutexes (cleanup_tick rm' now h) = mutexes (cleanup_tick rm now h).
Proof.
  intros Hinv. unfold Stop, close. destruct (stopped rm) eqn:Hs; simpl.
  - exists rm. rewrite Hs. simpl. unfold cleanup_returns. by rewrite Hinv.
  - rewrite Hinv. simpl. eexists. split; [reflexivity |]. simpl. repeat split; done.
Qed.

Lemma mutex_Stop_safe_to_repeat_witness :
  exists rm',
    Stop examples.registry_a = Ok rm' /\ Stop rm' = Ok rm' /\
    stopped rm' = true /\ closed (stopCh rm') = true /\
    mutexes rm' = mutexes examples.registry_a /\
    cleanupTTL rm' = cleanupTTL examples.registry_a /\
    cleanup_returns rm' = true /\
    forall now h,
      mutexes (cleanup_tick rm' now h) = mutexes (cleanup_tick examples.registry_a now h).
Proof. apply (mutex_Stop_safe_to_repeat examples.registry_a). reflexivity. Defined.

(** A sweep served after [Stop]: the entry of ["a"], idle since time 0
    with its lock free, is removed by a tick at time 105 although the
    registry was stopped before. *)
Example sweep_after_Stop :
  exists rm',
    Stop examples.registry_a = Ok rm' /\
    Size rm' = 1%nat /\ Size (cleanup_tick rm' 105 [false]) = 0%nat.
Proof. eexists. split; [reflexivity |]. split; reflexivity. Qed.

End registry_operations.

(** ** The metrics collector: what the counters count *)

Section metrics_accounting.

Import metrics.

#[local] Arguments AddInt64 : simpl never.
#[local] Arguments wrap64 : simpl never.
#[local] Arguments Z.quot : simpl never.

Lemma record_all_snoc ops op mc :
  record_all (ops ++ [op]) mc = record op (record_all ops mc).
Proof. unfold record_all. by rewrite foldl_app. Qed.

Lemma tally_snoc p ops op :
  tally p (ops ++ [op]) = tally p ops + (if p op then 1 else 0).
Proof.
  unfold tally. rewrite List.filter_app, length_app. simpl.
  destruct (p op); simpl; lia.
Qed.

Lemma tally_bounds p ops : 0 <= tally p ops <= Z.of_nat (length ops).
Proof.
  unfold tally. pose proof (List.filter_length_le p ops). lia.
Qed.

Lemma tally_complete_le ops :
  tally (is_complete true) ops + tally (is_complete false) ops <= Z.of_nat (length ops).
Proof.
  induction ops as [|op ops IH] using rev_ind; [done |].
  rewrite !tally_snoc, length_app. simpl.
  destruct op as [ | d [|] | | | d [|] | ]; simpl; lia.
Qed.

Lemma AddInt64_exact x d : is_int64 (x + d) -> AddInt64 x d = x + d.
Proof. apply wrap64_id. Qed.

(** X10. On a new collector, as long as fewer than 2^63 operations have
    been recorded, every counter is the number of the operations that
    feed it: requests started, completed with and without success, cache
    hits and misses, RPC calls and failed RPC calls, mutex waits.  So
    [ActiveRequests] is the requests started minus those completed, and
    [RPCFailures] never exceeds [RPCCalls]. *)
Theorem counters_count (ops : list recording) (now : Time) :
  Z.of_nat (length ops) <= maxInt64 ->
  let m := metrics_ (record_all ops (NewMetricsCollector now)) in
  TotalRequests m = tally is_request ops /\
  SuccessfulRequests m = tally (is_complete true) ops /\
  FailedRequests m = tally (is_complete false) ops /\
  CacheHits m = tally is_hit ops /\
  CacheMisses m = tally is_miss ops /\
  RPCCalls m = tally is_rpc ops /\
  RPCFailures m = tally is_rpc_failure ops /\
  MutexWaits m = tally is_wait ops /\
  ActiveRequests m = TotalRequests m - SuccessfulRequests m - FailedRequests m /\
  RPCFailures m <= RPCCalls m.
Proof.
  induction ops as [|op ops IH] using rev_ind; intros Hlen m; [by vm_compute |].
  rewrite length_app in Hlen. simpl in Hlen.
  destruct IH as (Ht & Hs & Hf & Hh & Hmi & Hr & Hrf & Hw & Ha & Hle); [lia |].
  subst m. rewrite record_all_snoc, !tally_snoc.
  set (mc := record_all ops (NewMetricsCollector now)) in *.
  pose proof (tally_bounds is_request ops).
  pose proof (tally_bounds (is_complete true) ops).
  pose proof (tally_bounds (is_complete false) ops).
  pose proof (tally_bounds is_hit ops).
  pose proof (tally_bounds is_miss ops).
  pose proof (tally_bounds is_rpc ops).
  pose proof (tally_bounds is_rpc_failure ops).
  pose proof (tally_bounds is_wait ops).
  pose proof (tally_complete_le ops).
  assert (forall x d, - Z.of_nat (length ops) <= x <= Z.of_nat (length ops) ->
                      -1 <= d <= 1 -> AddInt64 x d = x + d) as Hadd.
  { intros x d Hx Hd. apply AddInt64_exact. unfold is_int64, minInt64, maxInt64 in *. lia. }
  destruct op as [ | d [|] | | | d [|] | ]; simpl;
    rewrite ?Hadd by lia; repeat split; lia.
Qed.

Lemma counters_count_witness :
  let m := metrics_ (record_all [OpRecordRequest; OpRecordRPCCall 5 false;
                                 OpRecordRequestComplete 7 false]
                       (NewMetricsCollector 0)) in
  TotalRequests m = 1 /\ FailedRequests m = 1 /\ ActiveRequests m = 0 /\
  RPCCalls m = 1 /\ RPCFailures m = 1.
Proof.
  pose proof (counters_count [OpRecordRequest; OpRecordRPCCall 5 false;
                              OpRecordRequestComplete 7 false] 0
                ltac:(unfold maxInt64; simpl; lia))
    as (Ht & Hs & Hf & _ & _ & Hr & Hrf & _ & Ha & _).
  cbv zeta. rewrite Ha, Ht, Hs, Hf, Hr, Hrf. by vm_compute.
Defined.

Lemma record_all_min_max ops : forall mc,
  MinResponseTime (metrics_ (record_all ops mc)) <= MinResponseTime (metrics_ mc) /\
  MaxResponseTime (metrics_ mc) <= MaxResponseTime (metrics_ (record_all ops mc)).
Proof.
  induction ops as [|op ops IH]; intros mc; [simpl; lia |].
  change (record_all (op :: ops) mc) with (record_all ops (record op mc)).
  destruct (IH (record op mc)) as [Hmin Hmax].
  assert (MinResponseTime (metrics_ (record op mc)) <= MinResponseTime (metrics_ mc) /\
          MaxResponseTime (metrics_ mc) <= MaxResponseTime (metrics_ (record op mc)))
    as [Hmin1 Hmax1]; [|lia].
  destruct op as [ | d [|] | | | d [|] | ]; simpl; try lia;
    repeat match goal with |- context [?a <? ?b] => destruct (Z.ltb_spec a b) end; lia.
Qed.

(** X11. The recorded extremes bracket every recorded duration: after
    any run of recording operations, whatever the collector held before,
    [MinResponseTime] is at most and [MaxResponseTime] at least the
    duration of every request completed in the run. *)
Theorem min_max_bracket_durations (ops : list recording) (mc : MetricsCollector)
    (duration : Duration) (success : bool) :
  In (OpRecordRequestComplete duration success) ops ->
  MinResponseTime (metrics_ (record_all ops mc)) <= duration /\
  duration <= MaxResponseTime (metrics_ (record_all ops mc)).
Proof.
  revert mc. induction ops as [|op ops IH]; intros mc Hin; [done |].
  change (record_all (op :: ops) mc) with (record_all ops (record op mc)).
  destruct Hin as [-> | Hin]; [|by apply IH].
  destruct (record_all_min_max ops (record (OpRecordRequestComplete duration success) mc))
    as [Hmin Hmax].
  assert (MinResponseTime (metrics_ (record (OpRecordRequestComplete duration success) mc))
            <= duration /\
          duration <=
            MaxResponseTime (metrics_ (record (OpRecordRequestComplete duration success) mc)))
    as [Hmin1 Hmax1]; [|lia].
  destruct success; simpl;
    repeat match goal with |- context [?a <? ?b] => destruct (Z.ltb_spec a b) end; lia.
Qed.

Lemma min_max_bracket_durations_witness :
  MinResponseTime (metrics_ (record_all [OpRecordRequestComplete 30 true; OpRecordCacheHit;
                                         OpRecordRequestComplete 10 false]
                               (NewMetricsCollector 0))) <= 30 /\
  30 <= MaxResponseTime (metrics_ (record_all [OpRecordRequestComplete 30 true;
                                               OpRecordCacheHit;
                                               OpRecordRequestComplete 10 false]
                                     (NewMetricsCollector 0))).
Proof.
  apply (min_max_bracket_durations _ (NewMetricsCollector 0) 30 true). by left.
Defined.

End metrics_accounting.

(** ** The upstream client: the retry loop under every upstream *)

Section retry_loop.

Import solana.

Context {PublicKey : Type}.
Variable PublicKeyFromBase58 : string -> PublicKey * option error.
Variable rpc_GetBalance : Duration -> PublicKey -> Z -> option Z * option error.
Variable config : RPCConfig.
Variable pubKey : PublicKey.

(** The loop entered at [attempt], whatever the upstream answers: it
    ends within the remaining budget, after [k] requests numbered from
    [attempt] on with [k - 1] sleeps between them; every request but the
    last failed, and the last one decides how the call ends. *)
Lemma retry_shape (n : nat) : forall attempt lastErr trace,
  0 <= attempt -> MaxRetries config < maxInt64 ->
  attempt + Z.of_nat n = MaxRetries config + 1 ->
  exists r trace' k,
    retry rpc_GetBalance config n pubKey attempt lastErr trace = Some (r, trace') /\
    0 <= k <= Z.of_nat n /\ (n ≠ O -> 1 <= k) /\
    attempts trace' =
      attempts trace ++ ((fun j => (j, Timeout config)) <$> seqZ attempt k) /\
    sleeps trace' =
      sleeps trace ++
      ((fun j => wrap64 (RetryDelay config * (j + 1))) <$> seqZ attempt (k - 1)) /\
    (forall j, attempt <= j < attempt + k - 1 ->
       (rpc_GetBalance (Timeout config) pubKey j).2 ≠ None) /\
    (n = O -> exists e, r = Ok (0%float, Some e)) /\
    (n ≠ O ->
     ends_with r (rpc_GetBalance (Timeout config) pubKey (attempt + k - 1)) k (Z.of_nat n)).
Proof.
  induction n as [|n IH]; intros attempt lastErr trace Hlo Hfit Hsum.
  - cbn [retry]. destruct (Z.leb_spec attempt (MaxRetries config)); [lia |].
    eexists _, trace, 0. split; [reflexivity |].
    rewrite !seqZ_nil, !app_nil_r by lia.
    repeat split; try done; try lia. eauto.
  - cbn [retry]. destruct (Z.leb_spec attempt (MaxRetries config)); [|lia].
    destruct (rpc_GetBalance (Timeout config) pubKey attempt) as [bal [e|]] eqn:Hrpc.
    + assert (wrap64 (attempt + 1) = attempt + 1) as ->
        by (apply wrap64_id; unfold is_int64, minInt64, maxInt64 in *; lia).
      edestruct (IH (attempt + 1) (Some e))
        as (r & trace' & k & -> & Hk & Hk1 & Hatt & Hsl & Hfail & Hzero & Hend);
        [lia | done | lia |].
      exists r, trace', (k + 1). split; [done |].
      split; [lia |]. split; [lia |].
      rewrite (seqZ_cons attempt (k + 1)) by lia.
      replace (Z.pred (k + 1)) with k by lia. replace (k + 1 - 1) with k by lia.
      replace (Z.succ attempt) with (attempt + 1) by lia.
      split; [|split; [|split; [|split]]].
      * rewrite Hatt. unfold attempts at 1.
        destruct (attempt <? MaxRetries config); rewrite ?omap_app; simpl;
          rewrite ?app_nil_r, <- ?app_assoc; done.
      * rewrite Hsl. destruct (Z.ltb_spec attempt (MaxRetries config)).
        -- destruct n as [|n]; [lia |]. specialize (Hk1 ltac:(done)).
           rewrite (seqZ_cons attempt k) by lia.
           replace (Z.succ attempt) with (attempt + 1) by lia.
           replace (Z.pred k) with (k - 1) by lia.
           unfold sleeps at 1. rewrite !omap_app. simpl.
           by rewrite app_nil_r, <- app_assoc.
        -- assert (n = O) as -> by lia. assert (k = 0) as -> by lia.
           rewrite !seqZ_nil by lia. unfold sleeps at 1. rewrite omap_app. simpl.
           by rewrite !app_nil_r.
      * intros j Hj. destruct (decide (j = attempt)) as [-> | Hne].
        -- by rewrite Hrpc.
        -- apply Hfail. lia.
      * done.
      * intros _. destruct (decide (n = O)) as [-> | Hn].
        -- assert (k = 0) as -> by lia. destruct (Hzero eq_refl) as [e' ->].
           replace (attempt + (0 + 1) - 1) with attempt by lia. rewrite Hrpc.
           by cbn.
        -- specialize (Hend Hn).
           replace (attempt + (k + 1) - 1) with (attempt + 1 + k - 1) by lia.
           unfold ends_with in *. destruct r as [[v [e'|]] | msg | msg | ]; try done.
           destruct Hend as (-> & Hlast & ->). split; [done |]. split; [done | lia].
    + destruct bal as [lamports|].
      * exists (Ok ((float64_of_uint64 lamports / 1e9)%float, None)),
          (trace ++ [Attempt attempt (Timeout config)]), 1.
        split; [done |]. split; [lia |]. split; [lia |].
        replace (attempt + 1 - 1) with attempt by lia. rewrite Hrpc.
        rewrite (seqZ_cons attempt 1), !seqZ_nil by lia.
        unfold attempts, sleeps. rewrite !omap_app. simpl. rewrite !app_nil_r.
        repeat split; try done; try lia. intros _. by exists lamports.
      * exists (Panic nil_dereference), (trace ++ [Attempt attempt (Timeout config)]), 1.
        split; [done |]. split; [lia |]. split; [lia |].
        replace (attempt + 1 - 1) with attempt by lia. rewrite Hrpc.
        rewrite (seqZ_cons attempt 1), !seqZ_nil by lia.
        unfold attempts, sleeps. rewrite !omap_app. simpl. rewrite !app_nil_r.
        repeat split; try done; lia.
Qed.

(** X12. With [0 <= MaxRetries < 2^63 - 1] and an address that parses,
    whatever the upstream answers, [GetBalance] ends within
    [MaxRetries + 1] iterations, after at least one and at most
    [MaxRetries + 1] requests, each under the configured timeout, with
    exactly one sleep between consecutive requests (none after the
    last).  Every request but the last failed, and the call ends on the
    last one: it returns its lamports in SOL when it carries a result
    and no error, it panics on a nil dereference when it carries neither
    a result nor an error, and it returns 0 and an error when it failed
    too, which is then the request number [MaxRetries + 1]. *)
Theorem GetBalance_bounded_retries (address : string) :
  0 <= MaxRetries config < maxInt64 ->
  PublicKeyFromBase58 address = (pubKey, None) ->
  exists r trace,
    GetBalance PublicKeyFromBase58 rpc_GetBalance config
      (S (Z.to_nat (MaxRetries config))) address = Some (r, trace) /\
    (1 <= length (attempts trace) <= S (Z.to_nat (MaxRetries config)))%nat /\
    S (length (sleeps trace)) = length (attempts trace) /\
    Forall (fun a => a.2 = Timeout config) (attempts trace) /\
    (forall j, 0 <= j < Z.of_nat (length (attempts trace)) - 1 ->
       (rpc_GetBalance (Timeout config) pubKey j).2 ≠ None) /\
    ends_with r
      (rpc_GetBalance (Timeout config) pubKey (Z.of_nat (length (attempts trace)) - 1))
      (Z.of_nat (length (attempts trace))) (MaxRetries config + 1).
Proof.
  intros Hfit Hparse. unfold GetBalance. rewrite Hparse.
  destruct (retry_shape (S (Z.to_nat (MaxRetries config))) 0 None [])
    as (r & trace & k & -> & Hk & Hk1 & Hatt & Hsl & Hfail & _ & Hend);
    [lia | lia | lia |].
  specialize (Hk1 ltac:(done)). specialize (Hend ltac:(done)).
  exists r, trace. split; [done |].
  rewrite Hatt, Hsl. simpl. rewrite !length_fmap, !length_seqZ.
  split; [lia |]. split; [lia |]. split; [| split].
  - apply Forall_fmap, Forall_forall. by intros.
  - intros j Hj. apply Hfail. lia.
  - replace (Z.of_nat (Z.to_nat k) - 1) with (0 + k - 1) by lia.
    replace (Z.of_nat (Z.to_nat k)) with k by lia.
    replace (MaxRetries config + 1) with (Z.of_nat (S (Z.to_nat (MaxRetries config))))
      by lia.
    exact Hend.
Qed.

(** X13. [GetBalance] stops at the first success: when requests
    [0 .. k-1] fail and request [k] (within the budget) succeeds, the call
    returns the lamports of request [k] converted to SOL and a nil error,
    after exactly [k + 1] requests and the [k] sleeps
    [RetryDelay * 1, ..., RetryDelay * k]. *)
Theorem GetBalance_stops_at_first_success (address : string) (k lamports : Z) :
  0 <= k <= MaxRetries config -> MaxRetries config < maxInt64 ->
  PublicKeyFromBase58 address = (pubKey, None) ->
  (forall j, 0 <= j < k -> (rpc_GetBalance (Timeout config) pubKey j).2 ≠ None) ->
  rpc_GetBalance (Timeout config) pubKey k = (Some lamports, None) ->
  exists trace,
    GetBalance PublicKeyFromBase58 rpc_GetBalance config
      (S (Z.to_nat (MaxRetries config))) address
      = Some (Ok ((float64_of_uint64 lamports / 1e9)%float, None), trace) /\
    attempts trace = (fun j => (j, Timeout config)) <$> seqZ 0 (k + 1) /\
    sleeps trace = (fun j => wrap64 (RetryDelay config * (j + 1))) <$> seqZ 0 k.
Proof.
  intros Hk Hfit Hparse Hfails Hok. unfold GetBalance. rewrite Hparse.
  destruct (retry_shape (S (Z.to_nat (MaxRetries config))) 0 None [])
    as (r & trace & k' & -> & Hk' & Hk1 & Hatt & Hsl & Hfail & _ & Hend);
    [lia | lia | lia |].
  specialize (Hk1 ltac:(done)). specialize (Hend ltac:(done)). simpl in Hatt, Hsl.
  assert (k' = k + 1 \/ (k' - 1 > k) \/
          (k' - 1 < k /\ (rpc_GetBalance (Timeout config) pubKey (0 + k' - 1)).2 = None) \/
          (k' - 1 = k /\ rpc_GetBalance (Timeout config) pubKey (0 + k' - 1) ≠
                           (Some lamports, None))) as Hcases.
  { destruct (Z.lt_trichotomy (k' - 1) k) as [Hlt | [Heq | Hgt]]; [| left; lia | right; left; lia].
    destruct ((rpc_GetBalance (Timeout config) pubKey (0 + k' - 1)).2) eqn:Hl; [| by eauto 6].
    exfalso. unfold ends_with in Hend.
    destruct r as [[v [e'|]] | msg | msg | ]; try done.
    - destruct Hend as (_ & _ & ?). lia.
    - destruct Hend as (lam & Hl' & _). by rewrite Hl' in Hl.
    - destruct Hend as [Hl' _]. by rewrite Hl' in Hl. }
  destruct Hcases as [-> | [Hgt | [[Hlt Hnone] | [Heq Hne]]]].
  - replace (0 + (k + 1) - 1) with k in Hend by lia. rewrite Hok in Hend.
    unfold ends_with in Hend. destruct r as [[v [e'|]] | msg | msg | ]; try done.
    + by destruct Hend as (_ & ? & _).
    + destruct Hend as (lam & [= <-] & ->).
      exists trace. split; [done |]. split; [done |].
      rewrite Hsl. by replace (k + 1 - 1) with k by lia.
    + by destruct Hend as [[=] _].
  - exfalso. apply (Hfail k); [lia |]. by rewrite Hok.
  - exfalso. by apply (Hfails (0 + k' - 1)); [lia |].
  - exfalso. apply Hne. replace (0 + k' - 1) with k by lia. done.
Qed.

(** X14. [GetBalance] contacts the upstream only for an address that
    parses and a non-negative retry budget: for an address that
    [PublicKeyFromBase58] rejects, or with [MaxRetries < 0], it issues no
    request and sleeps never, and returns the value 0 and an error, which
    for a rejected address wraps the parse error. *)
Theorem GetBalance_without_request (fuel : nat) (address : string) :
  (PublicKeyFromBase58 address).2 ≠ None \/ MaxRetries config < 0 ->
  exists err,
    GetBalance PublicKeyFromBase58 rpc_GetBalance config fuel address
      = Some (Ok (0%float, Some err), []) /\
    (forall e, (PublicKeyFromBase58 address).2 = Some e ->
       Unwrap err = Some e /\ Error err = "invalid wallet address: " +:+ Error e).
Proof.
  intros Hcase. unfold GetBalance.
  destruct (PublicKeyFromBase58 address) as [pk [e|]] eqn:Hparse; simpl in *.
  - eexists. split; [reflexivity |]. by intros e' [= <-].
  - destruct Hcase as [Hbad | Hneg]; [done |].
    destruct fuel; cbn [retry]; (destruct (Z.leb_spec 0 (MaxRetries config)); [lia |]);
      eexists; (split; [reflexivity | done]).
Qed.

Lemma sum_linear_delays (d : Z) (n : nat) :
  2 * foldr Z.add 0 ((fun j => d * (j + 1)) <$> seqZ 0 (Z.of_nat n))
    = d * Z.of_nat n * (Z.of_nat n + 1).
Proof.
  induction n as [|n IH]; [rewrite seqZ_nil by lia; simpl; lia |].
  rewrite seqZ_S, fmap_app, foldr_app. simpl.
  rewrite Z.add_0_r.
  assert (forall l a, foldr Z.add a l = a + foldr Z.add 0 l) as Hshift.
  { induction l as [|x l IHl]; intros a; simpl; [lia |]. rewrite (IHl a). lia. }
  rewrite Hshift. lia.
Qed.

(** X15. The time a failing call spends asleep: when every request
    fails, the retry delay is non-negative and [RetryDelay * MaxRetries]
    fits an int64, the sleeps of [GetBalance] add up to
    [RetryDelay * MaxRetries * (MaxRetries + 1) / 2]. *)
Theorem GetBalance_total_backoff (address : string) (failure : Z -> error) :
  0 <= MaxRetries config < maxInt64 ->
  0 <= RetryDelay config ->
  RetryDelay config * MaxRetries config <= maxInt64 ->
  PublicKeyFromBase58 address = (pubKey, None) ->
  (forall k, 0 <= k <= MaxRetries config ->
     (rpc_GetBalance (Timeout config) pubKey k).2 = Some (failure k)) ->
  exists err trace,
    GetBalance PublicKeyFromBase58 rpc_GetBalance config
      (S (Z.to_nat (MaxRetries config))) address = Some (Ok (0%float, Some err), trace) /\
    2 * total_sleep trace
      = RetryDelay config * MaxRetries config * (MaxRetries config + 1).
Proof.
  intros Hfit Hd Hprod Hparse Hfail.
  destruct (GetBalance_exhausted PublicKeyFromBase58 rpc_GetBalance config pubKey failure
              Hfit Hfail address Hparse) as (err & trace & Hrun & _ & _ & Hsl).
  exists err, trace. split; [done |]. unfold total_sleep. rewrite Hsl.
  replace ((fun k => wrap64 (RetryDelay config * (k + 1))) <$> seqZ 0 (MaxRetries config))
    with ((fun k => RetryDelay config * (k + 1)) <$> seqZ 0 (MaxRetries config)).
  - pose proof (sum_linear_delays (RetryDelay config) (Z.to_nat (MaxRetries config))) as Hsum.
    rewrite Z2Nat.id in Hsum by lia. done.
  - apply list_fmap_ext. intros i k Hk.
    apply lookup_seqZ in Hk as [-> Hi].
    symmetry. apply wrap64_id. unfold is_int64, minInt64, maxInt64 in *. nia.
Qed.

End retry_loop.

Section retry_examples.

Import solana.

(** An upstream that fails twice and then answers 3.5 SOL. *)
Lemma GetBalance_bounded_retries_witness :
  exists r trace,
    GetBalance examples.parse_any examples.rpc_flaky examples.rpc_config 4 "wallet"
      = Some (r, trace) /\
    (1 <= length (attempts trace) <= 4)%nat /\
    S (length (sleeps trace)) = length (attempts trace) /\
    Forall (fun a => a.2 = 30 * Second) (attempts trace) /\
    (forall j, 0 <= j < Z.of_nat (length (attempts trace)) - 1 ->
       (examples.rpc_flaky (30 * Second) "wallet" j).2 ≠ None) /\
    ends_with r
      (examples.rpc_flaky (30 * Second) "wallet" (Z.of_nat (length (attempts trace)) - 1))
      (Z.of_nat (length (attempts trace))) (3 + 1).
Proof.
  apply (GetBalance_bounded_retries examples.parse_any examples.rpc_flaky
           examples.rpc_config "wallet" "wallet").
  - unfold maxInt64; simpl; lia.
  - reflexivity.
Defined.

(** The nil answer: an upstream that answers the first request with a
    nil result and a nil error makes [GetBalance] panic after that one
    request, without a sleep. *)
Example GetBalance_nil_result_panics :
  GetBalance examples.parse_any examples.rpc_null examples.rpc_config 4 "wallet"
  = Some (Panic nil_dereference, [Attempt 0 (30 * Second)]).
Proof. reflexivity. Qed.

Lemma GetBalance_stops_at_first_success_witness :
  exists trace,
    GetBalance examples.parse_any examples.rpc_flaky examples.rpc_config 4 "wallet"
      = Some (Ok ((float64_of_uint64 3500000000 / 1e9)%float, None), trace) /\
    attempts trace = (fun j => (j, 30 * Second)) <$> seqZ 0 3 /\
    sleeps trace = (fun j => wrap64 (1 * Second * (j + 1))) <$> seqZ 0 2.
Proof.
  apply (GetBalance_stops_at_first_success examples.parse_any examples.rpc_flaky
           examples.rpc_config "wallet" "wallet" 2 3500000000).
  - simpl; lia.
  - unfold maxInt64; simpl; lia.
  - reflexivity.
  - intros j Hj. unfold examples.rpc_flaky.
    destruct (Z.ltb_spec j 2); [done | lia].
  - reflexivity.
Defined.

Lemma GetBalance_without_request_witness :
  exists err,
    GetBalance examples.parse_none examples.rpc_down examples.rpc_config 4 "not-base58"
      = Some (Ok (0%float, Some err), []) /\
    (forall e, (examples.parse_none "not-base58").2 = Some e ->
       Unwrap err = Some e /\ Error err = "invalid wallet address: " +:+ Error e).
Proof.
  apply (GetBalance_without_request examples.parse_none examples.rpc_down
           examples.rpc_config 4 "not-base58").
  left. done.
Defined.

Lemma GetBalance_total_backoff_witness :
  exists err trace,
    GetBalance examples.parse_any examples.rpc_down examples.rpc_config 4 "wallet"
      = Some (Ok (0%float, Some err), trace) /\
    2 * total_sleep trace = 1 * Second * 3 * (3 + 1).
Proof.
  apply (GetBalance_total_backoff examples.parse_any examples.rpc_down
           examples.rpc_config "wallet" "wallet"
           (fun _ => errorString "connection refused")).
  - unfold maxInt64; simpl; lia.
  - simpl. unfold Second, Millisecond, Microsecond, Nanosecond. lia.
  - unfold maxInt64; simpl. unfold Second, Millisecond, Microsecond, Nanosecond. lia.
  - reflexivity.
  - intros k Hk. reflexivity.
Defined.

End retry_examples.

(** ** The upstream client: batch requests *)

Section batch_requests.

Import solana.

Context {PublicKey : Type}.
Variable PublicKeyFromBase58 : string -> PublicKey * option error.
Variable rpc_GetMultipleAccounts :
  Duration -> list PublicKey -> nat -> list (option Z) * option error.
Variable config : RPCConfig.

Local Abbreviation parses := (fun address pubKey => PublicKeyFromBase58 address = (pubKey, None)).
Local Abbreviation batch := (getBalancesBatch PublicKeyFromBase58 rpc_GetMultipleAccounts config).

Lemma parse_all_inr addresses pubKeys :
  parse_all PublicKeyFromBase58 addresses = inr pubKeys <-> Forall2 parses addresses pubKeys.
Proof.
  revert pubKeys. induction addresses as [|a l IH]; intros pubKeys; simpl.
  - split; [intros [= <-]; constructor | by intros ->%Forall2_nil_inv_l].
  - destruct (PublicKeyFromBase58 a) as [pk [e|]] eqn:Ha.
    + split; [done |]. intros (pk' & pks & Hpk & _ & _)%Forall2_cons_inv_l. congruence.
    + destruct (parse_all PublicKeyFromBase58 l) as [e | pks] eqn:Hl.
      * split; [done |]. intros (pk' & pks & _ & Hpks & _)%Forall2_cons_inv_l.
        by apply IH in Hpks.
      * split.
        -- intros [= <-]. constructor; [done | by apply IH].
        -- intros (pk' & pks' & Hpk & Hpks & ->)%Forall2_cons_inv_l.
           apply IH in Hpks. congruence.
Qed.

Lemma parse_all_first_invalid pre a post e :
  (forall x, x ∈ pre -> (PublicKeyFromBase58 x).2 = None) ->
  (PublicKeyFromBase58 a).2 = Some e ->
  parse_all PublicKeyFromBase58 (pre ++ a :: post)
    = inl (Errorf_w ("invalid wallet address " +:+ a +:+ ": ") (Some e)).
Proof.
  intros Hpre Ha. induction pre as [|x pre IH]; simpl.
  - destruct (PublicKeyFromBase58 a) as [pk err]. simpl in Ha. by subst err.
  - pose proof (Hpre x ltac:(left)) as Hx.
    destruct (PublicKeyFromBase58 x) as [pk err]. simpl in Hx. subst err.
    rewrite IH; [done |]. intros y Hy. apply Hpre. by right.
Qed.

(** X16. [getBalancesBatch] validates before it asks: when an address of
    the batch does not parse, no request is issued at all, the map is
    nil, and the error names the first such address and wraps its parse
    error. *)
Theorem getBalancesBatch_validates_first (n : nat) (pre post : list string) (a : string)
    (e : error) :
  (forall x, x ∈ pre -> (PublicKeyFromBase58 x).2 = None) ->
  (PublicKeyFromBase58 a).2 = Some e ->
  exists err,
    batch n (pre ++ a :: post) = (None, Some err, []) /\
    Unwrap err = Some e /\
    Error err = ("invalid wallet address " +:+ a +:+ ": ") +:+ Error e.
Proof.
  intros Hpre Ha. unfold getBalancesBatch.
  rewrite (parse_all_first_invalid _ _ _ _ Hpre Ha). eexists. split; [reflexivity |].
  by split.
Qed.

Lemma collect_notin addresses value : forall i result a,
  a ∉ addresses -> collect i addresses value result !! a = result !! a.
Proof.
  induction addresses as [|x l IH]; intros i result a Hnotin; [done |].
  apply not_elem_of_cons in Hnotin as [Hne Hnotin].
  cbn [collect]. rewrite IH by done. by rewrite lookup_insert_ne.
Qed.

Lemma collect_unique addresses value : forall i result j a,
  addresses !! j = Some a ->
  (forall j', addresses !! j' = Some a -> j' = j) ->
  collect i addresses value result !! a =
    Some match value !! (i + j)%nat with
         | Some (Some lamports) => (float64_of_uint64 lamports / 1e9)%float
         | _ => 0%float
         end.
Proof.
  induction addresses as [|x l IH]; intros i result j a Hj Huniq; [done |].
  cbn [collect]. destruct j as [|j]; simpl in Hj.
  - injection Hj as ->. rewrite collect_notin.
    + by rewrite lookup_insert_eq, Nat.add_0_r.
    + intros [j' Hj']%list_elem_of_lookup. by specialize (Huniq (S j') Hj').
  - rewrite (IH (S i) _ j a Hj).
    + by replace (S i + j)%nat with (i + S j)%nat by lia.
    + intros j' Hj'. specialize (Huniq (S j') Hj'). lia.
Qed.

Lemma collect_dom addresses value i result a :
  is_Some (collect i addresses value result !! a) <-> a ∈ addresses \/ is_Some (result !! a).
Proof.
  revert i result. induction addresses as [|x l IH]; intros i result; simpl.
  - split; [by right | intros [[]%elem_of_nil | H]; done].
  - rewrite IH. rewrite elem_of_cons. destruct (decide (x = a)) as [-> | Hne].
    + rewrite lookup_insert_eq. split; [by left; left | by right].
    + rewrite lookup_insert_ne by done.
      split; [tauto | intros [[Heq | ?] | ?]; [by subst | tauto | tauto]].
Qed.

(** X17. A batch that parses and is answered gives every address an
    entry, and nothing else: the single request carries the keys in
    order under the configured timeout, and an address that occurs once,
    at index [j], is mapped to the lamports of slot [j] in SOL, or to 0
    when the slot is nil or the answer is too short to have it. *)
Theorem getBalancesBatch_answers_every_address (n : nat) (addresses : list string)
    (pubKeys : list PublicKey) (value : list (option Z)) :
  Forall2 parses addresses pubKeys ->
  rpc_GetMultipleAccounts (Timeout config) pubKeys n = (value, None) ->
  exists m,
    batch n addresses = (Some m, None, [(pubKeys, Timeout config)]) /\
    (forall a, is_Some (m !! a) <-> a ∈ addresses) /\
    (forall j a, addresses !! j = Some a ->
       (forall j', addresses !! j' = Some a -> j' = j) ->
       m !! a = Some match value !! j with
                     | Some (Some lamports) => (float64_of_uint64 lamports / 1e9)%float
                     | _ => 0%float
                     end).
Proof.
  intros Hparse Hrpc. unfold getBalancesBatch.
  rewrite (proj2 (parse_all_inr _ _) Hparse), Hrpc.
  eexists. split; [reflexivity |]. split.
  - intros a. rewrite collect_dom, lookup_empty. split; [intros [? | [? [=]]]; done | by left].
  - intros j a Hj Huniq. by rewrite (collect_unique _ _ 0 ∅ j a Hj Huniq).
Qed.

Lemma chunk_is_take (addresses : list string) i :
  (i < length addresses)%nat ->
  take ((if decide (length addresses < i + 100)%nat
         then length addresses else (i + 100)%nat) - i) (drop i addresses)
    = take 100 (drop i addresses).
Proof.
  intros Hi. case_decide; [|f_equal; lia].
  rewrite !take_ge; [done | |]; rewrite length_drop; lia.
Qed.

Lemma chunk_length (addresses : list string) i :
  (i < length addresses)%nat ->
  (1 <= length (take 100 (drop i addresses)) <= 100)%nat.
Proof. intros Hi. rewrite length_take, length_drop. lia. Qed.

Lemma drop_chunk (addresses : list string) i :
  drop i addresses = take 100 (drop i addresses) ++ drop (i + 100) addresses.
Proof. by rewrite <- (take_drop 100 (drop i addresses)) at 1; rewrite drop_drop. Qed.

(** One batch, whatever the parser and the upstream answer. *)
Lemma batch_any n l :
  exists m err requests,
    batch n l = (m, err, requests) /\
    Forall (fun rq => length rq.1 = length l /\ rq.2 = Timeout config) requests /\
    ((exists mm, m = Some mm /\ err = None /\ forall a, is_Some (mm !! a) <-> a ∈ l) \/
     (m = None /\ err ≠ None)).
Proof.
  unfold getBalancesBatch.
  destruct (parse_all PublicKeyFromBase58 l) as [e | pks] eqn:Hp.
  - eexists _, _, _. split; [reflexivity |]. split; [constructor | by right].
  - apply parse_all_inr, Forall2_length in Hp.
    destruct (rpc_GetMultipleAccounts (Timeout config) pks n) as [value [e|]].
    + eexists _, _, _. split; [reflexivity |].
      split; [by repeat constructor | by right].
    + eexists _, _, _. split; [reflexivity |]. split; [by repeat constructor |].
      left. eexists. split; [done |]. split; [done |].
      intros a. rewrite collect_dom, lookup_empty.
      split; [intros [? | [? [=]]]; done | by left].
Qed.

Lemma chunk_loop_any addresses fuel : forall i result trace,
  (length addresses <= i + 100 * fuel)%nat ->
  exists m err new,
    chunk_loop PublicKeyFromBase58 rpc_GetMultipleAccounts config fuel addresses i result trace
      = Some (m, err, trace ++ new) /\
    Forall (fun rq => (1 <= length rq.1 <= 100)%nat /\ rq.2 = Timeout config) new /\
    ((exists mm, m = Some mm /\ err = None /\
        forall a, is_Some (mm !! a) <-> a ∈ drop i addresses \/ is_Some (result !! a)) \/
     (m = None /\ err ≠ None)).
Proof.
  induction fuel as [|fuel IH]; intros i result trace Hfuel.
  - cbn [chunk_loop]. rewrite decide_False by lia.
    exists (Some result), None, []. rewrite app_nil_r. split; [done |].
    split; [constructor |]. left. eexists. split; [done |]. split; [done |].
    intros a. rewrite drop_ge by lia. split; [by right | intros [[]%elem_of_nil | ?]; done].
  - cbn [chunk_loop]. case_decide as Hi.
    + rewrite (chunk_is_take _ _ Hi).
      destruct (batch_any (length trace) (take 100 (drop i addresses)))
        as (m & err & requests & -> & Hreq & Hcase).
      assert (Forall (fun rq : list PublicKey * Duration =>
                        (1 <= length rq.1 <= 100)%nat /\ rq.2 = Timeout config) requests)
        as Hreq'.
      { eapply Forall_impl; [exact Hreq |]. intros rq [-> ->]. split; [|done].
        by apply chunk_length. }
      destruct Hcase as [(mm & -> & -> & Hdom) | [-> Herr]].
      * destruct (IH (i + 100)%nat (default ∅ (Some mm) ∪ result) (trace ++ requests))
          as (m & err & new & -> & Hnew & Hcase); [lia |].
        exists m, err, (requests ++ new). rewrite app_assoc. split; [done |].
        split; [by apply Forall_app |].
        destruct Hcase as [(mm' & -> & -> & Hdom') | ?]; [left | by right].
        eexists. split; [done |]. split; [done |]. intros a.
        rewrite Hdom'. simpl. rewrite lookup_union_is_Some, Hdom.
        pose proof (drop_chunk addresses i) as Hsplit.
        set (chunk := take 100 (drop i addresses)) in *.
        rewrite Hsplit, elem_of_app. tauto.
      * destruct err as [e|]; [|done].
        eexists None, _, requests. split; [reflexivity |]. split; [done |]. by right.
    + exists (Some result), None, []. rewrite app_nil_r. split; [done |].
      split; [constructor |]. left. eexists. split; [done |]. split; [done |].
      intros a. rewrite drop_ge by lia.
      split; [by right | intros [[]%elem_of_nil | ?]; done].
Qed.

(** X18. [GetBalances] is all or nothing, whatever the parser and the
    upstream answer: with fuel for one iteration per address it returns,
    every batch request it issued carries between 1 and 100 keys under
    the configured timeout, and it yields either a nil error and a map
    with an entry for exactly the input addresses, or a nil map and an
    error; the balances of the chunks fetched before a failure are
    dropped. *)
Theorem GetBalances_all_or_nothing (addresses : list string) :
  exists m err trace,
    solana.GetBalances PublicKeyFromBase58 rpc_GetMultipleAccounts config
      (length addresses) addresses = Some (m, err, trace) /\
    Forall (fun rq => (1 <= length rq.1 <= 100)%nat /\ rq.2 = Timeout config) trace /\
    ((exists mm, m = Some mm /\ err = None /\ forall a, is_Some (mm !! a) <-> a ∈ addresses) \/
     (m = None /\ err ≠ None)).
Proof.
  unfold solana.GetBalances. case_decide as Hz.
  - exists (Some ∅), None, []. split; [done |]. split; [constructor |].
    left. eexists. split; [done |]. split; [done |].
    apply length_zero_iff_nil in Hz as ->. intros a. rewrite lookup_empty.
    split; [by intros [? [=]] | by intros []%elem_of_nil].
  - case_decide as Hsmall.
    + destruct (batch_any 0 addresses) as (m & err & requests & -> & Hreq & Hcase).
      exists m, err, requests. split; [done |]. split; [|done].
      eapply Forall_impl; [exact Hreq |]. intros rq [-> ->]. split; [lia | done].
    + destruct (chunk_loop_any addresses (length addresses) 0 ∅ [])
        as (m & err & new & -> & Hnew & Hcase); [lia |].
      exists m, err, new. split; [done |]. split; [done |].
      destruct Hcase as [(mm & -> & -> & Hdom) | ?]; [left | by right].
      eexists. split; [done |]. split; [done |]. intros a.
      rewrite Hdom, lookup_empty. simpl.
      split; [intros [? | [? [=]]]; done | by left].
Qed.

Lemma chunk_loop_success addresses pubKeys fuel :
  Forall2 parses addresses pubKeys ->
  (forall keys n, (rpc_GetMultipleAccounts (Timeout config) keys n).2 = None) ->
  forall i result trace,
  (length addresses <= i + 100 * fuel)%nat ->
  exists mm new,
    chunk_loop PublicKeyFromBase58 rpc_GetMultipleAccounts config fuel addresses i result trace
      = Some (Some mm, None, trace ++ new) /\
    length new = ((length addresses - i + 99) / 100)%nat /\
    (forall j rq, new !! j = Some rq ->
       rq = (take 100 (drop (i + 100 * j) pubKeys), Timeout config)).
Proof.
  intros Hparse Hok. induction fuel as [|fuel IH]; intros i result trace Hfuel.
  - cbn [chunk_loop]. rewrite decide_False by lia.
    exists result, []. rewrite app_nil_r. split; [done |].
    replace (length addresses - i)%nat with 0%nat by lia. by split.
  - cbn [chunk_loop]. case_decide as Hi.
    + rewrite (chunk_is_take _ _ Hi). unfold getBalancesBatch.
      assert (parse_all PublicKeyFromBase58 (take 100 (drop i addresses))
                = inr (take 100 (drop i pubKeys))) as ->
        by (apply parse_all_inr; by apply Forall2_take, Forall2_drop).
      pose proof (Hok (take 100 (drop i pubKeys)) (length trace)) as Hrpc.
      destruct (rpc_GetMultipleAccounts (Timeout config) (take 100 (drop i pubKeys))
                  (length trace)) as [value err]. simpl in Hrpc. subst err.
      edestruct (IH (i + 100)%nat) as (mm & new & -> & Hlen & Hnew); [lia |].
      eexists mm, (_ :: new). rewrite <- app_assoc. split; [reflexivity |]. split.
      * cbn [length]. rewrite Hlen.
        destruct (decide (length addresses <= i + 100)%nat) as [Hle | Hgt].
        -- replace (length addresses - (i + 100))%nat with 0%nat by lia.
           rewrite (Nat.div_small (0 + 99)) by lia.
           apply (Nat.div_unique _ _ _ (length addresses - i + 99 - 100)); lia.
        -- replace (length addresses - i + 99)%nat
             with (length addresses - (i + 100) + 99 + 1 * 100)%nat by lia.
           rewrite Nat.div_add by lia. lia.
      * intros [|j] rq; simpl.
        -- intros [= <-]. by rewrite Nat.add_0_r.
        -- intros Hj. rewrite (Hnew _ _ Hj). do 3 f_equal. lia.
    + exists result, []. rewrite app_nil_r. split; [done |].
      replace (length addresses - i)%nat with 0%nat by lia. by split.
Qed.

(** X19. How [GetBalances] cuts its input: when every address parses
    and every batch request is answered, it issues one request per
    started hundred of addresses, and request [j] carries exactly the
    keys of the addresses [100 j .. 100 j + 99], in order, under the
    configured timeout. *)
Theorem GetBalances_chunks_of_100 (addresses : list string) (pubKeys : list PublicKey) :
  Forall2 parses addresses pubKeys ->
  (forall keys n, (rpc_GetMultipleAccounts (Timeout config) keys n).2 = None) ->
  exists mm trace,
    solana.GetBalances PublicKeyFromBase58 rpc_GetMultipleAccounts config
      (length addresses) addresses = Some (Some mm, None, trace) /\
    length trace = ((length addresses + 99) / 100)%nat /\
    (forall j rq, trace !! j = Some rq ->
       rq = (take 100 (drop (100 * j) pubKeys), Timeout config)).
Proof.
  intros Hparse Hok. unfold solana.GetBalances. case_decide as Hz.
  - exists ∅, []. split; [done |]. rewrite Hz. by split.
  - case_decide as Hsmall.
    + unfold getBalancesBatch. rewrite (proj2 (parse_all_inr _ _) Hparse).
      pose proof (Hok pubKeys 0%nat) as Hrpc.
      destruct (rpc_GetMultipleAccounts (Timeout config) pubKeys 0) as [value err].
      simpl in Hrpc. subst err. eexists _, _. split; [reflexivity |]. split.
      * cbn [length]. apply (Nat.div_unique _ _ _ (length addresses - 1)); lia.
      * intros [|j] rq; simpl; [|done]. intros [= <-]. rewrite drop_0.
        rewrite take_ge; [done |]. apply Forall2_length in Hparse. lia.
    + destruct (chunk_loop_success addresses pubKeys (length addresses) Hparse Hok 0 ∅ [])
        as (mm & new & -> & Hlen & Hnew); [lia |].
      exists mm, new. split; [done |]. rewrite Hlen, Nat.sub_0_r. split; [done |].
      intros j rq Hj. by rewrite (Hnew _ _ Hj).
Qed.

End batch_requests.

Section batch_request_examples.

Import solana.

Lemma getBalancesBatch_validates_first_witness :
  exists err,
    getBalancesBatch examples.parse_strict examples.rpc_accounts examples.rpc_config 0
      (["w1"; "w2"] ++ "bad" :: ["w3"]) = (None, Some err, []) /\
    Unwrap err = Some (errorString "decode: invalid base58 digit") /\
    Error err = ("invalid wallet address " +:+ "bad" +:+ ": ")
                  +:+ Error (errorString "decode: invalid base58 digit").
Proof.
  apply (getBalancesBatch_validates_first examples.parse_strict examples.rpc_accounts
           examples.rpc_config 0 ["w1"; "w2"] ["w3"] "bad").
  - intros x Hx. apply list_elem_of_In in Hx. simpl in Hx.
    destruct Hx as [<- | [<- | []]]; reflexivity.
  - reflexivity.
Defined.

Lemma parse_strict_ok : Forall2 (fun address pubKey => examples.parse_strict address = (pubKey, None))
                          ["w1"; "w2"; "w3"] ["w1"; "w2"; "w3"].
Proof. repeat constructor. Qed.

Lemma getBalancesBatch_answers_every_address_witness :
  exists m,
    getBalancesBatch examples.parse_strict examples.rpc_accounts examples.rpc_config 0
      ["w1"; "w2"; "w3"] = (Some m, None, [(["w1"; "w2"; "w3"], 30 * Second)]) /\
    (forall a, is_Some (m !! a) <-> a ∈ ["w1"; "w2"; "w3"]) /\
    (forall j a, ["w1"; "w2"; "w3"] !! j = Some a ->
       (forall j', ["w1"; "w2"; "w3"] !! j' = Some a -> j' = j) ->
       m !! a = Some match [Some 1500000000; None] !! j with
                     | Some (Some lamports) => (float64_of_uint64 lamports / 1e9)%float
                     | _ => 0%float
                     end).
Proof.
  apply (getBalancesBatch_answers_every_address examples.parse_strict examples.rpc_accounts
           examples.rpc_config 0 ["w1"; "w2"; "w3"] ["w1"; "w2"; "w3"]
           [Some 1500000000; None] parse_strict_ok).
  reflexivity.
Defined.

Lemma GetBalances_chunks_of_100_witness :
  exists mm trace,
    solana.GetBalances examples.parse_strict examples.rpc_accounts examples.rpc_config
      (length ["w1"; "w2"; "w3"]) ["w1"; "w2"; "w3"] = Some (Some mm, None, trace) /\
    length trace = ((length ["w1"; "w2"; "w3"] + 99) / 100)%nat /\
    (forall j rq, trace !! j = Some rq ->
       rq = (take 100 (drop (100 * j) ["w1"; "w2"; "w3"]), 30 * Second)).
Proof.
  apply (GetBalances_chunks_of_100 examples.parse_strict examples.rpc_accounts
           examples.rpc_config ["w1"; "w2"; "w3"] ["w1"; "w2"; "w3"] parse_strict_ok).
  intros keys n. reflexivity.
Defined.

End batch_request_examples.

(** ** The balance service: one lookup at a time *)

Section lookup_alone.

Import models services.

Variable rpcClient : string -> nat -> float64 * option error.

Local Abbreviation alone := (fun t1 t2 t3 => getBalanceWithCache rpcClient t1 t2 t3 id id).

(** The paths of a lookup that runs alone on a service none of whose
    locks is held: served by the first cache check, or by the second
    (both as hits, without any upstream call and without touching the
    cache), or fetched: exactly one upstream call, whose value is stored
    in the cache on success and whose error is put in the result, with
    balance 0 and the cache untouched, on failure. *)
Lemma lookup_alone_cases (t1 t2 t3 : Time) (a : string) (w : world) :
  quiescent w ->
  exists wb cached w',
    alone t1 t2 t3 a w = Ok (wb, cached, w') /\
    quiescent w' /\ Address wb = a /\
    ((exists v, (cache.Get (bs_cache w) t1 a = (v, true) \/
                 (cache.Get (bs_cache w) t1 a).2 = false /\
                 cache.Get (bs_cache w) t2 a = (v, true)) /\
        wb = {| Address := a; Balance := v; Error := "" |} /\ cached = true /\
        bs_cache w' = bs_cache w /\ rpc_calls w' = rpc_calls w) \/
     ((cache.Get (bs_cache w) t1 a).2 = false /\ (cache.Get (bs_cache w) t2 a).2 = false /\
      cached = false /\ rpc_calls w' = rpc_calls w ++ [a] /\
      ((exists v, rpcClient a (length (rpc_calls w)) = (v, None) /\
          wb = {| Address := a; Balance := v; Error := "" |} /\
          bs_cache w' = cache.Set_ (bs_cache w) t3 a v) \/
       (exists v e, rpcClient a (length (rpc_calls w)) = (v, Some e) /\
          wb = {| Address := a; Balance := 0%float;
                  Error := "Failed to fetch balance: " +:+ gort.Error e |} /\
          bs_cache w' = bs_cache w)))).
Proof.
  intros Hq. unfold getBalanceWithCache.
  destruct (enter_cases t1 a w) as [[v Hv] | Hmiss].
  - rewrite (enter_hit _ _ _ _ Hv). eexists _, _, _. split; [reflexivity |].
    split; [by apply (quiescent_same w) |]. split; [done |].
    left. exists v. repeat split; eauto.
  - destruct (enter_miss_spec _ _ _ Hmiss) as (m & w1 & Henter & Hc1 & _ & Hq1).
    destruct (Hq1 Hq) as [Hqw1 Hm].
    pose proof (enter_rpc_calls t1 a w) as [Hr1 _]. rewrite Henter in Hr1 |- *.
    simpl in Hr1. unfold id.
    destruct (enter_cases t2 a w1) as [[v Hv] | Hmiss2].
    + destruct (locked_hit _ _ _ t1 _ _ Hm Hv) as (w2 & -> & Hc2 & Hrm2 & Hh2 & Hr2).
      cbn [mbind outcome_bind]. eexists _, _, _. split; [reflexivity |].
      split; [by apply (quiescent_same w1) |]. split; [done |].
      left. exists v. rewrite Hc1 in Hv. split; [by right |].
      repeat split; congruence.
    + destruct (locked_miss _ _ _ t1 _ Hm Hmiss2) as (w2 & -> & Hc2 & Hrm2 & Hh2 & Hr2).
      cbn [mbind outcome_bind].
      assert (sync_heap w2 !! m = Some true) as Hheld.
      { rewrite Hh2. apply list_lookup_insert_eq. by eapply lookup_lt_Some. }
      destruct (fetched_spec rpcClient t3 a m t2 (length (rpc_calls w1)) w2 Hheld)
        as (wb & w3 & Hf & Hh3 & Hrm3 & Hcase).
      pose proof (fetched_rpc_calls rpcClient _ _ _ _ _ _ _ _ Hf) as Hr3.
      rewrite Hf. cbn [mbind outcome_bind].
      eexists _, _, _. split; [reflexivity |]. split.
      { apply (quiescent_same w1); [congruence | | done].
        by rewrite Hh3, Hh2, list_insert_insert_eq, list_insert_id. }
      rewrite Hc1 in Hmiss2. rewrite Hr1 in *.
      split; [by destruct Hcase as [(v & _ & -> & _) | (v & e & _ & -> & _)] |].
      right. split; [done |]. split; [done |]. split; [done |].
      split; [congruence |].
      destruct Hcase as [(v & Hrpc & -> & Hc3) | (v & e & Hrpc & -> & Hc3)].
      * left. exists v. split; [done |]. split; [done |]. congruence.
      * right. exists v, e. split; [done |]. split; [done |]. congruence.
Qed.

(** X20. A lookup that runs alone on a service none of whose locks is
    held always returns, with every lock free again and the address in
    its result.  It is flagged cached exactly when one of its two cache
    checks hit; then it makes no upstream call, reports no error and
    leaves the cache as it was.  Otherwise it makes exactly one upstream
    call, for its own address. *)
Theorem lookup_alone_returns (t1 t2 t3 : Time) (a : string) (w : world) :
  quiescent w ->
  exists wb cached w',
    alone t1 t2 t3 a w = Ok (wb, cached, w') /\
    quiescent w' /\ Address wb = a /\
    (cached = true <->
       (cache.Get (bs_cache w) t1 a).2 = true \/ (cache.Get (bs_cache w) t2 a).2 = true) /\
    (if cached
     then rpc_calls w' = rpc_calls w /\ bs_cache w' = bs_cache w /\ Error wb = ""
     else rpc_calls w' = rpc_calls w ++ [a]).
Proof.
  intros Hq.
  destruct (lookup_alone_cases t1 t2 t3 a w Hq)
    as (wb & cached & w' & Hrun & Hq' & Ha & Hcase).
  exists wb, cached, w'. split; [done |]. split; [done |]. split; [done |].
  destruct Hcase as [(v & Hhit & -> & -> & Hc & Hr) | (Hm1 & Hm2 & -> & Hr & _)].
  - split; [| done]. split; [| done]. intros _.
    destruct Hhit as [-> | [_ ->]]; [by left | by right].
  - split; [| done]. split; [done |]. rewrite Hm1, Hm2. by intros [? | ?].
Qed.

(** X21. Cache-aside round trip: when a lookup running alone misses both
    cache checks and the upstream answers [v], the lookup returns [v] as
    not cached after one upstream call; a second lookup started within
    the TTL of the moment the value was stored returns the same [v] as
    cached, and the upstream is not called again. *)
Theorem fetch_then_hit (t1 t2 t3 t4 t5 t6 : Time) (a : string) (w : world) (v : float64) :
  quiescent w ->
  clock_reading t3 -> clock_reading t4 ->
  t4 - t3 <= cache.ttl (bs_cache w) ->
  (cache.Get (bs_cache w) t1 a).2 = false ->
  (cache.Get (bs_cache w) t2 a).2 = false ->
  rpcClient a (length (rpc_calls w)) = (v, None) ->
  exists w1 w2,
    alone t1 t2 t3 a w = Ok ({| Address := a; Balance := v; Error := "" |}, false, w1) /\
    rpc_calls w1 = rpc_calls w ++ [a] /\
    alone t4 t5 t6 a w1 = Ok ({| Address := a; Balance := v; Error := "" |}, true, w2) /\
    rpc_calls w2 = rpc_calls w1.
Proof.
  intros Hq Ht3 Ht4 Hfresh Hm1 Hm2 Hrpc.
  destruct (lookup_alone_cases t1 t2 t3 a w Hq)
    as (wb & cached & w1 & Hrun & Hq1 & _ & Hcase).
  destruct Hcase as [(v' & [Hhit | [_ Hhit]] & _) | (_ & _ & -> & Hr1 & Hcase)];
    [by rewrite Hhit in Hm1 | by rewrite Hhit in Hm2 |].
  destruct Hcase as [(v' & Hrpc' & -> & Hc1) | (v' & e & Hrpc' & _)]; [|congruence].
  assert (v' = v) as -> by congruence.
  assert (cache.Get (bs_cache w1) t4 a = (v, true)) as Hhit.
  { rewrite Hc1. unfold cache.Get, cache.Set_, Since; simpl.
    rewrite lookup_insert_eq; simpl. rewrite Sub_clock by done.
    destruct (Z.ltb_spec (cache.ttl (bs_cache w)) (t4 - t3)); [lia | done]. }
  destruct (lookup_alone_cases t4 t5 t6 a w1 Hq1)
    as (wb2 & cached2 & w2 & Hrun2 & _ & _ & Hcase2).
  destruct Hcase2 as [(v2 & [Hhit2 | [Hmiss _]] & -> & -> & _ & Hr2) | (Hmiss & _)];
    [| by rewrite Hhit in Hmiss | by rewrite Hhit in Hmiss].
  assert (v2 = v) as -> by congruence.
  by exists w1, w2.
Qed.

(** X22. A failure is not cached: when a lookup running alone misses
    both cache checks and the upstream fails, the result carries balance
    0 and the upstream's error, the cache is left as it was, and the
    next lookup of the key (missing again) calls the upstream again. *)
Theorem failure_is_not_cached (t1 t2 t3 t4 t5 t6 : Time) (a : string) (w : world)
    (v : float64) (e : error) :
  quiescent w ->
  (cache.Get (bs_cache w) t1 a).2 = false ->
  (cache.Get (bs_cache w) t2 a).2 = false ->
  (cache.Get (bs_cache w) t4 a).2 = false ->
  (cache.Get (bs_cache w) t5 a).2 = false ->
  rpcClient a (length (rpc_calls w)) = (v, Some e) ->
  exists w1 wb2 w2,
    alone t1 t2 t3 a w
      = Ok ({| Address := a; Balance := 0%float;
               Error := "Failed to fetch balance: " +:+ gort.Error e |}, false, w1) /\
    bs_cache w1 = bs_cache w /\
    alone t4 t5 t6 a w1 = Ok (wb2, false, w2) /\
    rpc_calls w2 = rpc_calls w ++ [a; a].
Proof.
  intros Hq Hm1 Hm2 Hm4 Hm5 Hrpc.
  destruct (lookup_alone_cases t1 t2 t3 a w Hq)
    as (wb & cached & w1 & Hrun & Hq1 & _ & Hcase).
  destruct Hcase as [(v' & [Hhit | [_ Hhit]] & _) | (_ & _ & -> & Hr1 & Hcase)];
    [by rewrite Hhit in Hm1 | by rewrite Hhit in Hm2 |].
  destruct Hcase as [(v' & Hrpc' & _) | (v' & e' & Hrpc' & -> & Hc1)]; [congruence |].
  assert (e' = e) as -> by congruence.
  destruct (lookup_alone_cases t4 t5 t6 a w1 Hq1)
    as (wb2 & cached2 & w2 & Hrun2 & _ & _ & Hcase2).
  rewrite Hc1 in Hcase2.
  destruct Hcase2 as [(v2 & [Hhit | [_ Hhit]] & _) | (_ & _ & -> & Hr2 & _)];
    [by rewrite Hhit in Hm4 | by rewrite Hhit in Hm5 |].
  exists w1, wb2, w2. repeat split; try done.
  by rewrite Hr2, Hr1, <- app_assoc.
Qed.

(** X23. [ClearCache] empties the cache and nothing else: afterwards the
    size is 0, the registry, the heap and the call log are as before,
    and a lookup of any key running alone calls the upstream, whatever
    was cached before. *)
Theorem ClearCache_forces_fetch (t1 t2 t3 : Time) (a : string) (w : world) :
  quiescent w ->
  cache.Size (bs_cache (ClearCache w)) = 0%nat /\
  bs_requestMutex (ClearCache w) = bs_requestMutex w /\
  sync_heap (ClearCache w) = sync_heap w /\
  exists wb w',
    alone t1 t2 t3 a (ClearCache w) = Ok (wb, false, w') /\
    rpc_calls w' = rpc_calls w ++ [a].
Proof.
  intros Hq. split; [done |]. split; [done |]. split; [done |].
  destruct (lookup_alone_cases t1 t2 t3 a (ClearCache w))
    as (wb & cached & w' & Hrun & _ & _ & Hcase); [by apply (quiescent_same w) |].
  destruct Hcase as [(v' & [Hhit | [_ Hhit]] & _) | (_ & _ & -> & Hr & _)].
  - unfold ClearCache, cache.Get in Hhit. simpl in Hhit. by rewrite lookup_empty in Hhit.
  - unfold ClearCache, cache.Get in Hhit. simpl in Hhit. by rewrite lookup_empty in Hhit.
  - by exists wb, w'.
Qed.

Lemma Stop_sweep (ev : event) (b : batch) (w w' : world) :
  is_sweep ev = true -> Stop w = Ok w' ->
  exists w1 w1',
    step rpcClient ev (b, w) = Ok (b, w1) /\
    step rpcClient ev (b, w') = Ok (b, w1') /\
    Stop w1 = Ok w1'.
Proof.
  intros Hev. unfold Stop, cache.Stop, mutex.Stop, close.
  destruct (closed (cache.stopCh (bs_cache w))) eqn:Hc; [done |]. cbn [mbind outcome_bind].
  destruct ev as [i now | now | now]; [done | |];
    (destruct (mutex.stopped (bs_requestMutex w)) eqn:Hs; cbn [negb mbind outcome_bind];
     [| destruct (closed (mutex.stopCh (bs_requestMutex w))) eqn:Hm;
        [done |]; cbn [mbind outcome_bind]]);
    intros [= <-]; eexists _, _; (split; [reflexivity |]); (split; [reflexivity |]);
    simpl; rewrite ?Hc, ?Hs, ?Hm; reflexivity.
Qed.

(** X24. [Stop] and the sweeps commute.  [bs.Stop] touches the two stop
    channels and the registry's flag only, and a sweep the entries only:
    whatever ticks the two cleanup loops still serve after [Stop] has
    returned, they remove the cache entries and the lock entries they
    would have removed had [Stop] not been called, and the service is
    left as [Stop] leaves the swept service.  In particular [Stop] does
    not by itself end the sweeps. *)
Theorem Stop_commutes_with_sweeps (sched : list event) (b : batch) (w w' : world) :
  forallb is_sweep sched = true ->
  Stop w = Ok w' ->
  exists w1 w1',
    run rpcClient sched (b, w) = Ok (b, w1) /\
    run rpcClient sched (b, w') = Ok (b, w1') /\
    Stop w1 = Ok w1'.
Proof.
  revert w w'. induction sched as [|ev sched IH]; intros w w' Hsched Hstop.
  - by exists w, w'.
  - apply andb_prop in Hsched as [Hev Hsched].
    destruct (Stop_sweep ev b w w' Hev Hstop) as (w1 & w1' & Hs1 & Hs1' & Hstop1).
    destruct (IH w1 w1' Hsched Hstop1) as (w2 & w2' & Hr & Hr' & Hstop2).
    exists w2, w2'. cbn [run]. rewrite Hs1, Hs1'. by cbn [mbind outcome_bind].
Qed.

End lookup_alone.

Section lookup_alone_examples.

Import models services.

Local Abbreviation alone_ex := (fun t1 t2 t3 => getBalanceWithCache examples.upstream t1 t2 t3 id id).

Lemma lookup_alone_returns_witness :
  exists wb cached w',
    alone_ex 0 0 1 "a" examples.world_new = Ok (wb, cached, w') /\
    quiescent w' /\ Address wb = "a".
Proof.
  destruct (lookup_alone_returns examples.upstream 0 0 1 "a" examples.world_new)
    as (wb & cached & w' & Hrun & Hq & Ha & _).
  - intros k e Hk. unfold examples.world_new in Hk. simpl in Hk.
    by rewrite lookup_empty in Hk.
  - by exists wb, cached, w'.
Defined.

Lemma fetch_then_hit_witness :
  exists w1 w2,
    alone_ex 0 0 1 "a" examples.world_new
      = Ok ({| Address := "a"; Balance := 2.5%float; Error := "" |}, false, w1) /\
    rpc_calls w1 = rpc_calls examples.world_new ++ ["a"] /\
    alone_ex 5 5 5 "a" w1
      = Ok ({| Address := "a"; Balance := 2.5%float; Error := "" |}, true, w2) /\
    rpc_calls w2 = rpc_calls w1.
Proof.
  apply (fetch_then_hit examples.upstream 0 0 1 5 5 5 "a" examples.world_new 2.5%float).
  - intros k e Hk. unfold examples.world_new in Hk. simpl in Hk.
    by rewrite lookup_empty in Hk.
  - unfold clock_reading, maxInt64; lia.
  - unfold clock_reading, maxInt64; lia.
  - simpl; lia.
  - reflexivity.
  - reflexivity.
  - reflexivity.
Defined.

Lemma failure_is_not_cached_witness :
  exists w1 wb2 w2,
    alone_ex 0 0 1 "b" examples.world_new
      = Ok ({| Address := "b"; Balance := 0%float;
               Error := "Failed to fetch balance: rpc unavailable" |}, false, w1) /\
    bs_cache w1 = bs_cache examples.world_new /\
    alone_ex 5 5 5 "b" w1 = Ok (wb2, false, w2) /\
    rpc_calls w2 = rpc_calls examples.world_new ++ ["b"; "b"].
Proof.
  apply (failure_is_not_cached examples.upstream 0 0 1 5 5 5 "b" examples.world_new
           0%float (errorString "rpc unavailable")).
  - intros k e Hk. unfold examples.world_new in Hk. simpl in Hk.
    by rewrite lookup_empty in Hk.
  - reflexivity.
  - reflexivity.
  - reflexivity.
  - reflexivity.
  - reflexivity.
Defined.

Lemma ClearCache_forces_fetch_witness :
  cache.Size (bs_cache (ClearCache examples.world_hot)) = 0%nat /\
  bs_requestMutex (ClearCache examples.world_hot) = bs_requestMutex examples.world_hot /\
  sync_heap (ClearCache examples.world_hot) = sync_heap examples.world_hot /\
  exists wb w',
    alone_ex 105 105 105 "a" (ClearCache examples.world_hot) = Ok (wb, false, w') /\
    rpc_calls w' = rpc_calls examples.world_hot ++ ["a"].
Proof.
  apply (ClearCache_forces_fetch examples.upstream 105 105 105 "a" examples.world_hot).
  intros k e Hk. unfold examples.world_hot, examples.registry_a in Hk.
  rewrite GetMutex_untracked in Hk by done. simpl in Hk.
  apply lookup_insert_Some in Hk as [[_ <-] | [_ Hk]]; [reflexivity |].
  by rewrite lookup_empty in Hk.
Defined.

Lemma Stop_commutes_with_sweeps_witness :
  exists w1 w1',
    run examples.upstream [CacheTick 1000; MutexTick 1000]
      (examples.batch_idle, examples.world_hot) = Ok (examples.batch_idle, w1) /\
    run examples.upstream [CacheTick 1000; MutexTick 1000]
      (examples.batch_idle, examples.world_stopped) = Ok (examples.batch_idle, w1') /\
    Stop w1 = Ok w1'.
Proof.
  apply (Stop_commutes_with_sweeps examples.upstream [CacheTick 1000; MutexTick 1000]
           examples.batch_idle examples.world_hot examples.world_stopped);
    reflexivity.
Defined.

(** The sweeps of the witness, served after [Stop]: the stopped service
    holds one cache entry and one lock entry, and the two ticks at time
    1000 remove both. *)
Example sweeps_after_Stop :
  exists w1',
    Stop examples.world_hot = Ok examples.world_stopped /\
    run examples.upstream [CacheTick 1000; MutexTick 1000]
      (examples.batch_idle, examples.world_stopped) = Ok (examples.batch_idle, w1') /\
    cache.Size (bs_cache examples.world_stopped) = 1%nat /\
    mutex.Size (bs_requestMutex examples.world_stopped) = 1%nat /\
    cache.Size (bs_cache w1') = 0%nat /\
    mutex.Size (bs_requestMutex w1') = 0%nat.
Proof. eexists. split; [reflexivity |]. split; [reflexivity |]. repeat split. Qed.

End lookup_alone_examples.

(** ** The cleanup goroutines *)

Section cleanup_goroutines.

Import services.

(** The constructor returns for every configuration, but its two
    [cleanup] goroutines get past [time.NewTicker] exactly when the
    cache TTL and the cleanup interval are both positive; otherwise one
    of them panics, which ends the program. *)
Lemma cleanup_start_positive (TTL CleanupInterval : Duration) (now : Time) :
  (0 < TTL /\ 0 < CleanupInterval ->
   cleanup_start (NewBalanceService TTL CleanupInterval now) = Ok tt) /\
  (TTL <= 0 \/ CleanupInterval <= 0 ->
   cleanup_start (NewBalanceService TTL CleanupInterval now)
   = Panic "non-positive interval for NewTicker").
Proof.
  unfold cleanup_start, cache.cleanup_start, mutex.cleanup_start, NewTicker. simpl.
  split.
  - intros [Httl Hint].
    destruct (Z.ltb_spec 0 TTL); [| lia]. simpl.
    destruct (Z.ltb_spec 0 CleanupInterval); [done | lia].
  - intros Hcase.
    destruct (Z.ltb_spec 0 TTL); simpl; [| done].
    destruct (Z.ltb_spec 0 CleanupInterval); [lia | done].
Qed.

End cleanup_goroutines.

(** ** The balance service: the upstream calls of a batch *)

Section batch_calls.

Import models services.

Variable rpcClient : string -> nat -> float64 * option error.

Lemma insert_middle {A} (l : list A) (i : nat) (x y : A) :
  l !! i = Some x -> exists l1 l2, l = l1 ++ x :: l2 /\ <[i := y]> l = l1 ++ y :: l2.
Proof.
  intros Hi. exists (take i l), (drop (S i) l). split.
  - symmetry. by apply take_drop_middle.
  - apply insert_take_drop. by eapply lookup_lt_Some.
Qed.

(** What one stretch does to the call log: only the locked stretch that
    misses adds a call, for its own address, and only the stretch after
    the upstream call ends in an uncached result. *)
Lemma advance_calls now a st w st' w' :
  advance rpcClient now a st w = Ok (st', w') ->
  (forall wb c, st ≠ Returned wb c) ->
  from_cache (a, st) = true /\
  ((fetching (a, st) = false /\ fetching (a, st') = false /\ from_cache (a, st') = true /\
    rpc_calls w' = rpc_calls w) \/
   (fetching (a, st) = false /\ fetching (a, st') = true /\ from_cache (a, st') = true /\
    rpc_calls w' = rpc_calls w ++ [a]) \/
   (fetching (a, st) = true /\ fetching (a, st') = true /\ from_cache (a, st') = false /\
    rpc_calls w' = rpc_calls w)).
Proof.
  intros Hadv Hst. destruct st as [ | m t | m t call | wb c]; simpl in Hadv.
  - split; [done |]. left. injection Hadv as Hadv.
    pose proof (enter_rpc_calls now a w) as [Hr _]. rewrite Hadv in Hr. simpl in Hr.
    destruct (enter_cases now a w) as [[v Hv] | Hmiss].
    + rewrite (enter_hit _ _ _ _ Hv) in Hadv. by injection Hadv as <- <-.
    + destruct (enter_miss_spec _ _ _ Hmiss) as (m & w1 & Henter & _).
      rewrite Henter in Hadv. by injection Hadv as <- <-.
  - split; [done |].
    destruct (decide (sync_heap w !! m = Some false)) as [Hm | Hm];
      [| by rewrite (locked_held _ _ _ _ _ Hm) in Hadv].
    destruct (enter_cases now a w) as [[v Hv] | Hmiss].
    + destruct (locked_hit _ _ _ t _ _ Hm Hv) as (w2 & Hl & _ & _ & _ & Hr).
      rewrite Hl in Hadv. injection Hadv as <- <-. by left.
    + destruct (locked_miss _ _ _ t _ Hm Hmiss) as (w2 & Hl & _ & _ & _ & Hr).
      rewrite Hl in Hadv. injection Hadv as <- <-. right. by left.
  - split; [done |]. right. right.
    pose proof (fetched_rpc_calls rpcClient _ _ _ _ _ _ _ _ Hadv) as Hr.
    unfold fetched, release in Hadv.
    destruct (rpcClient a call) as [v [e|]]; simpl in Hadv;
      destruct (gort.Unlock m (sync_heap w)); simpl in Hadv; try done;
      by injection Hadv as <- <-.
  - by destruct (Hst wb c).
Qed.

Lemma settle_allCached index addr st b :
  allCached (settle index addr st b) = allCached b && from_cache (addr, st).
Proof. destruct st as [ | | | wb []]; simpl; by destruct (allCached b). Qed.

Lemma calls_inv_step calls0 addresses ev s s' :
  calls_inv calls0 addresses s -> step rpcClient ev s = Ok s' ->
  calls_inv calls0 addresses s'.
Proof.
  destruct s as [b w]. intros (Haddr & Hall & l & Hlog & Hperm) Hstep.
  simpl in Haddr, Hall, Hlog, Hperm.
  destruct ev as [i now | now | now];
    [| injection Hstep as <-; by repeat split; eauto
     | injection Hstep as <-; by repeat split; eauto].
  destruct (goroutines b !! i) as [[a st]|] eqn:Hi;
    [| rewrite step_Run_idle in Hstep by (by left); injection Hstep as <-;
       by repeat split; eauto].
  assert ((exists wb c, st = Returned wb c) \/ (forall wb c, st ≠ Returned wb c))
    as [(wb & c & ->) | Hst] by (destruct st; eauto).
  { rewrite step_Run_idle in Hstep by (right; eauto). injection Hstep as <-.
    by repeat split; eauto. }
  rewrite (step_Run_advance _ _ _ _ _ _ _ Hi Hst) in Hstep.
  destruct (advance rpcClient now a st w) as [[st' w'] | | | ] eqn:Hadv; try done;
    [| injection Hstep as <-; by repeat split; eauto].
  injection Hstep as <-.
  destruct (advance_calls _ _ _ _ _ _ Hadv Hst) as [Hfc Hcase].
  destruct (insert_middle (goroutines b) i (a, st) (a, st') Hi) as (l1 & l2 & Hgs & Hins).
  split; [| split]; simpl.
  - rewrite settle_goroutines, Hins, <- Haddr, Hgs, !fmap_app. by simpl.
  - rewrite settle_allCached, settle_goroutines, Hins, Hall, Hgs, !forallb_app. simpl.
    rewrite Hfc. simpl.
    destruct (forallb from_cache l1), (forallb from_cache l2), (from_cache (a, st')); done.
  - rewrite settle_goroutines, Hins. rewrite Hgs in Hperm.
    rewrite !filter_app, !filter_cons in Hperm |- *.
    destruct Hcase as [(Hf & Hf' & _ & Hr) | [(Hf & Hf' & _ & Hr) | (Hf & Hf' & _ & Hr)]].
    + exists l. split; [congruence |].
      rewrite decide_False in Hperm by congruence.
      by rewrite decide_False by congruence.
    + exists (l ++ [a]). split; [by rewrite Hr, Hlog, app_assoc |].
      rewrite decide_False in Hperm by congruence.
      rewrite decide_True by done. rewrite !fmap_app in Hperm |- *.
      rewrite fmap_cons. cbn [fst].
      etrans; [| apply Permutation_middle]. etrans; [apply Permutation_app_comm |].
      simpl. by constructor.
    + exists l. split; [congruence |].
      rewrite decide_True in Hperm by done.
      rewrite decide_True by done. by rewrite !fmap_app in Hperm |- *.
Qed.

Lemma calls_inv_run calls0 addresses sched s s' :
  calls_inv calls0 addresses s -> run rpcClient sched s = Ok s' ->
  calls_inv calls0 addresses s'.
Proof.
  revert s. induction sched as [|ev sched IH]; intros s Hinv; simpl.
  - by intros [= <-].
  - destruct (step rpcClient ev s) as [s1 | | | ] eqn:Hstep; simpl; try done.
    apply IH. by eapply calls_inv_step.
Qed.

Lemma calls_inv_start (addresses : list string) (w : world) :
  calls_inv (rpc_calls w) addresses
    ({| balances := replicate (length addresses) models.zero;
        allCached := true;
        goroutines := (fun addr => (addr, AtEntry)) <$> addresses |}, w).
Proof.
  split; [apply fmap_entry_fst |]. simpl. split.
  - induction addresses as [|a l IH]; [done |].
    rewrite fmap_cons. cbn [forallb]. by rewrite <- IH.
  - exists []. split; [by rewrite app_nil_r |].
    induction addresses as [|a l IH]; [done |].
    rewrite fmap_cons, filter_cons, decide_False by done. apply IH.
Qed.

Lemma returned_from_cache (gs : list (string * lookup)) :
  forallb returned gs = true ->
  (forallb from_cache gs = true <-> filter (fun g => fetching g = true) gs = []).
Proof.
  induction gs as [|[a st] gs IH]; simpl; [done |].
  intros [Hr Hrs]%andb_prop. rewrite filter_cons.
  destruct st as [ | | | wb [|]]; try done.
  rewrite decide_False by done. simpl. by apply IH.
Qed.

(** X25. The upstream calls of a batch.  Whatever the schedule, when
    [GetBalances] returns, the call log has grown by a selection of the
    requested addresses, each occurrence at most once and in some order
    (so by at most one call per requested address), and the response is
    flagged cached exactly when the request was not empty and the batch
    made no upstream call at all. *)
Theorem GetBalances_calls_and_Cached (start finish : Time) (sched : list event)
    (addresses : list string) (w w' : world) (resp : BalanceResponse) (err : option error) :
  GetBalances rpcClient start finish sched addresses w = Ok (resp, err, w') ->
  exists calls,
    rpc_calls w' = rpc_calls w ++ calls /\
    calls ⊆+ addresses /\
    (Cached resp = true <-> addresses ≠ [] /\ calls = []).
Proof.
  unfold GetBalances. case_bool_decide as Hlen.
  - intros [= <- <- <-]. exists []. simpl. rewrite app_nil_r.
    apply length_zero_iff_nil in Hlen as ->. split; [done |]. split; [done |].
    split; [done | by intros [? _]].
  - set (w0 := with_metrics w _). set (b0 := Build_batch _ _ _).
    destruct (run rpcClient sched (b0, w0)) as [[b w1] | | | ] eqn:Hrun;
      cbn [mbind outcome_bind]; try done.
    destruct (forallb returned (goroutines b)) eqn:Hret; [| done].
    intros [= <- <- <-]. simpl.
    pose proof (calls_inv_run (rpc_calls w) addresses sched (b0, w0) (b, w1)
                  (calls_inv_start addresses w0) Hrun) as (Haddr & Hall & l & Hlog & Hperm).
    simpl in Haddr, Hall, Hlog, Hperm.
    exists l. split; [done |]. split.
    + rewrite Hperm, <- Haddr. apply sublist_submseteq, fmap_sublist, sublist_filter.
    + rewrite Hall, (returned_from_cache _ Hret). split.
      * intros Hnil. rewrite Hnil in Hperm. split.
        -- intros ->. by apply Hlen.
        -- by apply Permutation_nil_r in Hperm.
      * intros [_ ->]. symmetry in Hperm. apply Permutation_nil_r in Hperm.
        by apply fmap_nil_inv in Hperm.
Qed.

End batch_calls.

Section batch_calls_examples.

Import models services.

Lemma GetBalances_calls_and_Cached_witness :
  exists resp err w',
    GetBalances examples.upstream 0 9 (one_by_one 2 0) ["a"; "b"] examples.world_new
      = Ok (resp, err, w') /\
    exists calls,
      rpc_calls w' = rpc_calls examples.world_new ++ calls /\
      calls ⊆+ ["a"; "b"] /\
      (Cached resp = true <-> ["a"; "b"] ≠ [] /\ calls = []).
Proof.
  eexists _, _, _. split; [vm_compute; reflexivity |].
  eapply (GetBalances_calls_and_Cached examples.upstream 0 9 (one_by_one 2 0)
            ["a"; "b"] examples.world_new).
  vm_compute. reflexivity.
Defined.

End batch_calls_examples.

(** ** The balance service: one caller per key inside the upstream *)

Section key_exclusion.

Import models services.

Variable rpcClient : string -> nat -> float64 * option error.

Lemma GetMutex_keeps_pointers rm now k h k' m :
  mutex.mutex_ <$> (mutex.mutexes rm !! k') = Some m ->
  mutex.mutex_ <$> (mutex.mutexes (mutex.GetMutex rm now k h).1.2 !! k') = Some m.
Proof.
  intros Hk'. destruct (mutex.mutexes rm !! k) as [e|] eqn:Hk.
  - rewrite (GetMutex_tracked _ _ _ _ _ Hk). simpl.
    destruct (decide (k = k')) as [<- | Hne].
    + rewrite lookup_insert_eq. rewrite Hk in Hk'. by simpl in *.
    + by rewrite lookup_insert_ne.
  - rewrite (GetMutex_untracked _ _ _ _ Hk). simpl.
    destruct (decide (k = k')) as [<- | Hne].
    + by rewrite Hk in Hk'.
    + by rewrite lookup_insert_ne.
Qed.

Lemma registry_wf_heap rm (h h' : heap) :
  length h' = length h -> mutex.registry_wf rm h -> mutex.registry_wf rm h'.
Proof. intros Hlen [Hin Hinj]. split; [| done]. intros k e He. rewrite Hlen. eauto. Qed.

(** What one stretch does to the registry: it stays well formed, every
    key keeps its mutex, and the mutex the goroutine stands at afterwards
    is the one it stood at before or the one the registry now tracks for
    its address. *)
Lemma advance_registry now a st w st' w' :
  advance rpcClient now a st w = Ok (st', w') ->
  mutex.registry_wf (bs_requestMutex w) (sync_heap w) ->
  mutex.registry_wf (bs_requestMutex w') (sync_heap w') /\
  (forall k m, mutex.mutex_ <$> (mutex.mutexes (bs_requestMutex w) !! k) = Some m ->
               mutex.mutex_ <$> (mutex.mutexes (bs_requestMutex w') !! k) = Some m) /\
  (forall m, addressMutex_of st' = Some m ->
             addressMutex_of st = Some m \/
             mutex.mutex_ <$> (mutex.mutexes (bs_requestMutex w') !! a) = Some m).
Proof.
  intros Hadv Hwf. destruct st as [ | m t | m t call | wb c]; simpl in Hadv.
  - injection Hadv as Hadv.
    destruct (enter_cases now a w) as [[v Hv] | Hmiss].
    + rewrite (enter_hit _ _ _ _ Hv) in Hadv. injection Hadv as <- <-. by simpl.
    + rewrite (enter_miss _ _ _ Hmiss) in Hadv. injection Hadv as <- <-. simpl.
      split; [by apply GetMutex_wf |]. split.
      * intros k m. apply GetMutex_keeps_pointers.
      * intros m [= <-]. right. by rewrite GetMutex_entry.
  - pose proof (locked_requestMutex _ _ _ _ _ _ _ Hadv) as Hrm.
    destruct (decide (sync_heap w !! m = Some false)) as [Hm | Hm];
      [| by rewrite (locked_held _ _ _ _ _ Hm) in Hadv].
    destruct (enter_cases now a w) as [[v Hv] | Hmiss].
    + destruct (locked_hit _ _ _ t _ _ Hm Hv) as (w2 & Hl & _ & _ & Hh & _).
      rewrite Hl in Hadv. injection Hadv as <- <-. rewrite Hrm, Hh. by simpl.
    + destruct (locked_miss _ _ _ t _ Hm Hmiss) as (w2 & Hl & _ & _ & Hh & _).
      rewrite Hl in Hadv. injection Hadv as <- <-. rewrite Hrm, Hh.
      split; [apply (registry_wf_heap _ (sync_heap w)); [apply length_insert | done] |].
      split; [done |]. intros m' [= <-]. by left.
  - pose proof (fetched_requestMutex rpcClient _ _ _ _ _ _ _ _ Hadv) as Hrm.
    rewrite Hrm. unfold fetched, release, gort.Unlock in Hadv.
    destruct (rpcClient a call) as [v [e|]]; simpl in Hadv;
      destruct (sync_heap w !! m) as [[|]|]; simpl in Hadv; try done;
      injection Hadv as <- <-; simpl;
      (split; [apply (registry_wf_heap _ (sync_heap w)); [apply length_insert | done] |]);
      done.
  - injection Hadv as <- <-. split; [done |]. split; [done |]. intros m Hm. by left.
Qed.

Lemma keyed_step ev s s' :
  no_sweep ev = true -> keyed s -> step rpcClient ev s = Ok s' -> keyed s'.
Proof.
  destruct s as [b w]. intros Hev [Hwf Hkey] Hstep. simpl in Hwf, Hkey.
  destruct ev as [i now | now | now]; [| by injection Hstep as <- | done].
  destruct (goroutines b !! i) as [[a st]|] eqn:Hi;
    [| rewrite step_Run_idle in Hstep by (by left); by injection Hstep as <-].
  assert ((exists wb c, st = Returned wb c) \/ (forall wb c, st ≠ Returned wb c))
    as [(wb & c & ->) | Hst] by (destruct st; eauto).
  { rewrite step_Run_idle in Hstep by (right; eauto). by injection Hstep as <-. }
  rewrite (step_Run_advance _ _ _ _ _ _ _ Hi Hst) in Hstep.
  destruct (advance rpcClient now a st w) as [[st' w'] | | | ] eqn:Hadv; try done;
    [| by injection Hstep as <-].
  injection Hstep as <-.
  destruct (advance_registry _ _ _ _ _ _ Hadv Hwf) as (Hwf' & Hkeep & Hown).
  split; [done |]. simpl. rewrite settle_goroutines.
  intros j a' st'' m [(-> & [= <- <-] & _) | [Hne Hj]]%list_lookup_insert_Some Hm.
  - destruct (Hown m Hm) as [Hold | Hnew]; [| done]. by eapply Hkeep, Hkey.
  - by eapply Hkeep, Hkey.
Qed.

Lemma keyed_run sched s s' :
  forallb no_sweep sched = true -> keyed s -> run rpcClient sched s = Ok s' -> keyed s'.
Proof.
  revert s. induction sched as [|ev sched IH]; intros s Hsched Hkeyed; simpl.
  - by intros [= <-].
  - apply andb_prop in Hsched as [Hev Hsched].
    destruct (step rpcClient ev s) as [s1 | | | ] eqn:Hstep; simpl; try done.
    apply IH; [done |]. by eapply keyed_step.
Qed.

(** X26. Per-key exclusion of upstream calls.  A batch started on a
    service with a well-formed registry and run under any schedule in
    which the registry is not swept never faults, and at every point of
    the schedule at most one of its goroutines is inside the upstream
    call for a given address, however often the address was requested. *)
Theorem one_caller_per_key_inside_upstream (sched : list event) (addresses : list string)
    (w : world) :
  mutex.registry_wf (bs_requestMutex w) (sync_heap w) ->
  forallb no_sweep sched = true ->
  exists b w',
    run rpcClient sched
      ({| balances := replicate (length addresses) models.zero;
          allCached := true;
          goroutines := (fun addr => (addr, AtEntry)) <$> addresses |}, w) = Ok (b, w') /\
    forall i j a m t c m' t' c',
      goroutines b !! i = Some (a, AtRPC m t c) ->
      goroutines b !! j = Some (a, AtRPC m' t' c') -> i = j.
Proof.
  intros Hwf Hsched.
  set (b0 := Build_batch _ _ _).
  assert (batch_inv rpcClient (cache.data (bs_cache w)) addresses (b0, w)) as Hinv0.
  { destruct w as [c rm mc h calls].
    exact (batch_inv_start rpcClient addresses
             {| bs_cache := c; bs_requestMutex := rm; bs_metrics := mc;
                sync_heap := h; rpc_calls := calls |} mc). }
  destruct (inv_run rpcClient _ _ sched _ Hinv0) as ([b w'] & Hrun & Hinv).
  exists b, w'. split; [done |].
  assert (keyed (b0, w)) as Hkeyed0.
  { split; [done |]. intros i a st m. simpl. rewrite list_lookup_fmap.
    destruct (addresses !! i); simpl; [| done]. by intros [= <- <-]. }
  pose proof (keyed_run _ _ _ Hsched Hkeyed0 Hrun) as [_ Hkey].
  destruct Hinv as [_ _ _ _ [_ Hdist]]. simpl in Hkey, Hdist.
  intros i j a m t c m' t' c' Hi Hj.
  destruct (decide (i = j)) as [| Hne]; [done | exfalso].
  pose proof (Hkey _ _ _ m Hi eq_refl) as Hm.
  pose proof (Hkey _ _ _ m' Hj eq_refl) as Hm'.
  assert (m' = m) as -> by congruence.
  by eapply (Hdist i j).
Qed.

End key_exclusion.

Section key_exclusion_examples.

Import models services.

Lemma one_caller_per_key_inside_upstream_witness :
  exists b w',
    run examples.upstream [Run 0 0; Run 1 0; Run 0 1; Run 1 1]
      ({| balances := replicate (length ["a"; "a"]) models.zero;
          allCached := true;
          goroutines := (fun addr => (addr, AtEntry)) <$> ["a"; "a"] |},
       examples.world_new) = Ok (b, w') /\
    forall i j a m t c m' t' c',
      goroutines b !! i = Some (a, AtRPC m t c) ->
      goroutines b !! j = Some (a, AtRPC m' t' c') -> i = j.
Proof.
  apply (one_caller_per_key_inside_upstream examples.upstream
           [Run 0 0; Run 1 0; Run 0 1; Run 1 1] ["a"; "a"] examples.world_new).
  - apply registry_wf_New.
  - reflexivity.
Defined.

(** The schedule of the witness, run: the first caller of ["a"] is inside
    the upstream call and the second waits for the lock of ["a"]. *)
Example second_caller_waits :
  exists b w',
    run examples.upstream [Run 0 0; Run 1 0; Run 0 1; Run 1 1]
      ({| balances := replicate 2 models.zero; allCached := true;
          goroutines := [("a", AtEntry); ("a", AtEntry)] |},
       examples.world_new) = Ok (b, w') /\
    goroutines b = [("a", AtRPC 0 1 0); ("a", AtLock 0 0)] /\
    rpc_calls w' = ["a"].
Proof. eexists _, _. split; [reflexivity |]. split; reflexivity. Qed.

(** Without the condition on the schedule the exclusion fails.  The
    first caller of ["a"] has taken its mutex from the registry at time
    0 and has not locked it yet when a sweep at time 100 (cleanup TTL
    60) finds the entry idle and its lock free, and deletes it; the
    second caller then gets a new mutex for ["a"], and both callers are
    inside the upstream call for ["a"] at once. *)
Example sweep_between_GetMutex_and_Lock :
  exists b w',
    run examples.upstream [Run 0 0; MutexTick 100; Run 1 100; Run 0 100; Run 1 100]
      ({| balances := replicate 2 models.zero; allCached := true;
          goroutines := [("a", AtEntry); ("a", AtEntry)] |},
       examples.world_new) = Ok (b, w') /\
    goroutines b = [("a", AtRPC 0 100 0); ("a", AtRPC 1 100 1)] /\
    rpc_calls w' = ["a"; "a"].
Proof. eexists _, _. split; [reflexivity |]. split; reflexivity. Qed.

End key_exclusion_examples.

(** ** The balance endpoint *)

Section balance_endpoint.

Import models apperrors services.

Variable rpcClient : string -> nat -> float64 * option error.

(** What a batch that returned did: no error value, and the call log
    grown by a selection of the requested addresses. *)
Lemma GetBalances_calls start finish sched addresses w resp err w' :
  GetBalances rpcClient start finish sched addresses w = Ok (resp, err, w') ->
  err = None /\
  exists calls, rpc_calls w' = rpc_calls w ++ calls /\ calls ⊆+ addresses.
Proof.
  unfold GetBalances. case_bool_decide as Hlen.
  - intros [= <- <- <-]. split; [done |]. exists []. simpl. rewrite app_nil_r.
    split; [done | apply submseteq_nil_l].
  - set (w0 := with_metrics w _). set (b0 := Build_batch _ _ _).
    destruct (run rpcClient sched (b0, w0)) as [[b w1] | | | ] eqn:Hrun;
      cbn [mbind outcome_bind]; try done.
    destruct (forallb returned (goroutines b)) eqn:Hret; [| done].
    intros [= <- <- <-]. split; [done |]. simpl.
    pose proof (calls_inv_run rpcClient (rpc_calls w) addresses sched (b0, w0) (b, w1)
                  (calls_inv_start addresses w0) Hrun) as (Haddr & _ & l & Hlog & Hperm).
    simpl in Haddr, Hlog, Hperm. exists l. split; [done |].
    rewrite Hperm, <- Haddr. apply sublist_submseteq, fmap_sublist, sublist_filter.
Qed.

(** X27. Every error code, known or not, maps to a client or server
    error status: [HTTPStatusCode] answers one of 400, 401, 429, 500 and
    502, and so does every response sent by [HandleError] for an error
    made by one of the three constructors or for a plain error. *)
Theorem HTTPStatusCode_is_an_error_status (e : ErrorCode) (message details : string)
    (cause : error) :
  HTTPStatusCode e ∈ [400; 401; 429; 500; 502] /\
  (HandleError (inl (NewAppError e message))).1 = HTTPStatusCode e /\
  (HandleError (inl (NewAppErrorWithCause e message cause))).1 = HTTPStatusCode e /\
  (HandleError (inl (NewAppErrorWithDetails e message details))).1 = HTTPStatusCode e /\
  (HandleError (inr cause)).1 = 500.
Proof.
  split; [| done]. unfold HTTPStatusCode.
  repeat match goal with
         | |- context [if ?c then _ else _] => destruct c
         end; set_solver.
Qed.

(** A batch never faults: it returns with a nil error or is still
    waiting for its goroutines when the schedule ends. *)
Lemma GetBalances_returns_or_waits start finish sched addresses w :
  GetBalances rpcClient start finish sched addresses w = Blocked \/
  exists resp w', GetBalances rpcClient start finish sched addresses w = Ok (resp, None, w').
Proof.
  unfold GetBalances. case_bool_decide as Hlen; [right; by eexists _, _ |].
  set (s0 := (_, with_metrics w _)).
  destruct (inv_run rpcClient (cache.data (bs_cache w)) addresses sched s0)
    as ([b w'] & -> & _); [apply batch_inv_start |].
  cbn [mbind outcome_bind].
  destruct (forallb returned (goroutines b)); [right; by eexists _, _ | by left].
Qed.

(** X28. The gate of the balance endpoint, for every request, schedule
    and state of the service.  A body that does not bind, an empty
    wallet list and a list with a wallet that is not a valid address are
    answered 400 with the code of the case (for an invalid wallet, the
    first one in the list), and the service is not touched: no counter,
    no cache entry, no lock, no upstream call.  A non-empty list of
    valid addresses is passed to the service as it is; the handler
    answers 200 with exactly the response the service returned, in the
    state the service left, every upstream call made meanwhile was for
    one of the wallets, and the handler waits as long as the service
    does.  The handler never faults and answers no other status. *)
Theorem handler_gate (bind : string + list string) (start finish : Time)
    (sched : list event) (w : world) :
  (forall err, bind = inl err ->
     handlers.GetBalance rpcClient bind start finish sched w
     = Ok (400, handlers.ErrorBody {| Code := "MALFORMED_JSON";
                                      Message := "Invalid JSON format";
                                      Details := err |}, w)) /\
  (bind = inr [] ->
     handlers.GetBalance rpcClient bind start finish sched w
     = Ok (400, handlers.ErrorBody
                  {| Code := "EMPTY_WALLET_ARRAY";
                     Message := "Wallets array cannot be empty";
                     Details := "At least one wallet address must be provided" |}, w)) /\
  (forall Wallets wallet,
     bind = inr Wallets -> wallet ∈ Wallets ->
     handlers.isValidSolanaAddress wallet = false ->
     exists i bad,
       Wallets !! i = Some bad /\ handlers.isValidSolanaAddress bad = false /\
       (forall j other, Wallets !! j = Some other -> (j < i)%nat ->
                        handlers.isValidSolanaAddress other = true) /\
       handlers.GetBalance rpcClient bind start finish sched w
       = Ok (400, handlers.ErrorBody {| Code := "INVALID_WALLET_ADDRESS";
                                        Message := "Invalid wallet address format";
                                        Details := "Wallet address: " +:+ bad |}, w)) /\
  (forall Wallets,
     bind = inr Wallets -> Wallets ≠ [] ->
     Forall (fun wallet => handlers.isValidSolanaAddress wallet = true) Wallets ->
     (GetBalances rpcClient start finish sched Wallets w = Blocked /\
      handlers.GetBalance rpcClient bind start finish sched w = Blocked) \/
     (exists resp w' calls,
        GetBalances rpcClient start finish sched Wallets w = Ok (resp, None, w') /\
        handlers.GetBalance rpcClient bind start finish sched w
        = Ok (200, handlers.BalanceBody resp, w') /\
        rpc_calls w' = rpc_calls w ++ calls /\ calls ⊆+ Wallets /\
        Forall (fun wallet => handlers.isValidSolanaAddress wallet = true) calls)).
Proof.
  split; [by intros err -> |]. split; [by intros -> |]. split.
  - intros Wallets wallet -> Hin Hbad. unfold handlers.GetBalance.
    case_bool_decide as Hlen.
    { apply length_zero_iff_nil in Hlen as ->. by apply elem_of_nil in Hin. }
    destruct (list_find _ Wallets) as [[i bad]|] eqn:Hfind.
    + apply list_find_Some in Hfind as (Hi & Hbad' & Hbefore).
      exists i, bad. split; [done |]. split; [done |]. split; [| done].
      intros j other Hj Hlt. specialize (Hbefore j other Hj Hlt).
      by destruct (handlers.isValidSolanaAddress other).
    + apply list_find_None in Hfind. rewrite Forall_forall in Hfind.
      by destruct (Hfind wallet Hin).
  - intros Wallets -> Hne Hvalid. unfold handlers.GetBalance.
    case_bool_decide as Hlen; [by apply length_zero_iff_nil in Hlen |].
    destruct (list_find _ Wallets) as [[i bad]|] eqn:Hfind.
    { apply list_find_Some in Hfind as (Hi & Hbad & _).
      rewrite Forall_forall in Hvalid.
      rewrite (Hvalid bad) in Hbad; [done | by eapply list_elem_of_lookup_2]. }
    destruct (GetBalances_returns_or_waits start finish sched Wallets w)
      as [Hwait | (resp & w' & Hsvc)].
    + left. by rewrite Hwait.
    + right. destruct (GetBalances_calls _ _ _ _ _ _ _ _ Hsvc) as (_ & calls & Hlog & Hsub).
      exists resp, w', calls. rewrite Hsvc. cbn [mbind outcome_bind].
      split; [done |]. split; [done |]. split; [done |]. split; [done |].
      rewrite Forall_forall in Hvalid |- *. intros wallet Hin. apply Hvalid.
      by eapply elem_of_submseteq.
Qed.

End balance_endpoint.

Section balance_endpoint_examples.

Import models apperrors services.

(** A request for one valid address on a new service: the handler
    answers 200 with the service's response, after one upstream call. *)
Example handler_answers_valid_wallet :
  exists w',
    handlers.GetBalance examples.upstream (inr [examples.system_program]) 0 9
      (one_by_one 1 0) examples.world_new
    = Ok (200,
          handlers.BalanceBody
            {| Balances := [ {| Address := examples.system_program; Balance := 0%float;
                                Error := "Failed to fetch balance: rpc unavailable" |} ];
               Cached := false |},
          w') /\
    rpc_calls w' = [examples.system_program].
Proof. eexists. split; [vm_compute; reflexivity | reflexivity]. Qed.

(** A request with a wallet that is too short is answered 400 with the
    code of an invalid wallet, and the service is left as it was. *)
Example handler_rejects_short_wallet :
  handlers.GetBalance examples.upstream (inr [examples.system_program; "a"]) 0 9
    (one_by_one 2 0) examples.world_new
  = Ok (400, handlers.ErrorBody {| Code := "INVALID_WALLET_ADDRESS";
                                   Message := "Invalid wallet address format";
                                   Details := "Wallet address: a" |},
        examples.world_new).
Proof. reflexivity. Qed.

End balance_endpoint_examples.
